(** * Cloudflare R2 filesystem adapter (src/src/r2.ts): a shallow embedding

    The class [CloudflareR2FileSystem] keeps a metadata cache
    ([Map<string, R2CacheEntry>]) and talks to an S3-compatible object store
    through [s3Client.send].  The embedding threads the cache, the log of
    commands sent, the state of the remote store and the clock through a
    small state-and-exception monad.  The store client is an interface
    ([Platform]): a property is stated either for every client, whatever it
    answers, or for the in-memory reference store [MemStore], which follows
    the S3 contract the adapter is written against.

    Layout: the JavaScript string primitives, the key codec, the UTF-8 wire
    form of text, the data exchanged with the store, the monad, the class,
    the reference store and some sample data; then the lemmas; then the
    properties of the specification, C1 to C10. *)

From Stdlib Require Import ZArith Lia Ascii String.
From stdpp Require Import gmap strings list sorting.

Local Open Scope Z_scope.

(** ** JavaScript string primitives used by the adapter

    Paths and object keys are modelled as [string]; one [ascii] stands for
    one code unit. *)
Module JsString.

(** [s.startsWith(p)] *)
Definition startsWith (s p : string) : bool := String.prefix p s.

(** [s.slice(n)] and [s.substring(n)] for [0 <= n]: the suffix from index
    [n], empty when [n] is past the end. *)
Fixpoint slice (n : nat) (s : string) : string :=
  match n, s with
  | O, _ => s
  | S _, EmptyString => EmptyString
  | S n', String _ s' => slice n' s'
  end.

Definition substring (s : string) (n : nat) : string := slice n s.

(** [s.endsWith("/")] *)
Fixpoint endsWithSlash (s : string) : bool :=
  match s with
  | EmptyString => false
  | String c EmptyString => Ascii.eqb c "/"
  | String _ s' => endsWithSlash s'
  end.

(** [s.includes("/")] *)
Fixpoint includesSlash (s : string) : bool :=
  match s with
  | EmptyString => false
  | String c s' => Ascii.eqb c "/" || includesSlash s'
  end.

(** [s.replace(/\/$/, "")]: drop one trailing slash. *)
Fixpoint stripTrailingSlash (s : string) : string :=
  match s with
  | EmptyString => EmptyString
  | String c EmptyString => if Ascii.eqb c "/" then EmptyString else s
  | String c s' => String c (stripTrailingSlash s')
  end.

(** Truthiness of a string: only [""] is falsy. *)
Definition truthy (s : string) : bool :=
  match s with EmptyString => false | _ => true end.

(** [s.split(".").pop()]: the part after the last dot, the whole string
    when there is none. *)
Fixpoint lastDotSegment (acc s : string) : string :=
  match s with
  | EmptyString => acc
  | String c s' =>
      if Ascii.eqb c "." then lastDotSegment s' s' else lastDotSegment acc s'
  end.

Definition lowerChar (c : ascii) : ascii :=
  let n := nat_of_ascii c in
  if ((65 <=? n)%nat && (n <=? 90)%nat)%bool then ascii_of_nat (n + 32) else c.

(** [s.toLowerCase()] on the ASCII letters. *)
Fixpoint toLowerCase (s : string) : string :=
  match s with
  | EmptyString => EmptyString
  | String c s' => String (lowerChar c) (toLowerCase s')
  end.

End JsString.

(** ** Construction-time options (the fields the operations read) *)
Record Options := {
  opt_bucket : string;
  opt_prefix : string;
}.

(** ** KeyCodec: [getR2Key] and [getLocalPath] *)
Section KeyCodec.
Variable options : Options.

Definition getR2Key (path : string) : string :=
  let normalizedPath :=
    if JsString.startsWith path "/" then JsString.slice 1 path else path in
  if JsString.truthy (opt_prefix options)
  then opt_prefix options +:+ "/" +:+ normalizedPath
  else normalizedPath.

Definition getLocalPath (key : string) : string :=
  if (JsString.truthy (opt_prefix options)
      && JsString.startsWith key (opt_prefix options +:+ "/"))%bool
  then JsString.slice (String.length (opt_prefix options) + 1) key
  else key.

(** The keys of this instance's namespace: with a prefix configured, the
    keys that start with the prefix and a slash. *)
Definition inNamespace (key : string) : bool :=
  if JsString.truthy (opt_prefix options)
  then JsString.startsWith key (opt_prefix options +:+ "/")
  else true.

(** [getContentType]: lookup of the lower-cased extension in an object
    literal.  The lookup also finds what the literal inherits from
    [Object.prototype]; of those names only ["constructor"] and
    ["__proto__"] are without an upper-case letter, so only they can be
    met by a lower-cased extension.  Both values are truthy, and are
    returned in place of a string. *)
Inductive ContentTypeValue :=
| TypeString (type : string)
| ObjectConstructor   (* [Object], found as ["constructor"] *)
| ObjectPrototype.    (* [Object.prototype], found as ["__proto__"] *)

Definition mimeTypes : list (string * string) :=
  [ ("json", "application/json"); ("txt", "text/plain");
    ("md", "text/markdown"); ("html", "text/html"); ("css", "text/css");
    ("js", "application/javascript"); ("ts", "application/typescript");
    ("xml", "application/xml"); ("pdf", "application/pdf");
    ("png", "image/png"); ("jpg", "image/jpeg"); ("jpeg", "image/jpeg");
    ("gif", "image/gif"); ("svg", "image/svg+xml") ].

Fixpoint assoc (k : string) (l : list (string * string)) : option string :=
  match l with
  | [] => None
  | (k', v) :: l' => if String.eqb k k' then Some v else assoc k l'
  end.

(** [mimeTypes[ext]]: an own property, or else an inherited one. *)
Definition mimeTypes_get (ext : string) : option ContentTypeValue :=
  match assoc ext mimeTypes with
  | Some t => Some (TypeString t)
  | None =>
      if String.eqb ext "constructor" then Some ObjectConstructor
      else if String.eqb ext "__proto__" then Some ObjectPrototype
      else None
  end.

Definition getContentType (path : string) : ContentTypeValue :=
  let ext := JsString.toLowerCase (JsString.lastDotSegment path path) in
  match mimeTypes_get ext with
  | Some t => t
  | None => TypeString "application/octet-stream"
  end.
End KeyCodec.

(** ** Text content and its UTF-8 wire form

    A JavaScript string is a sequence of UTF-16 code units.  [PutObject]
    sends a string body as its UTF-8 encoding and
    [Buffer.concat(chunks).toString("utf-8")] decodes the bytes read back.
    Both directions are modelled on code units and bytes as [Z]: unpaired
    surrogates are encoded as U+FFFD, and the decoder replaces every
    ill-formed sequence by U+FFFD and resumes at the offending byte. *)
Module Utf8.

Definition isHigh (u : Z) : bool := (0xD800 <=? u) && (u <=? 0xDBFF).
Definition isLow (u : Z) : bool := (0xDC00 <=? u) && (u <=? 0xDFFF).

Definition replacementBytes : list Z := [0xEF; 0xBF; 0xBD].

(** Encoding of one code point below 0x10000 that is not a surrogate. *)
Definition encodeBmp (u : Z) : list Z :=
  if u <? 0x80 then [u]
  else if u <? 0x800 then [0xC0 + u / 64; 0x80 + u mod 64]
  else [0xE0 + u / 4096; 0x80 + (u / 64) mod 64; 0x80 + u mod 64].

(** Encoding of the code point of a surrogate pair. *)
Definition encodePair (hi lo : Z) : list Z :=
  let cp := 0x10000 + (hi - 0xD800) * 1024 + (lo - 0xDC00) in
  [0xF0 + cp / 262144; 0x80 + (cp / 4096) mod 64;
   0x80 + (cp / 64) mod 64; 0x80 + cp mod 64].

Fixpoint encode (s : list Z) : list Z :=
  match s with
  | [] => []
  | u :: r =>
      if isHigh u then
        match r with
        | l :: r' =>
            if isLow l then encodePair u l ++ encode r'
            else replacementBytes ++ encode r
        | [] => replacementBytes
        end
      else if isLow u then replacementBytes ++ encode r
      else encodeBmp u ++ encode r
  end.

(** [Buffer.byteLength(content, "utf-8")] *)
Definition byteLength (s : list Z) : Z := Z.of_nat (length (encode s)).

Definition isCont (b : Z) : bool := (0x80 <=? b) && (b <=? 0xBF).

(** Admissible second byte after a three-byte lead. *)
Definition second3 (b0 b1 : Z) : bool :=
  if b0 =? 0xE0 then (0xA0 <=? b1) && (b1 <=? 0xBF)
  else if b0 =? 0xED then (0x80 <=? b1) && (b1 <=? 0x9F)
  else isCont b1.

(** Admissible second byte after a four-byte lead. *)
Definition second4 (b0 b1 : Z) : bool :=
  if b0 =? 0xF0 then (0x90 <=? b1) && (b1 <=? 0xBF)
  else if b0 =? 0xF4 then (0x80 <=? b1) && (b1 <=? 0x8F)
  else isCont b1.

(** Code units of a code point at or above 0x10000. *)
Definition surrogates (cp : Z) : list Z :=
  [0xD800 + (cp - 0x10000) / 1024; 0xDC00 + (cp - 0x10000) mod 1024].

Fixpoint decode (bs : list Z) : list Z :=
  match bs with
  | [] => []
  | b0 :: r0 =>
      if b0 <? 0x80 then b0 :: decode r0
      else if (0xC2 <=? b0) && (b0 <=? 0xDF) then
        match r0 with
        | b1 :: r1 =>
            if isCont b1
            then ((b0 - 0xC0) * 64 + (b1 - 0x80)) :: decode r1
            else 0xFFFD :: decode r0
        | [] => [0xFFFD]
        end
      else if (0xE0 <=? b0) && (b0 <=? 0xEF) then
        match r0 with
        | b1 :: r1 =>
            if second3 b0 b1 then
              match r1 with
              | b2 :: r2 =>
                  if isCont b2
                  then ((b0 - 0xE0) * 4096 + (b1 - 0x80) * 64 + (b2 - 0x80))
                         :: decode r2
                  else 0xFFFD :: decode r1
              | [] => [0xFFFD]
              end
            else 0xFFFD :: decode r0
        | [] => [0xFFFD]
        end
      else if (0xF0 <=? b0) && (b0 <=? 0xF4) then
        match r0 with
        | b1 :: r1 =>
            if second4 b0 b1 then
              match r1 with
              | b2 :: r2 =>
                  if isCont b2 then
                    match r2 with
                    | b3 :: r3 =>
                        if isCont b3
                        then surrogates ((b0 - 0xF0) * 262144
                                         + (b1 - 0x80) * 4096
                                         + (b2 - 0x80) * 64 + (b3 - 0x80))
                               ++ decode r3
                        else 0xFFFD :: decode r2
                    | [] => [0xFFFD]
                    end
                  else 0xFFFD :: decode r1
              | [] => [0xFFFD]
              end
            else 0xFFFD :: decode r0
        | [] => [0xFFFD]
        end
      else 0xFFFD :: decode r0
  end.

(** A well-formed string: code units in range, every surrogate paired. *)
Fixpoint wellFormed (s : list Z) : bool :=
  match s with
  | [] => true
  | u :: r =>
      if isHigh u then
        match r with
        | l :: r' => isLow l && wellFormed r'
        | [] => false
        end
      else if isLow u then false
      else (0 <=? u) && (u <? 0x10000) && wellFormed r
  end.

End Utf8.

(** ** Store-side data: errors, response bodies, commands and outputs *)

(** What [s3Client.send] throws, as far as [isNotFoundError] looks at it. *)
Record AwsError := {
  err_name : option string;
  err_httpStatusCode : option Z;
}.

Definition isNotFoundError (error : AwsError) : bool :=
  match err_name error with
  | Some n => String.eqb n "NoSuchKey"
  | None => false
  end
  || match err_httpStatusCode error with
     | Some c => c =? 404
     | None => false
     end.

(** A response body: an async iterable of byte chunks that may fail while
    it is being read. *)
Inductive BodyStream :=
| StreamEnd
| StreamChunk (chunk : list Z) (rest : BodyStream)
| StreamFail (error : AwsError).

Record GetObjectCommandOutput := {
  get_Body : option BodyStream;
  get_ContentLength : option Z;
  get_LastModified : option Z;
  get_ETag : option string;
}.

Record PutObjectCommandOutput := { put_ETag : option string }.

Record HeadObjectCommandOutput := {
  head_ContentLength : option Z;
  head_LastModified : option Z;
  head_ETag : option string;
}.

Record S3Object := {
  obj_Key : option string;
  obj_Size : option Z;
  obj_LastModified : option Z;
  obj_ETag : option string;
}.

Record CommonPrefix := { cp_Prefix : option string }.

Record ListObjectsV2CommandOutput := {
  list_Contents : option (list S3Object);
  list_CommonPrefixes : option (list CommonPrefix);
  list_IsTruncated : bool;
}.

(** The commands the adapter sends, indexed by the type of their output. *)
Inductive Command : Type → Type :=
| GetObjectCommand (Bucket Key : string) : Command GetObjectCommandOutput
| PutObjectCommand (Bucket Key : string) (Body : list Z)
    (ContentType : ContentTypeValue)
    : Command PutObjectCommandOutput   (* [Body]: the string, as code units *)
| HeadObjectCommand (Bucket Key : string) : Command HeadObjectCommandOutput
| DeleteObjectCommand (Bucket Key : string) : Command unit
| ListObjectsV2Command (Bucket Prefix : string) (Delimiter : option string)
    : Command ListObjectsV2CommandOutput
| DeleteObjectsCommand (Bucket : string) (Objects : list string) : Command unit.

(** ** The adapter's own data *)

Record R2CacheEntry := {
  ce_size : Z;
  ce_lastModified : Z;
  ce_etag : string;
}.

(** Modelled from the spec: the interface file [filesystem.interface.ts]
    that declares [FileStats] is not among the sources.  The fields are
    those of the object literal [stat] builds and of the spec's contract of
    [stat] (size, the three timestamps, and the three kind predicates, here
    the constants they return); [st_mode] is the literal's [mode]. *)
Record FileStats := {
  st_size : Z;
  st_mtime : Z;
  st_ctime : Z;
  st_atime : Z;
  st_mode : Z;
  st_isFile : bool;
  st_isDirectory : bool;
  st_isSymbolicLink : bool;
}.

(** The errors the public operations throw: the message text is kept as a
    tag with the path and the underlying cause. *)
Inductive FsError :=
| FileNotFound (path : string)
| FailedToReadFile (path : string) (cause : AwsError)
| FailedToWriteFile (path : string) (cause : AwsError)
| FailedToCheckExistence (path : string) (cause : AwsError)
| FailedToDeleteFile (path : string) (cause : AwsError)
| FailedToReadDirectory (path : string) (cause : AwsError)
| FailedToDeleteDirectory (path : string) (cause : AwsError)
| FailedToGetStats (path : string) (cause : AwsError).

(** ** State and control flow

    An operation either returns or throws; the state it leaves behind is
    kept in both cases. *)
Inductive Outcome (E A : Type) :=
| Returned (a : A)
| Thrown (e : E).
Arguments Returned {E A} a.
Arguments Thrown {E A} e.

(** What the instance runs against: the store client and the wall clock
    ([now n] is the value of the [n]-th [new Date()]).  [W] is the state of
    the remote store. *)
Record Platform (W : Type) := {
  send : ∀ R, Command R → W → Outcome AwsError R * W;
  now : nat → Z;
}.
Arguments send {W} _ {R} _ _.
Arguments now {W} _ _.

Record State (W : Type) := {
  cache : gmap string R2CacheEntry;
  sent : list { R : Type & Command R };
  world : W;
  ticks : nat;
}.
Arguments cache {W} _.
Arguments sent {W} _.
Arguments world {W} _.
Arguments ticks {W} _.
Arguments Build_State {W} _ _ _ _.

Definition Fs (W E A : Type) : Type := State W → Outcome E A * State W.

Definition ret {W E A} (a : A) : Fs W E A := λ st, (Returned a, st).

Definition throw {W E A} (e : E) : Fs W E A := λ st, (Thrown e, st).

Definition bind {W E A B} (m : Fs W E A) (k : A → Fs W E B) : Fs W E B :=
  λ st, match m st with
        | (Returned a, st') => k a st'
        | (Thrown e, st') => (Thrown e, st')
        end.

(** A computation that always returns. *)
Definition total {W E A} (m : Fs W E A) : Prop :=
  ∀ st, ∃ a st', m st = (Returned a, st').

(** [try { body } catch (error) { handler }] *)
Definition try_catch {W E E' A} (body : Fs W E A) (handler : E → Fs W E' A)
  : Fs W E' A :=
  λ st, match body st with
        | (Returned a, st') => (Returned a, st')
        | (Thrown e, st') => handler e st'
        end.

Notation "'let*' x ':=' m 'in' k" := (bind m (λ x, k))
  (at level 10, x name, m at level 100, k at level 200, only parsing).

(** [for (const x of l) { body }] with the local array as accumulator. *)
Fixpoint for_of {W E A B} (l : list A) (body : A → B → Fs W E B) (acc : B)
  : Fs W E B :=
  match l with
  | [] => ret acc
  | x :: l' => let* acc' := body x acc in for_of l' body acc'
  end.

(** [entries.sort()]: ascending order of code units. *)
Definition str_le (a b : string) : Prop := String.leb a b = true.

#[global] Instance str_le_dec : RelDecision str_le.
Proof. intros a b. unfold str_le. apply _. Defined.

Definition sort (entries : list string) : list string :=
  merge_sort str_le entries.

(** ** The class [CloudflareR2FileSystem] *)
Section Facade.
Context {W : Type}.
Variable platform : Platform W.
Variable options : Options.

(** [await this.s3Client.send(command)] *)
Definition s3Client_send {R} (command : Command R) : Fs W AwsError R :=
  λ st, let '(r, w) := send platform command (world st) in
        (r, {| cache := cache st;
               sent := sent st ++ [existT R command];
               world := w;
               ticks := ticks st |}).

(** [new Date()] *)
Definition newDate {E} : Fs W E Z :=
  λ st, (Returned (now platform (ticks st)),
         {| cache := cache st; sent := sent st; world := world st;
            ticks := S (ticks st) |}).

Definition cache_get {E} (key : string) : Fs W E (option R2CacheEntry) :=
  λ st, (Returned (cache st !! key), st).

Definition cache_has {E} (key : string) : Fs W E bool :=
  λ st, (Returned (bool_decide (is_Some (cache st !! key))), st).

Definition cache_set {E} (key : string) (entry : R2CacheEntry) : Fs W E unit :=
  λ st, (Returned tt,
         {| cache := <[key := entry]> (cache st); sent := sent st;
            world := world st; ticks := ticks st |}).

Definition cache_delete {E} (key : string) : Fs W E unit :=
  λ st, (Returned tt,
         {| cache := delete key (cache st); sent := sent st;
            world := world st; ticks := ticks st |}).

(** [x || ""] on an optional string. *)
Definition orEmpty (x : option string) : string :=
  match x with Some s => s | None => "" end.

(** Truthiness of an optional string: present and not empty. *)
Definition truthyOpt (x : option string) : option string :=
  match x with
  | Some s => if JsString.truthy s then Some s else None
  | None => None
  end.

(** The [for await] loop of [streamToString]. *)
Fixpoint readChunks (stream : BodyStream) (chunks : list (list Z))
  : Outcome AwsError (list (list Z)) :=
  match stream with
  | StreamEnd => Returned chunks
  | StreamChunk chunk rest => readChunks rest (chunks ++ [chunk])
  | StreamFail error => Thrown error
  end.

Definition streamToString (stream : option BodyStream) : Fs W AwsError (list Z) :=
  match stream with
  | None => ret []
  | Some s =>
      match readChunks s [] with
      | Returned chunks => ret (Utf8.decode (concat chunks))
      | Thrown error => throw error
      end
  end.

Definition readFile (path : string) : Fs W FsError (list Z) :=
  try_catch
    (let key := getR2Key options path in
     let* cached := cache_get key in
     let* response := s3Client_send (GetObjectCommand (opt_bucket options) key) in
     let* content := streamToString (get_Body response) in
     let* _ :=
       match get_ContentLength response, get_LastModified response with
       | Some len, Some lm =>
           cache_set key {| ce_size := len; ce_lastModified := lm;
                            ce_etag := orEmpty (get_ETag response) |}
       | _, _ => ret tt
       end in
     ret content)
    (λ error,
       if isNotFoundError error then throw (FileNotFound path)
       else throw (FailedToReadFile path error)).

Definition writeFile (path : string) (content : list Z) : Fs W FsError unit :=
  try_catch
    (let key := getR2Key options path in
     let* response :=
       s3Client_send (PutObjectCommand (opt_bucket options) key content
                        (getContentType path)) in
     let* date := newDate in
     cache_set key {| ce_size := Utf8.byteLength content;
                      ce_lastModified := date;
                      ce_etag := orEmpty (put_ETag response) |})
    (λ error, throw (FailedToWriteFile path error)).

Definition exists_ (path : string) : Fs W FsError bool :=
  try_catch
    (let key := getR2Key options path in
     let* hit := cache_has key in
     if hit then ret true
     else
       let* response := s3Client_send (HeadObjectCommand (opt_bucket options) key) in
       let* _ :=
         match head_ContentLength response, head_LastModified response with
         | Some len, Some lm =>
             cache_set key {| ce_size := len; ce_lastModified := lm;
                              ce_etag := orEmpty (head_ETag response) |}
         | _, _ => ret tt
         end in
       ret true)
    (λ error,
       if isNotFoundError error then ret false
       else throw (FailedToCheckExistence path error)).

Definition deleteFile (path : string) : Fs W FsError unit :=
  try_catch
    (let key := getR2Key options path in
     let* _ := s3Client_send (DeleteObjectCommand (opt_bucket options) key) in
     cache_delete key)
    (λ error,
       if negb (isNotFoundError error)
       then throw (FailedToDeleteFile path error)
       else ret tt).

(** The path with a trailing slash, as [readDir] and [deleteDir] compute it. *)
Definition normalizeDir (path : string) : string :=
  if JsString.endsWithSlash path then path else path +:+ "/".

(** Body of the loop over [response.Contents] in [readDir]. *)
Definition readDir_object (normalizedPath prefix : string) (object : S3Object)
    (entries : list string) : Fs W AwsError (list string) :=
  match truthyOpt (obj_Key object) with
  | Some key =>
      if negb (String.eqb key prefix) then
        let localPath := getLocalPath options key in
        let fileName :=
          JsString.substring localPath (String.length normalizedPath) in
        if JsString.truthy fileName && negb (JsString.includesSlash fileName)
        then
          let* _ :=
            match obj_Size object, obj_LastModified object with
            | Some sz, Some lm =>
                cache_set key {| ce_size := sz; ce_lastModified := lm;
                                 ce_etag := orEmpty (obj_ETag object) |}
            | _, _ => ret tt
            end in
          ret (entries ++ [fileName])
        else ret entries
      else ret entries
  | None => ret entries
  end.

(** Body of the loop over [response.CommonPrefixes] in [readDir]. *)
Definition readDir_prefix (normalizedPath : string) (commonPrefix : CommonPrefix)
    (entries : list string) : Fs W AwsError (list string) :=
  match truthyOpt (cp_Prefix commonPrefix) with
  | Some p =>
      let localPath := getLocalPath options p in
      let dirName :=
        JsString.stripTrailingSlash
          (JsString.substring localPath (String.length normalizedPath)) in
      if JsString.truthy dirName then ret (entries ++ [dirName +:+ "/"])
      else ret entries
  | None => ret entries
  end.

Definition readDir (path : string) : Fs W FsError (list string) :=
  try_catch
    (let normalizedPath := normalizeDir path in
     let prefix := getR2Key options normalizedPath in
     let* response :=
       s3Client_send (ListObjectsV2Command (opt_bucket options) prefix (Some "/")) in
     let* entries :=
       match list_Contents response with
       | Some contents => for_of contents (readDir_object normalizedPath prefix) []
       | None => ret []
       end in
     let* entries :=
       match list_CommonPrefixes response with
       | Some prefixes => for_of prefixes (readDir_prefix normalizedPath) entries
       | None => ret entries
       end in
     ret (sort entries))
    (λ error, throw (FailedToReadDirectory path error)).

Definition deleteDir (path : string) : Fs W FsError unit :=
  try_catch
    (let normalizedPath := normalizeDir path in
     let prefix := getR2Key options normalizedPath in
     let* listResponse :=
       s3Client_send (ListObjectsV2Command (opt_bucket options) prefix None) in
     match list_Contents listResponse with
     | None | Some [] => ret tt
     | Some contents =>
         let objects := omap (λ obj, truthyOpt (obj_Key obj)) contents in
         match objects with
         | [] => ret tt
         | _ =>
             let* _ :=
               s3Client_send (DeleteObjectsCommand (opt_bucket options) objects) in
             for_of objects (λ key (_ : unit), cache_delete key) tt
         end
     end)
    (λ error, throw (FailedToDeleteDirectory path error)).

Definition stat (path : string) : Fs W FsError FileStats :=
  try_catch
    (let key := getR2Key options path in
     let* cached := cache_get key in
     match cached with
     | Some cached =>
         ret {| st_size := ce_size cached;
                st_mtime := ce_lastModified cached;
                st_ctime := ce_lastModified cached;
                st_atime := ce_lastModified cached;
                st_mode := 420;  (* 0o644 *)
                st_isFile := true;
                st_isDirectory := false;
                st_isSymbolicLink := false |}
     | None =>
         let* response := s3Client_send (HeadObjectCommand (opt_bucket options) key) in
         let orNow (d : option Z) : Fs W AwsError Z :=
           match d with Some t => ret t | None => newDate end in
         let size := default 0 (head_ContentLength response) in
         let* mtime := orNow (head_LastModified response) in
         let* ctime := orNow (head_LastModified response) in
         let* atime := orNow (head_LastModified response) in
         let stats := {| st_size := size; st_mtime := mtime; st_ctime := ctime;
                         st_atime := atime; st_mode := 420;
                         st_isFile := true; st_isDirectory := false;
                         st_isSymbolicLink := false |} in
         let* _ := cache_set key {| ce_size := st_size stats;
                                    ce_lastModified := st_mtime stats;
                                    ce_etag := orEmpty (head_ETag response) |} in
         ret stats
     end)
    (λ error,
       if isNotFoundError error then throw (FileNotFound path)
       else throw (FailedToGetStats path error)).

Definition ensureDir (path : string) : Fs W FsError unit := ret tt.

Definition chmod (path : string) (mode : Z) : Fs W FsError unit := ret tt.

End Facade.

(** The answer to the delimiter listing of ["d/"] when the directory holds
    the files [a.txt] and [b.json] and something under [sub/]: the two
    objects, in either order, and the one common prefix. *)
Definition listsExample (options : Options)
    (response : ListObjectsV2CommandOutput) : Prop :=
  ∃ contents prefixes,
    list_Contents response = Some contents
    ∧ obj_Key <$> contents
      ≡ₚ [Some (getR2Key options "d/a.txt"); Some (getR2Key options "d/b.json")]
    ∧ list_CommonPrefixes response = Some prefixes
    ∧ cp_Prefix <$> prefixes = [Some (getR2Key options "d/sub/")].

(** ** The public operations as data *)
Inductive Operation :=
| OpReadFile (path : string)
| OpWriteFile (path : string) (content : list Z)
| OpExists (path : string)
| OpDeleteFile (path : string)
| OpReadDir (path : string)
| OpDeleteDir (path : string)
| OpStat (path : string)
| OpEnsureDir (path : string)
| OpChmod (path : string) (mode : Z).

Inductive Value :=
| VText (content : list Z)
| VVoid
| VBool (b : bool)
| VNames (names : list string)
| VStats (stats : FileStats).

Definition perform {W} (platform : Platform W) (options : Options)
    (op : Operation) : Fs W FsError Value :=
  match op with
  | OpReadFile p => let* c := readFile platform options p in ret (VText c)
  | OpWriteFile p c => let* _ := writeFile platform options p c in ret VVoid
  | OpExists p => let* b := exists_ platform options p in ret (VBool b)
  | OpDeleteFile p => let* _ := deleteFile platform options p in ret VVoid
  | OpReadDir p => let* l := readDir platform options p in ret (VNames l)
  | OpDeleteDir p => let* _ := deleteDir platform options p in ret VVoid
  | OpStat p => let* s := stat platform options p in ret (VStats s)
  | OpEnsureDir p => let* _ := ensureDir p in ret VVoid
  | OpChmod p m => let* _ := chmod p m in ret VVoid
  end.

(** A session: operations issued one after the other on one instance, with
    nothing else touching the store; results are discarded. *)
Fixpoint session {W} (platform : Platform W) (options : Options)
    (ops : list Operation) (st : State W) : State W :=
  match ops with
  | [] => st
  | op :: ops' => session platform options ops' (perform platform options op st).2
  end.

(** The state of a freshly constructed instance. *)
Definition fresh {W} (w : W) : State W :=
  {| cache := ∅; sent := []; world := w; ticks := 0 |}.

(** ** An in-memory reference store

    The object store is an external service, reached through the AWS SDK;
    this is one bucket of it, as the adapter relies on it: [put] stores the
    UTF-8 bytes of the body, [get] streams them back in chunks, [head]
    reports metadata, [list] returns keys in ascending order, grouped by the
    delimiter and cut at [maxKeys] entries per call, a batch delete removes
    every key it is given, and a missing key is answered with a 404.  A
    schedule of faults lets any call be rejected with an arbitrary error,
    leaving the bucket untouched. *)
Module MemStore.

Record StoredObject := {
  so_body : list Z;
  so_contentType : ContentTypeValue;
  so_lastModified : Z;
  so_etag : string;
}.

Record Config := {
  maxKeys : nat;            (* entries per list call; 1000 for S3 and R2 *)
  chunkSize : nat;          (* body chunks carry [S chunkSize] bytes *)
  strictDelete : bool;      (* whether deleting a missing key is a 404 *)
  etagOf : list Z → string;
}.

Record Bucket := {
  objects : gmap string StoredObject;
  faults : list (option AwsError);
  serverTime : Z;
  config : Config;
}.

Definition noSuchKey : AwsError :=
  {| err_name := Some "NoSuchKey"; err_httpStatusCode := Some 404 |}.

Definition notFound : AwsError :=
  {| err_name := Some "NotFound"; err_httpStatusCode := Some 404 |}.

(** The fault, if any, scheduled for the next call. *)
Definition nextFault (w : Bucket) : option AwsError * Bucket :=
  match faults w with
  | [] => (None, w)
  | f :: fs =>
      (f, {| objects := objects w; faults := fs;
             serverTime := serverTime w; config := config w |})
  end.

Fixpoint chunksOf (fuel n : nat) (bytes : list Z) : BodyStream :=
  match fuel, bytes with
  | S fuel', _ :: _ =>
      StreamChunk (take (S n) bytes) (chunksOf fuel' n (drop (S n) bytes))
  | _, _ => StreamEnd
  end.

Definition bodyStream (n : nat) (bytes : list Z) : BodyStream :=
  chunksOf (length bytes) n bytes.

Definition sortedKeys (m : gmap string StoredObject) : list string :=
  merge_sort str_le (map_to_list m).*1.

Inductive Entry :=
| EntryObject (key : string)
| EntryPrefix (prefix : string).

#[global] Instance Entry_eq_dec : EqDecision Entry.
Proof. solve_decision. Defined.

(** Where a key goes in a listing for [prefix] and [delimiter]. *)
Definition classify (prefix : string) (delimiter : option string)
    (key : string) : option Entry :=
  if String.prefix prefix key then
    match delimiter with
    | Some d =>
        let rest := JsString.slice (String.length prefix) key in
        match (if JsString.truthy d then String.index 0 d rest else None) with
        | Some i =>
            Some (EntryPrefix
                    (prefix +:+ String.substring 0 (i + String.length d) rest))
        | None => Some (EntryObject key)
        end
    | None => Some (EntryObject key)
    end
  else None.

(** The whole listing, before it is cut into pages. *)
Definition listing (m : gmap string StoredObject) (prefix : string)
    (delimiter : option string) : list Entry :=
  remove_dups (omap (classify prefix delimiter) (sortedKeys m)).

Definition describe (m : gmap string StoredObject) (e : Entry)
  : option S3Object :=
  match e with
  | EntryObject key =>
      o ← m !! key;
      Some {| obj_Key := Some key;
              obj_Size := Some (Z.of_nat (length (so_body o)));
              obj_LastModified := Some (so_lastModified o);
              obj_ETag := Some (so_etag o) |}
  | EntryPrefix _ => None
  end.

Definition groupOf (e : Entry) : option CommonPrefix :=
  match e with
  | EntryObject _ => None
  | EntryPrefix p => Some {| cp_Prefix := Some p |}
  end.

(** An empty list is left out of the response. *)
Definition nonEmpty {A} (l : list A) : option (list A) :=
  match l with [] => None | _ => Some l end.

Definition listObjects (w : Bucket) (prefix : string)
    (delimiter : option string) : ListObjectsV2CommandOutput :=
  let all := listing (objects w) prefix delimiter in
  let page := take (maxKeys (config w)) all in
  {| list_Contents := nonEmpty (omap (describe (objects w)) page);
     list_CommonPrefixes := nonEmpty (omap groupOf page);
     list_IsTruncated := bool_decide (maxKeys (config w) < length all)%nat |}.

Definition putObject (w : Bucket) (key : string) (body : list Z)
    (contentType : ContentTypeValue) : PutObjectCommandOutput * Bucket :=
  let bytes := Utf8.encode body in
  let tag := etagOf (config w) bytes in
  ({| put_ETag := Some tag |},
   {| objects := <[key := {| so_body := bytes;
                             so_contentType := contentType;
                             so_lastModified := serverTime w;
                             so_etag := tag |}]> (objects w);
      faults := faults w;
      serverTime := serverTime w + 1;
      config := config w |}).

Definition withObjects (w : Bucket) (m : gmap string StoredObject) : Bucket :=
  {| objects := m; faults := faults w; serverTime := serverTime w;
     config := config w |}.

Definition respond {R} (command : Command R) (w : Bucket)
  : Outcome AwsError R * Bucket :=
  match command in Command R return Outcome AwsError R * Bucket with
  | GetObjectCommand _ key =>
      match objects w !! key with
      | Some o =>
          (Returned
             {| get_Body := Some (bodyStream (chunkSize (config w)) (so_body o));
                get_ContentLength := Some (Z.of_nat (length (so_body o)));
                get_LastModified := Some (so_lastModified o);
                get_ETag := Some (so_etag o) |}, w)
      | None => (Thrown noSuchKey, w)
      end
  | PutObjectCommand _ key body contentType =>
      let '(out, w') := putObject w key body contentType in (Returned out, w')
  | HeadObjectCommand _ key =>
      match objects w !! key with
      | Some o =>
          (Returned
             {| head_ContentLength := Some (Z.of_nat (length (so_body o)));
                head_LastModified := Some (so_lastModified o);
                head_ETag := Some (so_etag o) |}, w)
      | None => (Thrown notFound, w)
      end
  | DeleteObjectCommand _ key =>
      match objects w !! key with
      | None =>
          if strictDelete (config w) then (Thrown noSuchKey, w)
          else (Returned tt, w)
      | Some _ => (Returned tt, withObjects w (delete key (objects w)))
      end
  | ListObjectsV2Command _ prefix delimiter =>
      (Returned (listObjects w prefix delimiter), w)
  | DeleteObjectsCommand _ keys =>
      (Returned tt, withObjects w (foldr delete (objects w) keys))
  end.

Definition serve {R} (command : Command R) (w : Bucket)
  : Outcome AwsError R * Bucket :=
  match nextFault w with
  | (Some error, w') => (Thrown error, w')
  | (None, w') => respond command w'
  end.

(** The keys a flat listing of [prefix] reports on its first page. *)
Definition listedKeys (w : Bucket) (prefix : string) : list string :=
  omap (λ obj, truthyOpt (obj_Key obj))
    (omap (describe (objects w))
       (take (maxKeys (config w)) (listing (objects w) prefix None))).

(** The next [n] calls are not rejected. *)
Definition noFaults (n : nat) (w : Bucket) : Prop :=
  Forall (λ f, f = None) (take n (faults w)).

(** Rejections never pose as "not found": a 404 is only ever the answer
    to a request for a key that is absent. *)
Definition honest (w : Bucket) : Prop :=
  Forall (λ f, ∀ e, f = Some e → isNotFoundError e = false) (faults w).

Definition platform (clock : nat → Z) : Platform Bucket :=
  {| send := @serve; now := clock |}.
End MemStore.

(** Every cached key names an object of the bucket. *)
Definition coherent (st : State MemStore.Bucket) : Prop :=
  ∀ key, is_Some (cache st !! key) → is_Some (MemStore.objects (world st) !! key).

(** The only change an operation that probes one key makes: the bucket is
    left alone, and the key enters the cache only if the bucket has it. *)
Definition probe_effect (key : string) (st st1 : State MemStore.Bucket) : Prop :=
  MemStore.objects (world st1) = MemStore.objects (world st)
  ∧ (cache st1 = cache st
     ∨ ∃ e, cache st1 = <[key := e]> (cache st)
            ∧ is_Some (MemStore.objects (world st) !! key)).

(** The keys of the bucket that lie in the namespace of the instance. *)
Definition namespaceKeys (options : Options)
    (m : gmap string MemStore.StoredObject) : list string :=
  filter (λ key, inNamespace options key = true) (MemStore.sortedKeys m).

(** ** Sample data: a bucket, an instance and a few sessions *)
Module Sample.
Import MemStore.

Definition cfg : Config :=
  {| maxKeys := 1000; chunkSize := 3; strictDelete := true;
     etagOf := λ _, "etag" |}.

Definition emptyBucket : Bucket :=
  {| objects := ∅; faults := []; serverTime := 1000; config := cfg |}.

Definition serverError : AwsError :=
  {| err_name := Some "InternalError"; err_httpStatusCode := Some 500 |}.

Definition P : Platform Bucket := platform (λ n, 5000 + Z.of_nat n).

Definition opts : Options := {| opt_bucket := "bucket"; opt_prefix := "ns" |}.

(** The same instance without a namespace. *)
Definition bare : Options := {| opt_bucket := "bucket"; opt_prefix := "" |}.

(** "hi", "é€" and a smiley followed by "!"  *)
Definition hi : list Z := [104; 105].
Definition accents : list Z := [233; 8364].
Definition smiley : list Z := [0xD83D; 0xDE00; 33].

(** One file written. *)
Definition oneFile : State Bucket :=
  session P opts [OpWriteFile "a.txt" hi] (fresh emptyBucket).

(** One file written, and the next call to the store will be rejected. *)
Definition oneFileThenOutage : State Bucket :=
  let st := oneFile in
  {| cache := cache st; sent := sent st; ticks := ticks st;
     world := {| objects := objects (world st);
                 faults := [Some serverError];
                 serverTime := serverTime (world st);
                 config := cfg |} |}.

(** The directory of the listing example. *)
Definition tree : State Bucket :=
  session P opts
    [OpWriteFile "d/a.txt" hi; OpWriteFile "d/b.json" accents;
     OpWriteFile "d/sub/c.md" smiley]
    (fresh emptyBucket).

(** Two files under [d], at different depths, then the directory deleted. *)
Definition twoFiles : State Bucket :=
  session P opts [OpWriteFile "d/x.txt" hi; OpWriteFile "d/y/z.txt" smiley]
    (fresh emptyBucket).

Definition afterDeleteDir : State Bucket :=
  session P opts [OpDeleteDir "d"] twoFiles.

(** A bucket whose directory [d] already holds a thousand objects,
    [d/000] to [d/999], which is the number of keys a listing returns at
    most ([cfg]); then the two files written into it. *)
Definition digits : list ascii :=
  ["0"; "1"; "2"; "3"; "4"; "5"; "6"; "7"; "8"; "9"]%char.

Definition numbered : list string :=
  c1 ← digits; c2 ← digits; c3 ← digits;
  [String c1 (String c2 (String c3 EmptyString))].

Definition filler : StoredObject :=
  {| so_body := [120]; so_contentType := TypeString "text/plain";
     so_lastModified := 1; so_etag := "etag" |}.

Definition crowdedBucket : Bucket :=
  {| objects := foldr (λ n m, <["ns/d/" +:+ n := filler]> m) ∅ numbered;
     faults := []; serverTime := 1000; config := cfg |}.

Definition crowded : State Bucket :=
  session P opts [OpWriteFile "d/x.txt" hi; OpWriteFile "d/y/z.txt" smiley]
    (fresh crowdedBucket).

(** The same objects, seen by an instance that has not touched them. *)
Definition treeUnseen : State Bucket := fresh (world tree).

(** An object whose body was never announced: a [get] answered without
    [Body]. *)
Definition bodiless : Platform unit :=
  {| send := λ R (c : Command R) (w : unit),
       match c in Command R return Outcome AwsError R * unit with
       | GetObjectCommand _ _ =>
           (Returned {| get_Body := None; get_ContentLength := Some 0;
                        get_LastModified := Some 7; get_ETag := None |}, w)
       | _ => (Thrown serverError, w)
       end;
     now := λ _, 0 |}.
(** A client that lists [d/] with the objects in descending order. *)
Definition descending : Platform unit :=
  {| send := λ R (c : Command R) (w : unit),
       match c in Command R return Outcome AwsError R * unit with
       | ListObjectsV2Command _ _ _ =>
           (Returned
              {| list_Contents :=
                   Some [ {| obj_Key := Some "d/b.json"; obj_Size := Some 5;
                             obj_LastModified := Some 8; obj_ETag := None |};
                          {| obj_Key := Some "d/a.txt"; obj_Size := None;
                             obj_LastModified := None; obj_ETag := None |} ];
                 list_CommonPrefixes := Some [ {| cp_Prefix := Some "d/sub/" |} ];
                 list_IsTruncated := false |}, w)
       | _ => (Thrown serverError, w)
       end;
     now := λ _, 0 |}.
End Sample.

(** ** Further definitions: single-file operations, more sample data *)

(** The key a single-file operation addresses. *)
Definition fileKey (options : Options) (op : Operation) : option string :=
  match op with
  | OpReadFile p | OpWriteFile p _ | OpExists p | OpDeleteFile p | OpStat p =>
      Some (getR2Key options p)
  | _ => None
  end.

(** What an outcome returns, if it returns. *)
Definition returned {E A} (r : Outcome E A) : option A :=
  match r with
  | Returned a => Some a
  | Thrown _ => None
  end.

Module Outage.

(** A client none of whose calls gets through: each one throws [error]. *)
Definition unreachable (error : AwsError) : Platform unit :=
  {| send := λ R (_ : Command R) (w : unit), (Thrown error, w);
     now := λ n, Z.of_nat n |}.

Definition timeout : AwsError :=
  {| err_name := Some "TimeoutError"; err_httpStatusCode := None |}.

Definition noSuchBucket : AwsError :=
  {| err_name := Some "NoSuchBucket"; err_httpStatusCode := Some 404 |}.

(** A client whose [get] is answered, with a body that breaks after its
    first chunk. *)
Definition brokenStream : Platform unit :=
  {| send := λ R (c : Command R) (w : unit),
       match c in Command R return Outcome AwsError R * unit with
       | GetObjectCommand _ _ =>
           (Returned {| get_Body := Some (StreamChunk [104; 105]
                                            (StreamFail timeout));
                        get_ContentLength := Some 9;
                        get_LastModified := Some 7;
                        get_ETag := None |}, w)
       | _ => (Thrown timeout, w)
       end;
     now := λ n, Z.of_nat n |}.

End Outage.

(** Two runs that end in the same state and return the same value, if they
    return: they may differ only in the error they throw. *)
Definition agree {W E A} (x y : Outcome E A * State W) : Prop :=
  x.2 = y.2 ∧ returned x.1 = returned y.1.

(** The shape of a name in a directory listing: not empty, and free of
    slashes unless it ends with one (the mark of a subdirectory). *)
Definition entryName (name : string) : bool :=
  JsString.truthy name
  && (negb (JsString.includesSlash name) || JsString.endsWithSlash name).

(** The most commands one call of an operation may send. *)
Definition callBudget (op : Operation) : nat :=
  match op with
  | OpDeleteDir _ => 2
  | OpEnsureDir _ | OpChmod _ _ => 0
  | _ => 1
  end.

(** The bucket a logged command names. *)
Definition commandBucket (c : { R : Type & Command R }) : string :=
  match projT2 c with
  | GetObjectCommand b _ | PutObjectCommand b _ _ _ | HeadObjectCommand b _
  | DeleteObjectCommand b _ | ListObjectsV2Command b _ _
  | DeleteObjectsCommand b _ => b
  end.

(** The commands a run adds to the log. *)
Definition sends {W} (cmds : list { R : Type & Command R }) (st st1 : State W)
  : Prop :=
  sent st1 = sent st ++ cmds.

(** ** Further invariants against the reference store *)

(** Every cached key lies in the namespace of the instance and names an
    object of the bucket whose byte length is the cached size. *)
Definition accurate (options : Options) (st : State MemStore.Bucket) : Prop :=
  ∀ key entry,
    cache st !! key = Some entry →
    inNamespace options key = true
    ∧ ∃ o, MemStore.objects (world st) !! key = Some o
           ∧ ce_size entry = Z.of_nat (length (MemStore.so_body o)).

(** The change an operation that probes one key makes, with the entry it
    may cache. *)
Definition probe_exact (key : string) (st st1 : State MemStore.Bucket) : Prop :=
  MemStore.objects (world st1) = MemStore.objects (world st)
  ∧ (cache st1 = cache st
     ∨ ∃ entry o,
         cache st1 = <[key := entry]> (cache st)
         ∧ MemStore.objects (world st) !! key = Some o
         ∧ ce_size entry = Z.of_nat (length (MemStore.so_body o))).

(** The operations that only read. *)
Definition readOnly (op : Operation) : bool :=
  match op with
  | OpWriteFile _ _ | OpDeleteFile _ | OpDeleteDir _ => false
  | _ => true
  end.

(** The operations that look into the cache before they go to the store. *)
Definition consultsCache (op : Operation) : bool :=
  match op with
  | OpExists _ | OpStat _ => true
  | _ => false
  end.

(** A computation whose outcome, and whose effect on the store, do not
    depend on the cache (nor on the log or the clock). *)
Definition cacheBlind {W E A} (m : Fs W E A) : Prop :=
  ∀ st st' : State W,
    world st = world st' →
    (m st).1 = (m st').1 ∧ world (m st).2 = world (m st').2.

(** ** Construction

    The options as the caller passes them, the options the instance keeps
    ([this.options]) and the configuration the constructor hands to
    [new S3Client]. *)
Module JsSearch.

(** [s.includes(p)] *)
Fixpoint includes (s p : string) : bool :=
  String.prefix p s
  || match s with
     | EmptyString => false
     | String _ s' => includes s' p
     end.

(** [s.replace(p, r)] for a string pattern [p] and a replacement without
    [$]: the first occurrence of [p] is replaced. *)
Fixpoint replace (s p r : string) : string :=
  if String.prefix p s then r +:+ JsString.slice (String.length p) s
  else match s with
       | EmptyString => EmptyString
       | String c s' => String c (replace s' p r)
       end.

(** [s.endsWith(p)] *)
Fixpoint endsWith (s p : string) : bool :=
  String.eqb s p
  || match s with
     | EmptyString => false
     | String _ s' => endsWith s' p
     end.

(** [s.slice(0, -n)] for [0 < n]: [s] without its last [n] characters. *)
Definition sliceEnd (s : string) (n : nat) : string :=
  String.substring 0 (String.length s - n) s.

(** No dot in [s]. *)
Fixpoint dotFree (s : string) : bool :=
  match s with
  | EmptyString => true
  | String c s' => negb (Ascii.eqb c ".") && dotFree s'
  end.

End JsSearch.

Record CloudflareR2Options := {
  r2_accountId : string;
  r2_accessKeyId : string;
  r2_secretAccessKey : string;
  r2_bucket : string;
  r2_region : option string;
  r2_prefix : option string;
  r2_endpoint : option string;
}.

(** [this.options]: region and prefix filled in, the endpoint as given. *)
Record ResolvedOptions := {
  ro_accountId : string;
  ro_accessKeyId : string;
  ro_secretAccessKey : string;
  ro_bucket : string;
  ro_region : string;
  ro_prefix : string;
  ro_endpoint : option string;
}.

(** The argument of [new S3Client]. *)
Record S3ClientConfig := {
  s3_region : string;
  s3_endpoint : string;
  s3_accessKeyId : string;
  s3_secretAccessKey : string;
  s3_forcePathStyle : bool;
  s3_maxAttempts : nat;
  s3_requestTimeout : Z;
}.

(** An instance, before its first operation: the cache is empty
    ([fresh]). *)
Record Instance := {
  this_options : ResolvedOptions;
  this_s3Client : S3ClientConfig;
}.

Record BucketInfo := {
  bi_bucket : string;
  bi_prefix : string;
  bi_region : string;
  bi_accountId : string;
  bi_endpoint : option string;
}.

(** [x || d] on an optional string. *)
Definition orElse (x : option string) (d : string) : string :=
  match truthyOpt x with
  | Some s => s
  | None => d
  end.

Definition resolve (options : CloudflareR2Options) : ResolvedOptions :=
  {| ro_accountId := r2_accountId options;
     ro_accessKeyId := r2_accessKeyId options;
     ro_secretAccessKey := r2_secretAccessKey options;
     ro_bucket := r2_bucket options;
     ro_region := orElse (r2_region options) "auto";
     ro_prefix := orElse (r2_prefix options) "";
     ro_endpoint := r2_endpoint options |}.

(** The endpoint given, or else the one generated from the account. *)
Definition baseEndpoint (o : ResolvedOptions) : string :=
  orElse (ro_endpoint o)
    ("https://" +:+ ro_accountId o +:+ ".r2.cloudflarestorage.com").

(** The endpoint the client is configured with: the bucket is taken out
    as a host label and as the last path segment, then one trailing slash
    is dropped. *)
Definition clientEndpoint (o : ResolvedOptions) : string :=
  let endpoint := baseEndpoint o in
  let endpoint :=
    if JsSearch.includes endpoint (ro_bucket o +:+ ".")
    then JsSearch.replace endpoint (ro_bucket o +:+ ".") ""
    else endpoint in
  let endpoint :=
    if JsSearch.endsWith endpoint ("/" +:+ ro_bucket o)
    then JsSearch.sliceEnd endpoint (String.length ("/" +:+ ro_bucket o))
    else endpoint in
  JsString.stripTrailingSlash endpoint.

(** [new CloudflareR2FileSystem(options)]; a thrown [Error] is its
    message. *)
Definition constructor (options : CloudflareR2Options)
  : Outcome string Instance :=
  let o := resolve options in
  if negb (JsString.truthy (ro_accountId o)) then
    Thrown "[CloudflareR2FileSystem] accountId is required"
  else if negb (JsString.truthy (ro_accessKeyId o)) then
    Thrown "[CloudflareR2FileSystem] accessKeyId is required"
  else if negb (JsString.truthy (ro_secretAccessKey o)) then
    Thrown "[CloudflareR2FileSystem] secretAccessKey is required"
  else if negb (JsString.truthy (ro_bucket o)) then
    Thrown "[CloudflareR2FileSystem] bucket is required"
  else
    Returned
      {| this_options := o;
         this_s3Client :=
           {| s3_region := ro_region o;
              s3_endpoint := clientEndpoint o;
              s3_accessKeyId := ro_accessKeyId o;
              s3_secretAccessKey := ro_secretAccessKey o;
              s3_forcePathStyle := true;
              s3_maxAttempts := 3;
              s3_requestTimeout := 30000 |} |}.

Definition getBucketInfo (this : Instance) : BucketInfo :=
  {| bi_bucket := ro_bucket (this_options this);
     bi_prefix := ro_prefix (this_options this);
     bi_region := ro_region (this_options this);
     bi_accountId := ro_accountId (this_options this);
     bi_endpoint := ro_endpoint (this_options this) |}.

Definition createCloudflareR2FileSystem (options : CloudflareR2Options)
  : Outcome string Instance :=
  constructor options.

(** The fields of [this.options] that the operations read. *)
Definition optionsOf (this : Instance) : Options :=
  {| opt_bucket := ro_bucket (this_options this);
     opt_prefix := ro_prefix (this_options this) |}.

(** Sample configurations. *)
Module SampleConfig.

Definition minimal : CloudflareR2Options :=
  {| r2_accountId := "ddf6ea2e";
     r2_accessKeyId := "key";
     r2_secretAccessKey := "secret";
     r2_bucket := "storage";
     r2_region := None;
     r2_prefix := None;
     r2_endpoint := None |}.

(** The bucket as a host label of the endpoint. *)
Definition virtualHost : CloudflareR2Options :=
  {| r2_accountId := "ddf6ea2e";
     r2_accessKeyId := "key";
     r2_secretAccessKey := "secret";
     r2_bucket := "my-bucket";
     r2_region := Some "";
     r2_prefix := Some "ns";
     r2_endpoint := Some "https://my-bucket.ddf6ea2e.r2.cloudflarestorage.com" |}.

(** The bucket as the last path segment of the endpoint, and the same
    followed by a slash. *)
Definition pathStyle : CloudflareR2Options :=
  {| r2_accountId := "ddf6ea2e";
     r2_accessKeyId := "key";
     r2_secretAccessKey := "secret";
     r2_bucket := "my-bucket";
     r2_region := Some "weur";
     r2_prefix := Some "";
     r2_endpoint := Some "https://ddf6ea2e.r2.cloudflarestorage.com/my-bucket" |}.

Definition pathStyleSlash : CloudflareR2Options :=
  {| r2_accountId := "ddf6ea2e";
     r2_accessKeyId := "key";
     r2_secretAccessKey := "secret";
     r2_bucket := "my-bucket";
     r2_region := Some "weur";
     r2_prefix := Some "";
     r2_endpoint := Some "https://ddf6ea2e.r2.cloudflarestorage.com/my-bucket/" |}.

Definition noBucket : CloudflareR2Options :=
  {| r2_accountId := "ddf6ea2e";
     r2_accessKeyId := "";
     r2_secretAccessKey := "secret";
     r2_bucket := "";
     r2_region := None;
     r2_prefix := None;
     r2_endpoint := None |}.

End SampleConfig.

(** * Verification *)

(** ** String lemmas *)
Section StringFacts.

Lemma append_nil_l (b : string) : "" +:+ b = b.
Proof. reflexivity. Qed.

Lemma append_cons (c : ascii) (a b : string) :
  String c a +:+ b = String c (a +:+ b).
Proof. reflexivity. Qed.

Lemma prefix_nil (b : string) : String.prefix "" b = true.
Proof. by destruct b. Qed.

Lemma prefix_cons (c d : ascii) (a b : string) :
  String.prefix (String c a) (String d b)
  = (Ascii.eqb c d && String.prefix a b)%bool.
Proof.
  cbn [String.prefix]. destruct (ascii_dec c d) as [->|Hne].
  - by rewrite Ascii.eqb_refl.
  - by apply Ascii.eqb_neq in Hne as ->.
Qed.

Lemma prefix_append (a b : string) : String.prefix a (a +:+ b) = true.
Proof.
  induction a as [|c a IH].
  - apply prefix_nil.
  - by rewrite append_cons, prefix_cons, Ascii.eqb_refl.
Qed.

Lemma slice_append (a b : string) :
  JsString.slice (String.length a) (a +:+ b) = b.
Proof. induction a as [|c a IH]; [by destruct b | exact IH]. Qed.

Lemma length_append (a b : string) :
  String.length (a +:+ b) = (String.length a + String.length b)%nat.
Proof.
  induction a as [|c a IH]; [done |].
  rewrite append_cons. cbn [String.length]. by rewrite IH.
Qed.

Lemma append_assoc (a b c : string) : (a +:+ b) +:+ c = a +:+ (b +:+ c).
Proof.
  induction a as [|x a IH]; [done |].
  by rewrite !append_cons, IH.
Qed.

Lemma append_nil_r (a : string) : a +:+ "" = a.
Proof.
  induction a as [|c a IH]; [done |]. by rewrite append_cons, IH.
Qed.

Lemma append_inj (a b c : string) : a +:+ b = a +:+ c → b = c.
Proof.
  induction a as [|x a IH]; [done |].
  rewrite !append_cons. intros [= H]. by apply IH.
Qed.

Lemma append_ne_self (a b : string) :
  JsString.truthy b = true → String.eqb (a +:+ b) a = false.
Proof.
  intros Hb. apply String.eqb_neq. intros H.
  rewrite <- (append_nil_r a) in H at 2. apply append_inj in H.
  by subst b.
Qed.

Lemma prefix_append_l (a b c : string) :
  String.prefix (a +:+ b) c = true → String.prefix a c = true.
Proof.
  revert c. induction a as [|x a IH]; intros c; [by rewrite prefix_nil |].
  rewrite append_cons. destruct c as [|y c]; [done |].
  rewrite !prefix_cons. intros [-> H]%andb_true_iff.
  by rewrite (IH _ H).
Qed.

Lemma truthy_append (a b : string) :
  JsString.truthy a = true → JsString.truthy (a +:+ b) = true.
Proof. by destruct a. Qed.

End StringFacts.

Section KeyCodecFacts.
Variable options : Options.

Lemma getR2Key_relative (p : string) :
  JsString.startsWith p "/" = false →
  getR2Key options p =
    if JsString.truthy (opt_prefix options)
    then opt_prefix options +:+ "/" +:+ p else p.
Proof. intros H. unfold getR2Key. by rewrite H. Qed.

Lemma getLocalPath_namespaced (q : string) :
  JsString.truthy (opt_prefix options) = true →
  getLocalPath options (opt_prefix options +:+ "/" +:+ q) = q.
Proof.
  intros Ht. unfold getLocalPath, JsString.startsWith.
  rewrite <- (append_assoc (opt_prefix options) "/" q).
  rewrite Ht, prefix_append. cbn [andb].
  replace (String.length (opt_prefix options) + 1)%nat
    with (String.length (opt_prefix options +:+ "/"))
    by (rewrite length_append; reflexivity).
  apply slice_append.
Qed.

(** Encoding commutes with extending a relative, non-empty path. *)
Lemma getR2Key_append (a b : string) :
  JsString.startsWith a "/" = false → JsString.truthy a = true →
  getR2Key options (a +:+ b) = getR2Key options a +:+ b.
Proof.
  intros Hrel Ht.
  assert (Hab : JsString.startsWith (a +:+ b) "/" = false).
  { destruct a as [|c a]; [done |]. rewrite append_cons.
    unfold JsString.startsWith in *. rewrite prefix_cons in *.
    by rewrite prefix_nil in *. }
  rewrite !getR2Key_relative by done.
  destruct (JsString.truthy (opt_prefix options)); [| done].
  by rewrite !append_assoc.
Qed.

Lemma getR2Key_truthy (a : string) :
  JsString.startsWith a "/" = false → JsString.truthy a = true →
  JsString.truthy (getR2Key options a) = true.
Proof.
  intros Hrel Ht. rewrite getR2Key_relative by done.
  destruct (JsString.truthy (opt_prefix options)) eqn:E; [| done].
  by apply truthy_append.
Qed.

Lemma decode_encode (p : string) :
  JsString.startsWith p "/" = false →
  getLocalPath options (getR2Key options p) = p.
Proof.
  intros H. rewrite getR2Key_relative by done.
  destruct (JsString.truthy (opt_prefix options)) eqn:Ht.
  - by apply getLocalPath_namespaced.
  - unfold getLocalPath. by rewrite Ht.
Qed.
End KeyCodecFacts.

(** ** UTF-8: decoding the encoding of a well-formed string *)
Section Utf8Facts.
Import Utf8.

Ltac bool_arith :=
  repeat match goal with
    | H : (_ && _)%bool = true |- _ => apply andb_true_iff in H; destruct H
    | H : (_ && _)%bool = false |- _ => apply andb_false_iff in H; destruct H
    | H : (_ <? _) = true |- _ => apply Z.ltb_lt in H
    | H : (_ <? _) = false |- _ => apply Z.ltb_ge in H
    | H : (_ <=? _) = true |- _ => apply Z.leb_le in H
    | H : (_ <=? _) = false |- _ => apply Z.leb_gt in H
    | H : (_ =? _) = true |- _ => apply Z.eqb_eq in H
    | H : (_ =? _) = false |- _ => apply Z.eqb_neq in H
    end.

Lemma div_mod_64 (x : Z) : x = 64 * (x / 64) + x mod 64 ∧ 0 <= x mod 64 < 64.
Proof.
  split; [apply Z.div_mod; lia | apply Z.mod_pos_bound; lia].
Qed.

Lemma div_4096 (x : Z) : x / 4096 = x / 64 / 64.
Proof. rewrite Z.div_div by lia. reflexivity. Qed.

Lemma div_262144 (x : Z) : x / 262144 = x / 64 / 64 / 64.
Proof. rewrite !Z.div_div by lia. reflexivity. Qed.

(** Settle a test of [decode] by linear arithmetic. *)
Ltac solve_test :=
  unfold second3, second4, isCont;
  repeat match goal with
    | |- context [?x =? ?y] => destruct (Z.eqb_spec x y); cbv beta match
    end;
  rewrite ?andb_true_iff, ?andb_false_iff, ?Z.leb_le, ?Z.leb_gt, ?Z.ltb_lt,
    ?Z.ltb_ge;
  lia.

(** One step of [decode] on a sequence of each length. *)
Lemma decode_step1 (b0 : Z) (r : list Z) :
  (b0 <? 0x80) = true → decode (b0 :: r) = b0 :: decode r.
Proof. intros H. cbn [decode]. by rewrite H. Qed.

Lemma decode_step2 (b0 b1 : Z) (r : list Z) :
  (b0 <? 0x80) = false → (0xC2 <=? b0) && (b0 <=? 0xDF) = true →
  isCont b1 = true →
  decode (b0 :: b1 :: r) = ((b0 - 0xC0) * 64 + (b1 - 0x80)) :: decode r.
Proof.
  intros H0 H1 H2. set (r0 := b1 :: r). cbn [decode]. rewrite H0, H1.
  subst r0. cbv beta match. by rewrite H2.
Qed.

Lemma decode_step3 (b0 b1 b2 : Z) (r : list Z) :
  (b0 <? 0x80) = false → (0xC2 <=? b0) && (b0 <=? 0xDF) = false →
  (0xE0 <=? b0) && (b0 <=? 0xEF) = true →
  second3 b0 b1 = true → isCont b2 = true →
  decode (b0 :: b1 :: b2 :: r)
  = ((b0 - 0xE0) * 4096 + (b1 - 0x80) * 64 + (b2 - 0x80)) :: decode r.
Proof.
  intros H0 H1 H2 H3 H4. set (r1 := b2 :: r). set (r0 := b1 :: r1).
  cbn [decode]. rewrite H0, H1, H2.
  subst r0. cbv beta match. rewrite H3.
  subst r1. cbv beta match. by rewrite H4.
Qed.

Lemma decode_step4 (b0 b1 b2 b3 : Z) (r : list Z) :
  (b0 <? 0x80) = false → (0xC2 <=? b0) && (b0 <=? 0xDF) = false →
  (0xE0 <=? b0) && (b0 <=? 0xEF) = false →
  (0xF0 <=? b0) && (b0 <=? 0xF4) = true →
  second4 b0 b1 = true → isCont b2 = true → isCont b3 = true →
  decode (b0 :: b1 :: b2 :: b3 :: r)
  = surrogates ((b0 - 0xF0) * 262144 + (b1 - 0x80) * 4096
                + (b2 - 0x80) * 64 + (b3 - 0x80))
    ++ decode r.
Proof.
  intros H0 H1 H2 H3 H4 H5 H6.
  set (r2 := b3 :: r). set (r1 := b2 :: r2). set (r0 := b1 :: r1).
  cbn [decode]. rewrite H0, H1, H2, H3.
  subst r0. cbv beta match. rewrite H4.
  subst r1. cbv beta match. rewrite H5.
  subst r2. cbv beta match. by rewrite H6.
Qed.

Lemma decode_encodeBmp (u : Z) (rest : list Z) :
  0 <= u < 0x10000 → isHigh u = false → isLow u = false →
  decode (encodeBmp u ++ rest) = u :: decode rest.
Proof.
  intros Hu Hh Hl. unfold encodeBmp.
  assert (Hns : u < 0xD800 ∨ 0xDFFF < u).
  { unfold isHigh, isLow in *. bool_arith; lia. }
  clear Hh Hl.
  destruct (u <? 0x80) eqn:H1; [| destruct (u <? 0x800) eqn:H2]; bool_arith.
  - cbn [app]. apply decode_step1. solve_test.
  - destruct (div_mod_64 u) as [Eu Hr].
    revert Eu Hr. generalize (u / 64) (u mod 64). intros q r Eu Hr.
    cbn [app]. rewrite decode_step2 by solve_test. f_equal; lia.
  - destruct (div_mod_64 u) as [Eu Hr]. destruct (div_mod_64 (u / 64)) as [Eq Hq].
    rewrite div_4096.
    revert Eu Hr Eq Hq.
    generalize (u / 64 / 64) ((u / 64) mod 64) (u mod 64). intros a b c.
    generalize (u / 64). intros q Eu Hr Eq Hq.
    cbn [app]. rewrite decode_step3 by solve_test. f_equal; lia.
Qed.

Lemma decode_encodePair (hi lo : Z) (rest : list Z) :
  isHigh hi = true → isLow lo = true →
  decode (encodePair hi lo ++ rest) = hi :: lo :: decode rest.
Proof.
  intros Hh Hl. unfold encodePair, isHigh, isLow in *. bool_arith.
  set (cp := 0x10000 + (hi - 0xD800) * 1024 + (lo - 0xDC00)).
  assert (Hcp : 0x10000 <= cp < 0x110000) by (unfold cp; lia).
  assert (Ehi : (cp - 0x10000) / 1024 = hi - 0xD800).
  { symmetry. apply (Z.div_unique _ _ _ (lo - 0xDC00)); unfold cp; lia. }
  assert (Elo : (cp - 0x10000) mod 1024 = lo - 0xDC00).
  { symmetry. apply (Z.mod_unique _ _ (hi - 0xD800)); unfold cp; lia. }
  destruct (div_mod_64 cp) as [E1 B1]. destruct (div_mod_64 (cp / 64)) as [E2 B2].
  destruct (div_mod_64 (cp / 64 / 64)) as [E3 B3].
  rewrite div_262144, div_4096.
  assert (Hdec : (cp / 64 / 64 / 64) * 262144 + ((cp / 64 / 64) mod 64) * 4096
                 + ((cp / 64) mod 64) * 64 + cp mod 64 = cp) by lia.
  revert E1 B1 E2 B2 E3 B3 Hdec.
  generalize (cp / 64 / 64 / 64) ((cp / 64 / 64) mod 64) ((cp / 64) mod 64) (cp mod 64).
  intros a b c d. generalize (cp / 64 / 64) (cp / 64). intros q2 q1 E1 B1 E2 B2 E3 B3 Hdec.
  assert (Ha : 0 <= a <= 4) by lia.
  assert (Hb : (a = 0 → 16 <= b) ∧ (a = 4 → b <= 15)) by lia.
  cbn [app]. rewrite decode_step4 by (clear - Ha Hb B1 B2 B3; solve_test).
  unfold surrogates.
  replace ((240 + a - 240) * 262144 + (128 + b - 128) * 4096
           + (128 + c - 128) * 64 + (128 + d - 128)) with cp by lia.
  rewrite Ehi, Elo. cbn [app]. f_equal; [lia |]. f_equal. lia.
Qed.

Lemma decode_encode_bounded (n : nat) (s : list Z) :
  (length s ≤ n)%nat → wellFormed s = true → decode (encode s) = s.
Proof.
  revert s. induction n as [|n IH]; intros s Hn Hwf.
  - destruct s; [done | simpl in Hn; lia].
  - destruct s as [|u r]; [done |].
    cbn [encode wellFormed] in *.
    destruct (isHigh u) eqn:Hh.
    + destruct r as [|l r']; [done |].
      apply andb_true_iff in Hwf as [Hl Hwf]. rewrite Hl.
      rewrite decode_encodePair by done.
      rewrite IH; [done | simpl in Hn; lia | done].
    + destruct (isLow u) eqn:Hl; [done |].
      apply andb_true_iff in Hwf as [Hu Hwf].
      apply andb_true_iff in Hu as [Hu0 Hu1].
      apply Z.leb_le in Hu0. apply Z.ltb_lt in Hu1.
      rewrite decode_encodeBmp by (done || lia).
      rewrite IH; [done | simpl in Hn; lia | done].
Qed.

Lemma utf8_roundtrip (s : list Z) :
  wellFormed s = true → decode (encode s) = s.
Proof. by apply (decode_encode_bounded (length s)). Qed.

End Utf8Facts.

(** ** Control flow: where an operation can throw, and what it leaves behind *)
Section FacadeFacts.
Context {W : Type}.
Variable platform : Platform W.
Variable options : Options.

Lemma total_ret {E A} (a : A) : total (W := W) (E := E) (ret a).
Proof. intros st. by exists a, st. Qed.

Lemma total_bind {E A B} (m : Fs W E A) (k : A → Fs W E B) :
  total m → (∀ a, total (k a)) → total (bind m k).
Proof.
  intros Hm Hk st. destruct (Hm st) as (a & st1 & E1).
  destruct (Hk a st1) as (b & st2 & E2).
  exists b, st2. unfold bind. by rewrite E1.
Qed.

Lemma total_cache_set {E} key entry : total (W := W) (E := E) (cache_set key entry).
Proof. intros st. by eexists _, _. Qed.

Lemma total_cache_delete {E} key : total (W := W) (E := E) (cache_delete key).
Proof. intros st. by eexists _, _. Qed.

Lemma total_for_of {E A B} (l : list A) (body : A → B → Fs W E B) :
  (∀ x acc, total (body x acc)) → ∀ acc, total (for_of l body acc).
Proof.
  intros Hbody. induction l as [|x l IH]; intros acc; cbn [for_of].
  - apply total_ret.
  - apply total_bind; [apply Hbody | intros a; apply IH].
Qed.

Lemma total_readDir_object normalizedPath prefix object entries :
  total (W := W)
    (readDir_object options normalizedPath prefix object entries).
Proof.
  unfold readDir_object.
  repeat (case_match; try apply total_ret);
    apply total_bind; (apply total_cache_set || intros; apply total_ret).
Qed.

Lemma total_readDir_prefix normalizedPath commonPrefix entries :
  total (W := W) (E := AwsError)
    (readDir_prefix (W := W) options normalizedPath commonPrefix entries).
Proof. unfold readDir_prefix. repeat case_match; apply total_ret. Qed.

(** Sending a command touches the log and the store, never the cache. *)
Lemma s3Client_send_cache {R} (command : Command R) st r st' :
  s3Client_send platform command st = (r, st') → cache st' = cache st.
Proof.
  unfold s3Client_send. destruct (send platform command (world st)).
  by intros [= _ <-].
Qed.

Lemma s3Client_send_sent {R} (command : Command R) st r st' :
  s3Client_send platform command st = (r, st') →
  sent st' = sent st ++ [existT R command].
Proof.
  unfold s3Client_send. destruct (send platform command (world st)).
  by intros [= _ <-].
Qed.

Lemma s3Client_send_world {R} (command : Command R) st r st' :
  s3Client_send platform command st = (r, st') →
  send platform command (world st) = (r, world st').
Proof.
  unfold s3Client_send. destruct (send platform command (world st)).
  by intros [= <- <-].
Qed.

Lemma streamToString_state body st r st' :
  streamToString (W := W) body st = (r, st') → st' = st.
Proof.
  unfold streamToString. destruct body as [s|]; [| by intros [= _ <-]].
  destruct (readChunks s []); by intros [= _ <-].
Qed.

(** Unfold one layer of the monad in a hypothesis [H : m st = (r, st')]. *)
Ltac step_send H :=
  match type of H with
  | context [s3Client_send platform ?c ?st] =>
      let r := fresh "r" in
      let st1 := fresh "st" in
      let Hs := fresh "Hs" in
      destruct (s3Client_send platform c st) as [r st1] eqn:Hs;
      pose proof (s3Client_send_cache _ _ _ _ Hs);
      destruct r; cbn beta iota in H
  end.

Lemma readFile_thrown path st e st' :
  readFile platform options path st = (Thrown e, st') → cache st' = cache st.
Proof.
  unfold readFile, try_catch, bind, cache_get, ret, throw. intros H.
  step_send H.
  - destruct (streamToString _ _) as [c st2] eqn:Hb.
    apply streamToString_state in Hb as ->.
    destruct c; [by repeat case_match |].
    repeat case_match; simplify_eq; congruence.
  - repeat case_match; simplify_eq; congruence.
Qed.

Lemma writeFile_thrown path content st e st' :
  writeFile platform options path content st = (Thrown e, st') →
  cache st' = cache st.
Proof.
  unfold writeFile, try_catch, bind, cache_set, newDate, ret, throw. intros H.
  step_send H; simplify_eq. congruence.
Qed.

Lemma exists_thrown path st e st' :
  exists_ platform options path st = (Thrown e, st') → cache st' = cache st.
Proof.
  unfold exists_, try_catch, bind, cache_has, cache_set, ret, throw. intros H.
  case_bool_decide; [done |].
  step_send H.
  - by repeat case_match.
  - repeat case_match; simplify_eq; congruence.
Qed.

Lemma deleteFile_thrown path st e st' :
  deleteFile platform options path st = (Thrown e, st') → cache st' = cache st.
Proof.
  unfold deleteFile, try_catch, bind, cache_delete, ret, throw. intros H.
  step_send H; [done |].
  repeat case_match; simplify_eq; congruence.
Qed.

(** A "not found" from the store is swallowed: [deleteFile] returns, and the
    cache is as it was. *)
Lemma deleteFile_notFound path st error w' :
  send platform (DeleteObjectCommand (opt_bucket options) (getR2Key options path))
    (world st) = (Thrown error, w') →
  isNotFoundError error = true →
  ∃ st', deleteFile platform options path st = (Returned tt, st')
         ∧ cache st' = cache st.
Proof.
  intros Hsend Hnf.
  unfold deleteFile, try_catch, bind, s3Client_send, ret.
  rewrite Hsend, Hnf. by eexists.
Qed.

Lemma stat_thrown path st e st' :
  stat platform options path st = (Thrown e, st') → cache st' = cache st.
Proof.
  unfold stat, try_catch, bind, cache_get, cache_set, newDate, ret, throw.
  intros H. destruct (cache st !! _); [done |].
  step_send H.
  - by repeat case_match.
  - repeat case_match; simplify_eq; congruence.
Qed.

Lemma bind_thrown {E A B} (m : Fs W E A) (k : A → Fs W E B) st e st' :
  bind m k st = (Thrown e, st') →
  m st = (Thrown e, st')
  ∨ ∃ a st1, m st = (Returned a, st1) ∧ k a st1 = (Thrown e, st').
Proof.
  unfold bind. destruct (m st) as [[a|e0] st1]; intros H.
  - right. by exists a, st1.
  - left. by simplify_eq.
Qed.

Lemma bind_inv {E A B} (m : Fs W E A) (k : A → Fs W E B) st r st' :
  bind m k st = (r, st') →
  ∃ r0 st0, m st = (r0, st0)
            ∧ match r0 with
              | Returned a => k a st0 = (r, st')
              | Thrown e => r = Thrown e ∧ st' = st0
              end.
Proof.
  unfold bind. destruct (m st) as [[a|e] st0]; intros H; eexists _, _;
    (split; [done |]); [done | by simplify_eq].
Qed.

Lemma try_catch_rethrow {E E' A} (body : Fs W E A) (wrap : E → E') st e st' :
  try_catch body (λ error, throw (wrap error)) st = (Thrown e, st') →
  ∃ e0, body st = (Thrown e0, st').
Proof.
  unfold try_catch, throw. destruct (body st) as [[a|e0] st1]; intros H.
  - done.
  - exists e0. by simplify_eq.
Qed.

Lemma total_not_thrown {E A} (m : Fs W E A) st e st' :
  total m → m st ≠ (Thrown e, st').
Proof. intros Hm H. destruct (Hm st) as (a & s & E0). congruence. Qed.

Lemma readDir_thrown path st e st' :
  readDir platform options path st = (Thrown e, st') → cache st' = cache st.
Proof.
  unfold readDir. intros H.
  apply try_catch_rethrow in H as [e0 H].
  apply bind_thrown in H as [H | (response & st1 & Hs & H)].
  - by apply s3Client_send_cache in H.
  - exfalso. revert H. apply total_not_thrown.
    apply total_bind; [| intros entries; apply total_bind].
    + destruct (list_Contents response); [| apply total_ret].
      apply total_for_of. intros; apply total_readDir_object.
    + destruct (list_CommonPrefixes response); [| apply total_ret].
      apply total_for_of. intros; apply total_readDir_prefix.
    + intros; apply total_ret.
Qed.

Lemma deleteDir_thrown path st e st' :
  deleteDir platform options path st = (Thrown e, st') → cache st' = cache st.
Proof.
  unfold deleteDir. intros H.
  apply try_catch_rethrow in H as [e0 H].
  apply bind_thrown in H as [H | (response & st1 & Hs & H)].
  - by apply s3Client_send_cache in H.
  - apply s3Client_send_cache in Hs as <-.
    destruct (list_Contents response) as [[|o contents]|]; try done.
    destruct (omap _ _) as [|k keys]; [done |].
    apply bind_thrown in H as [H | (u & st2 & Hd & H)].
    + by apply s3Client_send_cache in H.
    + exfalso. revert H. apply total_not_thrown.
      apply total_for_of. intros; apply total_cache_delete.
Qed.

Lemma perform_thrown op st e st' :
  perform platform options op st = (Thrown e, st') → cache st' = cache st.
Proof.
  destruct op; cbn [perform]; intros H;
    apply bind_thrown in H as [H | (a & st1 & _ & H)]; try done.
  - by apply readFile_thrown in H.
  - by apply writeFile_thrown in H.
  - by apply exists_thrown in H.
  - by apply deleteFile_thrown in H.
  - by apply readDir_thrown in H.
  - by apply deleteDir_thrown in H.
  - by apply stat_thrown in H.
Qed.

End FacadeFacts.

(** ** The reference store *)
Section MemStoreFacts.
Import MemStore.

Lemma nextFault_objects w : objects (nextFault w).2 = objects w.
Proof. unfold nextFault. by destruct (faults w). Qed.

Lemma nextFault_config w : config (nextFault w).2 = config w.
Proof. unfold nextFault. by destruct (faults w). Qed.

Lemma nextFault_faults w : faults (nextFault w).2 = tail (faults w).
Proof. unfold nextFault. by destruct (faults w) eqn:E; cbn; rewrite ?E. Qed.

Lemma nextFault_calm w n : noFaults (S n) w → (nextFault w).1 = None.
Proof.
  unfold noFaults, nextFault. destruct (faults w) as [|f fs]; [done |].
  cbn [take]. by intros [-> _]%Forall_cons.
Qed.

Lemma serve_calm {R} (command : Command R) w n :
  noFaults (S n) w → serve command w = respond command (nextFault w).2.
Proof.
  intros H%nextFault_calm. unfold serve.
  destruct (nextFault w) as [f w']. cbn [fst snd] in *. by subst f.
Qed.

(** A rejected call leaves the bucket as it was; an answered one is the
    answer of [respond]. *)
Lemma serve_cases {R} (command : Command R) w :
  (∃ e, (nextFault w).1 = Some e ∧ serve command w = (Thrown e, (nextFault w).2))
  ∨ ((nextFault w).1 = None ∧ serve command w = respond command (nextFault w).2).
Proof.
  unfold serve. destruct (nextFault w) as [[e|] w']; cbn [fst snd]; eauto.
Qed.

Lemma honest_nextFault w e :
  honest w → (nextFault w).1 = Some e → isNotFoundError e = false.
Proof.
  unfold honest, nextFault. destruct (faults w) as [|f fs]; [done |].
  cbn [fst]. intros [H _]%Forall_cons ->. by apply H.
Qed.

(** *** Bodies *)
Lemma readChunks_chunksOf fuel n bytes acc :
  (length bytes ≤ fuel)%nat →
  ∃ chunks, readChunks (chunksOf fuel n bytes) acc = Returned (acc ++ chunks)
            ∧ concat chunks = bytes.
Proof.
  revert bytes acc. induction fuel as [|fuel IH]; intros bytes acc Hlen.
  - destruct bytes; [| simpl in Hlen; lia].
    exists []. by rewrite app_nil_r.
  - destruct bytes as [|b bytes].
    { exists []. by rewrite app_nil_r. }
    cbn [chunksOf readChunks].
    destruct (IH (drop (S n) (b :: bytes)) (acc ++ [take (S n) (b :: bytes)]))
      as (chunks & E & Hc).
    { rewrite length_drop. simpl in *. lia. }
    exists (take (S n) (b :: bytes) :: chunks). split.
    + rewrite E. by rewrite <- app_assoc.
    + cbn [concat]. rewrite Hc. apply take_drop.
Qed.

Lemma streamToString_bodyStream {W} n bytes (st : State W) :
  streamToString (Some (bodyStream n bytes)) st
  = (Returned (Utf8.decode bytes), st).
Proof.
  unfold streamToString, bodyStream.
  destruct (readChunks_chunksOf (length bytes) n bytes []) as (chunks & -> & <-);
    [lia |].
  done.
Qed.

(** *** Listings *)
Lemma elem_of_sortedKeys m key : key ∈ sortedKeys m ↔ is_Some (m !! key).
Proof.
  unfold sortedKeys. rewrite merge_sort_Permutation.
  rewrite list_elem_of_fmap. split.
  - intros ([k o] & -> & H). apply elem_of_map_to_list in H. by exists o.
  - intros [o H]. exists (key, o). split; [done |].
    by apply elem_of_map_to_list.
Qed.

Lemma classify_flat prefix key :
  classify prefix None key
  = if String.prefix prefix key then Some (EntryObject key) else None.
Proof. reflexivity. Qed.

Lemma elem_of_listing_flat m prefix key :
  EntryObject key ∈ listing m prefix None
  ↔ is_Some (m !! key) ∧ String.prefix prefix key = true.
Proof.
  unfold listing. rewrite elem_of_remove_dups, list_elem_of_omap.
  setoid_rewrite classify_flat. setoid_rewrite elem_of_sortedKeys. split.
  - intros (k & Hk & H). destruct (String.prefix prefix k) eqn:E; [| done].
    by simplify_eq.
  - intros [Hk E]. exists key. by rewrite E.
Qed.

End MemStoreFacts.

(** ** What each store call does to the bucket *)
Section ServeFacts.
Import MemStore.

Lemma lookup_foldr_delete_elem (m : gmap string StoredObject) keys key :
  key ∈ keys → foldr delete m keys !! key = None.
Proof.
  induction keys as [|k keys IH]; [by intros ?%elem_of_nil |].
  intros [->|Hin]%elem_of_cons; cbn [foldr].
  - apply lookup_delete_eq.
  - destruct (decide (k = key)) as [->|Hne].
    + apply lookup_delete_eq.
    + rewrite lookup_delete_ne by done. by apply IH.
Qed.

Lemma lookup_foldr_delete_is_Some (m : gmap string StoredObject) keys key :
  is_Some (foldr delete m keys !! key) ↔ is_Some (m !! key) ∧ key ∉ keys.
Proof.
  induction keys as [|k keys IH]; cbn [foldr].
  - split; [intros H; split; [done | by intros ?%elem_of_nil] | by intros [? _]].
  - destruct (decide (k = key)) as [->|Hne].
    + rewrite lookup_delete_eq. split; [by intros [? ?] |].
      intros [_ Hnot]. exfalso. apply Hnot. by left.
    + rewrite lookup_delete_ne by done. rewrite IH, not_elem_of_cons.
      split; [intros [? ?]; by repeat split | by intros [? [_ ?]]].
Qed.

Lemma serve_get bucket key w r w' :
  serve (GetObjectCommand bucket key) w = (r, w') →
  objects w' = objects w
  ∧ ∀ resp, r = Returned resp → is_Some (objects w !! key).
Proof.
  intros H.
  destruct (serve_cases (GetObjectCommand bucket key) w)
    as [(e & _ & E) | [_ E]]; rewrite E in H; clear E.
  - simplify_eq. by rewrite nextFault_objects.
  - cbn [respond] in H. rewrite nextFault_objects in H.
    destruct (objects w !! key) eqn:Ho; simplify_eq;
      rewrite nextFault_objects; split; by eauto.
Qed.

Lemma serve_head bucket key w r w' :
  serve (HeadObjectCommand bucket key) w = (r, w') →
  objects w' = objects w
  ∧ ∀ resp, r = Returned resp → is_Some (objects w !! key).
Proof.
  intros H.
  destruct (serve_cases (HeadObjectCommand bucket key) w)
    as [(e & _ & E) | [_ E]]; rewrite E in H; clear E.
  - simplify_eq. by rewrite nextFault_objects.
  - cbn [respond] in H. rewrite nextFault_objects in H.
    destruct (objects w !! key) eqn:Ho; simplify_eq;
      rewrite nextFault_objects; split; by eauto.
Qed.

Lemma serve_put bucket key body contentType w r w' :
  serve (PutObjectCommand bucket key body contentType) w = (r, w') →
  match r with
  | Returned _ =>
      ∃ o, objects w' = <[key := o]> (objects w)
           ∧ so_body o = Utf8.encode body
  | Thrown _ => objects w' = objects w
  end.
Proof.
  intros H.
  destruct (serve_cases (PutObjectCommand bucket key body contentType) w)
    as [(e & _ & E) | [_ E]]; rewrite E in H; clear E.
  - simplify_eq. by rewrite nextFault_objects.
  - cbn [respond putObject] in H. simplify_eq. cbn [objects].
    rewrite nextFault_objects. by eexists.
Qed.

Lemma serve_delete bucket key w r w' :
  serve (DeleteObjectCommand bucket key) w = (r, w') →
  match r with
  | Returned _ => objects w' = delete key (objects w)
  | Thrown e =>
      objects w' = objects w
      ∧ (honest w → isNotFoundError e = true → objects w !! key = None)
  end.
Proof.
  intros H.
  destruct (serve_cases (DeleteObjectCommand bucket key) w)
    as [(e & Hf & E) | [_ E]]; rewrite E in H; clear E.
  - simplify_eq. rewrite nextFault_objects. split; [done |].
    intros Hh Hnf. by rewrite (honest_nextFault _ _ Hh Hf) in Hnf.
  - cbn [respond] in H. rewrite nextFault_objects in H.
    destruct (objects w !! key) eqn:Ho.
    + simplify_eq. cbn [withObjects objects]. by rewrite ?nextFault_objects.
    + destruct (strictDelete _); simplify_eq; rewrite ?nextFault_objects.
      * done.
      * symmetry. by apply delete_id.
Qed.

Lemma serve_list bucket prefix delimiter w r w' :
  serve (ListObjectsV2Command bucket prefix delimiter) w = (r, w') →
  objects w' = objects w
  ∧ ∀ resp, r = Returned resp →
      (nextFault w).1 = None
      ∧ resp = listObjects (nextFault w).2 prefix delimiter.
Proof.
  intros H.
  destruct (serve_cases (ListObjectsV2Command bucket prefix delimiter) w)
    as [(e & _ & E) | [Hn E]]; rewrite E in H; clear E.
  - simplify_eq. by rewrite nextFault_objects.
  - cbn [respond] in H. simplify_eq. rewrite nextFault_objects.
    split; [done |]. by intros resp [= <-].
Qed.

Lemma serve_deleteObjects bucket keys w r w' :
  serve (DeleteObjectsCommand bucket keys) w = (r, w') →
  match r with
  | Returned _ => objects w' = foldr delete (objects w) keys
  | Thrown _ => objects w' = objects w
  end.
Proof.
  intros H.
  destruct (serve_cases (DeleteObjectsCommand bucket keys) w)
    as [(e & _ & E) | [_ E]]; rewrite E in H; clear E.
  - simplify_eq. by rewrite nextFault_objects.
  - cbn [respond] in H. simplify_eq. cbn [withObjects objects].
    by rewrite nextFault_objects.
Qed.

End ServeFacts.

(** ** The operations against the reference store *)
Section OnMemStore.
Import MemStore.
Variable clock : nat → Z.
Variable options : Options.

Local Abbreviation P := (platform clock).

Ltac open_send H :=
  match type of H with
  | context [s3Client_send ?p ?c ?st] =>
      let r := fresh "r" in
      let st0 := fresh "st" in
      let Hs := fresh "Hs" in
      let Hc := fresh "Hc" in
      destruct (s3Client_send p c st) as [r st0] eqn:Hs;
      pose proof (s3Client_send_cache _ _ _ _ _ Hs) as Hc;
      apply s3Client_send_world in Hs; cbn [send platform] in Hs;
      cbn beta iota in H
  end.

Lemma writeFile_effect path content st r st1 :
  writeFile P options path content st = (r, st1) →
  match r with
  | Returned _ =>
      ∃ o e, cache st1 = <[getR2Key options path := e]> (cache st)
             ∧ objects (world st1)
               = <[getR2Key options path := o]> (objects (world st))
             ∧ so_body o = Utf8.encode content
  | Thrown _ =>
      cache st1 = cache st ∧ objects (world st1) = objects (world st)
  end.
Proof.
  unfold writeFile, try_catch, bind, newDate, cache_set, throw. intros H.
  open_send H. apply serve_put in Hs.
  destruct r0; simplify_eq; cbn [cache world].
  - destruct Hs as (o & Ho & Hb). eexists o, _. by rewrite Hc.
  - done.
Qed.

Lemma deleteFile_effect path st r st1 :
  deleteFile P options path st = (r, st1) →
  match r with
  | Returned _ =>
      (cache st1 = delete (getR2Key options path) (cache st)
       ∧ objects (world st1)
         = delete (getR2Key options path) (objects (world st)))
      ∨ (cache st1 = cache st ∧ objects (world st1) = objects (world st)
         ∧ (honest (world st) →
            objects (world st) !! getR2Key options path = None))
  | Thrown _ =>
      cache st1 = cache st ∧ objects (world st1) = objects (world st)
  end.
Proof.
  unfold deleteFile, try_catch, bind, cache_delete, throw, ret. intros H.
  open_send H. apply serve_delete in Hs.
  destruct r0; simplify_eq; cbn [cache world].
  - left. by rewrite Hc.
  - destruct Hs as [Ho Hnf].
    destruct (isNotFoundError e) eqn:E; cbn [negb] in H; simplify_eq.
    + right. by auto.
    + done.
Qed.

Lemma readFile_effect path st r st1 :
  readFile P options path st = (r, st1) →
  probe_effect (getR2Key options path) st st1.
Proof.
  unfold readFile, try_catch, bind, cache_get, cache_set, throw, ret.
  intros H. open_send H. apply serve_get in Hs as [Ho Hk].
  destruct r0 as [resp|e].
  - destruct (streamToString _ _) as [c st2] eqn:Hb.
    apply streamToString_state in Hb as ->.
    specialize (Hk resp eq_refl).
    destruct c; repeat case_match; simplify_eq; cbn [cache world];
      (split; [done |]); rewrite ?Hc; eauto.
  - repeat case_match; simplify_eq; by split; auto.
Qed.

Lemma exists_effect path st r st1 :
  exists_ P options path st = (r, st1) →
  probe_effect (getR2Key options path) st st1.
Proof.
  unfold exists_, try_catch, bind, cache_has, cache_set, throw, ret.
  intros H. case_bool_decide.
  { simplify_eq. by split; auto. }
  open_send H. apply serve_head in Hs as [Ho Hk].
  destruct r0 as [resp|e].
  - specialize (Hk resp eq_refl).
    repeat case_match; simplify_eq; cbn [cache world];
      (split; [done |]); rewrite ?Hc; eauto.
  - repeat case_match; simplify_eq; by split; auto.
Qed.

Lemma stat_effect path st r st1 :
  stat P options path st = (r, st1) →
  probe_effect (getR2Key options path) st st1.
Proof.
  unfold stat, try_catch, bind, cache_get, cache_set, newDate, throw, ret.
  intros H. destruct (cache st !! _) eqn:Hhit.
  { simplify_eq. by split; auto. }
  open_send H. apply serve_head in Hs as [Ho Hk].
  destruct r0 as [resp|e].
  - specialize (Hk resp eq_refl).
    repeat case_match; simplify_eq; cbn [cache world];
      (split; [done |]); rewrite ?Hc; eauto.
  - repeat case_match; simplify_eq; by split; auto.
Qed.

(** *** Listings and the two directory operations *)
Lemma listObjects_nextFault w prefix delimiter :
  listObjects (nextFault w).2 prefix delimiter = listObjects w prefix delimiter.
Proof.
  unfold listObjects. by rewrite nextFault_objects, nextFault_config.
Qed.

Lemma describe_Some m e o :
  describe m e = Some o →
  ∃ key, e = EntryObject key ∧ obj_Key o = Some key ∧ is_Some (m !! key).
Proof.
  destruct e as [key|p]; cbn [describe]; [| done].
  destruct (m !! key) eqn:E; cbn; [| done].
  intros [= <-]. exists key. by eauto.
Qed.

Lemma nonEmpty_Some {A} (l l' : list A) : nonEmpty l = Some l' → l' = l.
Proof. destruct l; [done | by intros [= <-]]. Qed.

Lemma truthyOpt_Some x s : truthyOpt x = Some s → x = Some s.
Proof.
  destruct x as [s'|]; cbn [truthyOpt]; [| done].
  destruct (JsString.truthy s'); [by intros [= <-] | done].
Qed.

Lemma readDir_object_effect normalizedPath prefix object entries
    (st : State Bucket) r st1 :
  readDir_object options normalizedPath prefix object entries st = (r, st1) →
  world st1 = world st
  ∧ ∀ k, is_Some (cache st1 !! k) →
         is_Some (cache st !! k) ∨ obj_Key object = Some k.
Proof.
  unfold readDir_object, bind, cache_set, ret. intros H.
  destruct (truthyOpt (obj_Key object)) as [key|] eqn:Hkey.
  2: { simplify_eq. by auto. }
  apply truthyOpt_Some in Hkey.
  repeat case_match; simplify_eq; cbn [cache world]; (split; [done |]);
    intros k Hk; auto.
  destruct (decide (key = k)) as [->|Hne]; [by right |].
  rewrite lookup_insert_ne in Hk by done. by left.
Qed.

Lemma for_of_readDir_object normalizedPath prefix contents :
  ∀ entries (st : State Bucket) r st1,
    for_of contents (readDir_object options normalizedPath prefix) entries st
    = (r, st1) →
    world st1 = world st
    ∧ ∀ k, is_Some (cache st1 !! k) →
           is_Some (cache st !! k)
           ∨ ∃ o, o ∈ contents ∧ obj_Key o = Some k.
Proof.
  induction contents as [|o contents IH]; intros entries st r st1;
    cbn [for_of].
  - unfold ret. intros [= _ <-]. by auto.
  - unfold bind. destruct (readDir_object _ _ _ _ _ _) as [r0 st0] eqn:H0.
    apply readDir_object_effect in H0 as [Hw Hk0].
    destruct r0 as [entries'|e].
    + intros [Hw' Hk]%IH. split; [congruence |].
      intros k [Hc | (o' & Hin & Ho')]%Hk.
      * destruct (Hk0 k Hc) as [? | ?]; [by left |].
        right. exists o. split; [by left | done].
      * right. exists o'. split; [by right | done].
    + intros [= _ <-]. split; [done |].
      intros k [? | ?]%Hk0; [by left |].
      right. exists o. split; [by left | done].
Qed.

Lemma for_of_readDir_prefix normalizedPath prefixes :
  ∀ entries (st : State Bucket) r st1,
    for_of prefixes (readDir_prefix options normalizedPath) entries st
    = (r, st1) → st1 = st.
Proof.
  induction prefixes as [|p prefixes IH]; intros entries st r st1;
    cbn [for_of].
  - unfold ret. by intros [= _ <-].
  - unfold bind, readDir_prefix, ret.
    repeat case_match; simplify_eq; by eauto.
Qed.

Lemma readDir_effect path st r st1 :
  readDir P options path st = (r, st1) →
  objects (world st1) = objects (world st)
  ∧ ∀ k, is_Some (cache st1 !! k) →
         is_Some (cache st !! k) ∨ is_Some (objects (world st) !! k).
Proof.
  unfold readDir, try_catch, throw. intros H.
  destruct (bind _ _ st) as [r0 st2] eqn:Hbody.
  assert (st2 = st1) as -> by (destruct r0; by simplify_eq). clear H.
  apply bind_inv in Hbody as (r1 & st0 & Hs & Hbody).
  pose proof (s3Client_send_cache _ _ _ _ _ Hs) as Hc.
  apply s3Client_send_world in Hs. cbn [send platform] in Hs.
  apply serve_list in Hs as [Ho Hresp].
  destruct r1 as [resp|e]; [| destruct Hbody as [_ ->]; rewrite Hc; by auto].
  destruct (Hresp resp eq_refl) as [_ ->]. clear Hresp.
  rewrite listObjects_nextFault in Hbody.
  apply bind_inv in Hbody as (r2 & st3 & Hloop1 & Hbody).
  assert (world st3 = world st0
          ∧ ∀ k, is_Some (cache st3 !! k) →
                 is_Some (cache st !! k) ∨ is_Some (objects (world st) !! k))
    as [Hw3 Hk3].
  { cbn [list_Contents listObjects] in Hloop1.
    destruct (nonEmpty _) as [contents|] eqn:Hne.
    - apply nonEmpty_Some in Hne as ->.
      apply for_of_readDir_object in Hloop1 as [Hw Hk]. split; [done |].
      intros k [Hin | (o & Hin & Hkey)]%Hk; [left; by rewrite <- Hc |].
      right. apply list_elem_of_omap in Hin as (e & _ & Hd).
      apply describe_Some in Hd as (key & _ & Hkey' & Hsome).
      by simplify_eq.
    - unfold ret in Hloop1. simplify_eq. split; [done |].
      intros k Hk. left. by rewrite <- Hc. }
  destruct r2 as [entries|e];
    [| destruct Hbody as [_ ->]; split; [congruence | done]].
  apply bind_inv in Hbody as (r3 & st4 & Hloop2 & Hbody).
  assert (st4 = st3) as ->.
  { destruct (list_CommonPrefixes _).
    - by apply for_of_readDir_prefix in Hloop2.
    - unfold ret in Hloop2. by simplify_eq. }
  destruct r3; unfold ret in Hbody; [simplify_eq | destruct Hbody as [_ ->]];
    split; (congruence || done).
Qed.

Lemma for_of_cache_delete keys :
  ∀ (st : State Bucket) r st1,
    for_of keys (λ key (_ : unit), cache_delete (E := AwsError) key) tt st
    = (r, st1) →
    r = Returned tt ∧ world st1 = world st ∧ sent st1 = sent st
    ∧ (∀ k, k ∈ keys → cache st1 !! k = None)
    ∧ (∀ k, is_Some (cache st1 !! k) → is_Some (cache st !! k)).
Proof.
  induction keys as [|key keys IH]; intros st r st1; cbn [for_of].
  - unfold ret. intros [= <- <-]. repeat split; [| done].
    by intros k ?%elem_of_nil.
  - unfold bind, cache_delete.
    intros (-> & Hw & Hlog & Hin & Hsome)%IH. cbn [cache world sent] in *.
    repeat split; [done | done | |].
    + intros k [->|Hk]%elem_of_cons; [| by apply Hin].
      destruct (cache st1 !! key) eqn:E; [| done].
      destruct (Hsome key) as [x Hx]; [by eauto |].
      by rewrite lookup_delete_eq in Hx.
    + intros k [x Hx]%Hsome.
      destruct (decide (key = k)) as [->|Hne].
      * by rewrite lookup_delete_eq in Hx.
      * rewrite lookup_delete_ne in Hx by done. by eauto.
Qed.

Lemma deleteDir_effect path st r st1 :
  deleteDir P options path st = (r, st1) →
  ∃ keys,
    objects (world st1) = foldr delete (objects (world st)) keys
    ∧ (∀ k, k ∈ keys → cache st1 !! k = None)
    ∧ (∀ k, is_Some (cache st1 !! k) → is_Some (cache st !! k))
    ∧ (r = Returned tt →
       keys = listedKeys (world st) (getR2Key options (normalizeDir path)))
    ∧ (r = Returned tt → keys ≠ [] →
       sent st1
       = sent st
         ++ [existT _ (ListObjectsV2Command (opt_bucket options)
                         (getR2Key options (normalizeDir path)) None);
             existT _ (DeleteObjectsCommand (opt_bucket options) keys)]).
Proof.
  unfold deleteDir, try_catch, throw. intros H.
  destruct (bind _ _ st) as [r0 st2] eqn:Hbody.
  assert (st2 = st1 ∧ (r = Returned tt → r0 = Returned tt)) as [-> Hr].
  { destruct r0 as [[]|]; by simplify_eq. }
  clear H.
  apply bind_inv in Hbody as (r1 & st0 & Hs & Hbody).
  pose proof (s3Client_send_cache _ _ _ _ _ Hs) as Hc.
  pose proof (s3Client_send_sent _ _ _ _ _ Hs) as Hlog.
  apply s3Client_send_world in Hs. cbn [send platform] in Hs.
  apply serve_list in Hs as [Ho Hresp].
  destruct r1 as [resp|e].
  2: { destruct Hbody as [-> ->]. exists [].
       rewrite Hc. repeat split; try done.
       - by intros k ?%elem_of_nil.
       - intros E. by specialize (Hr E). }
  destruct (Hresp resp eq_refl) as [_ ->]. clear Hresp.
  rewrite listObjects_nextFault in Hbody.
  cbn [list_Contents listObjects] in Hbody.
  fold (listedKeys (world st) (getR2Key options (normalizeDir path))) in Hbody.
  set (keys := listedKeys (world st) (getR2Key options (normalizeDir path))) in *.
  assert (Hkeys : nonEmpty (omap (describe (objects (world st)))
                    (take (maxKeys (config (world st)))
                       (listing (objects (world st))
                          (getR2Key options (normalizeDir path)) None)))
                  = None → keys = []).
  { intros E. unfold keys, listedKeys.
    destruct (omap (describe _) _); [done | done]. }
  destruct (nonEmpty _) as [contents|] eqn:Hne.
  2: { unfold ret in Hbody. simplify_eq. exists [].
       rewrite Hc. repeat split; try done.
       - by intros k ?%elem_of_nil.
       - intros _. symmetry. by apply Hkeys. }
  apply nonEmpty_Some in Hne. clear Hkeys.
  assert (Hk : omap (λ obj, truthyOpt (obj_Key obj)) contents = keys)
    by (by subst contents).
  destruct contents as [|o contents].
  { unfold ret in Hbody. simplify_eq. exists [].
    rewrite Hc. repeat split; try done. by intros k ?%elem_of_nil. }
  rewrite Hk in Hbody. clearbody keys. clear Hk Hne.
  destruct keys as [|key keys].
  { unfold ret in Hbody. simplify_eq. exists [].
    rewrite Hc. repeat split; try done. by intros k ?%elem_of_nil. }
  apply bind_inv in Hbody as (r2 & st3 & Hs & Hbody).
  pose proof (s3Client_send_cache _ _ _ _ _ Hs) as Hc3.
  pose proof (s3Client_send_sent _ _ _ _ _ Hs) as Hlog3.
  apply s3Client_send_world in Hs. cbn [send platform] in Hs.
  apply serve_deleteObjects in Hs.
  destruct r2 as [[]|e].
  - apply for_of_cache_delete in Hbody as (-> & Hw & Hlog1 & Hin & Hsome).
    exists (key :: keys). rewrite Hw, Hs, Ho. repeat split; try done.
    + intros k Hk. rewrite <- Hc, <- Hc3. by apply Hsome.
    + intros _ _. rewrite Hlog1, Hlog3, Hlog. by rewrite <- app_assoc.
  - destruct Hbody as [-> ->]. exists [].
    rewrite Hs, Ho, Hc3, Hc. repeat split; try done.
    + by intros k ?%elem_of_nil.
    + intros E. by specialize (Hr E).
Qed.

(** *** The cache stays coherent with the bucket *)
Lemma probe_coherent key st st1 :
  probe_effect key st st1 → coherent st → coherent st1.
Proof.
  intros [Ho [Hc | (e & Hc & Hk)]] Hcoh k; rewrite Ho, Hc.
  - apply Hcoh.
  - destruct (decide (key = k)) as [->|Hne]; [done |].
    rewrite lookup_insert_ne by done. apply Hcoh.
Qed.

Lemma perform_coherent op st :
  coherent st → coherent (perform P options op st).2.
Proof.
  intros Hcoh.
  destruct (perform P options op st) as [r st1] eqn:H. cbn [snd].
  destruct op; cbn [perform] in H;
    apply bind_inv in H as (r0 & st0 & H0 & H);
    assert (st1 = st0) as ->
      by (destruct r0; [unfold ret in H; by simplify_eq | by destruct H]);
    clear H.
  - eapply probe_coherent; [by eapply readFile_effect | done].
  - apply writeFile_effect in H0. destruct r0.
    + destruct H0 as (o & e & Hc & Ho & _). intros k. rewrite Hc, Ho.
      destruct (decide (getR2Key options path = k)) as [->|Hne].
      * by rewrite !lookup_insert_eq.
      * rewrite !lookup_insert_ne by done. apply Hcoh.
    + destruct H0 as [Hc Ho]. intros k. rewrite Hc, Ho. apply Hcoh.
  - eapply probe_coherent; [by eapply exists_effect | done].
  - apply deleteFile_effect in H0. destruct r0.
    + destruct H0 as [[Hc Ho] | (Hc & Ho & _)]; intros k; rewrite Hc, Ho.
      * destruct (decide (getR2Key options path = k)) as [->|Hne].
        -- rewrite lookup_delete_eq. by intros [? ?].
        -- rewrite !lookup_delete_ne by done. apply Hcoh.
      * apply Hcoh.
    + destruct H0 as [Hc Ho]. intros k. rewrite Hc, Ho. apply Hcoh.
  - apply readDir_effect in H0 as [Ho Hk]. intros k Hin. rewrite Ho.
    destruct (Hk k Hin) as [? | ?]; [by apply Hcoh | done].
  - apply deleteDir_effect in H0 as (keys & Ho & Hin & Hsome & _ & _).
    intros k Hk. rewrite Ho. apply lookup_foldr_delete_is_Some. split.
    + by apply Hcoh, Hsome.
    + intros Hel. apply Hin in Hel. rewrite Hel in Hk. by destruct Hk.
  - eapply probe_coherent; [by eapply stat_effect | done].
  - unfold ensureDir, ret in H0. by simplify_eq.
  - unfold chmod, ret in H0. by simplify_eq.
Qed.

Lemma session_coherent ops st :
  coherent st → coherent (session P options ops st).
Proof.
  revert st. induction ops as [|op ops IH]; intros st Hcoh; cbn [session].
  - done.
  - by apply IH, perform_coherent.
Qed.

Lemma fresh_coherent w : coherent (fresh w).
Proof. intros k. cbn [fresh cache]. rewrite lookup_empty. by intros [? ?]. Qed.

(** *** Reading what is there, probing what is not *)
Lemma readFile_present path st o :
  objects (world st) !! getR2Key options path = Some o →
  noFaults 1 (world st) →
  ∃ st1, readFile P options path st
         = (Returned (Utf8.decode (so_body o)), st1).
Proof.
  intros Ho Hcalm.
  unfold readFile, try_catch, bind, cache_get, s3Client_send, ret.
  cbn [send platform]. rewrite (serve_calm _ _ 0 Hcalm).
  cbn [respond]. rewrite nextFault_objects, Ho.
  cbn [get_Body]. rewrite streamToString_bodyStream.
  cbn [get_ContentLength get_LastModified cache_set]. by eexists.
Qed.

Lemma exists_absent path st :
  cache st !! getR2Key options path = None →
  objects (world st) !! getR2Key options path = None →
  noFaults 1 (world st) →
  ∃ st1, exists_ P options path st = (Returned false, st1)
         ∧ cache st1 = cache st
         ∧ objects (world st1) = objects (world st)
         ∧ faults (world st1) = tail (faults (world st)).
Proof.
  intros Hc Ho Hcalm.
  unfold exists_, try_catch, bind, cache_has, s3Client_send, ret.
  rewrite Hc. rewrite bool_decide_eq_false_2 by (by intros [? ?]).
  cbn [send platform]. rewrite (serve_calm _ _ 0 Hcalm).
  cbn [respond]. rewrite nextFault_objects, Ho.
  cbn. eexists. repeat split; cbn [cache world].
  - apply nextFault_objects.
  - apply nextFault_faults.
Qed.

Lemma exists_cached {W} (platform : Platform W) path (st : State W) :
  is_Some (cache st !! getR2Key options path) →
  exists_ platform options path st = (Returned true, st).
Proof.
  intros Hc. unfold exists_, try_catch, bind, cache_has, ret.
  by rewrite bool_decide_eq_true_2.
Qed.

Lemma writeFile_cached {W} (platform : Platform W) path content
    (st st1 : State W) :
  writeFile platform options path content st = (Returned tt, st1) →
  is_Some (cache st1 !! getR2Key options path).
Proof.
  unfold writeFile, try_catch, bind, newDate, cache_set, throw. intros H.
  destruct (s3Client_send _ _ _) as [[resp|e] st0]; simplify_eq.
  cbn [cache]. by rewrite lookup_insert_eq.
Qed.

(** *** What an untruncated listing hands to [deleteDir] *)
Lemma elem_of_listedKeys w prefix key :
  is_Some (objects w !! key) →
  String.prefix prefix key = true →
  JsString.truthy key = true →
  (length (listing (objects w) prefix None) ≤ maxKeys (config w))%nat →
  key ∈ listedKeys w prefix.
Proof.
  intros [o Ho] Hp Ht Hfit. unfold listedKeys.
  rewrite take_ge by done.
  apply list_elem_of_omap.
  exists {| obj_Key := Some key;
            obj_Size := Some (Z.of_nat (length (so_body o)));
            obj_LastModified := Some (so_lastModified o);
            obj_ETag := Some (so_etag o) |}.
  split; [| cbn [obj_Key truthyOpt]; by rewrite Ht].
  apply list_elem_of_omap. exists (EntryObject key). split.
  - apply elem_of_listing_flat. by eauto.
  - cbn [describe]. by rewrite Ho.
Qed.

Lemma noFaults_le n m w : (n ≤ m)%nat → noFaults m w → noFaults n w.
Proof.
  unfold noFaults. intros Hle H.
  replace n with (n `min` m)%nat by lia.
  rewrite <- take_take. by apply Forall_take.
Qed.

Lemma noFaults_step n w w' :
  faults w' = tail (faults w) → noFaults (S n) w → noFaults n w'.
Proof.
  unfold noFaults. intros ->. destruct (faults w) as [|f fs]; cbn [take tail].
  - intros _. destruct n; constructor.
  - by intros [_ ?]%Forall_cons.
Qed.

(** After a successful [deleteDir] whose listing fitted in one page, every
    key of the bucket under the directory prefix was named in the batch
    delete and is gone from the bucket and from the cache. *)
Lemma deleteDir_clears path st st1 :
  deleteDir P options path st = (Returned tt, st1) →
  (length (listing (objects (world st))
             (getR2Key options (normalizeDir path)) None)
   ≤ maxKeys (config (world st)))%nat →
  ∃ keys,
    (keys ≠ [] →
     last (sent st1)
     = Some (existT _ (DeleteObjectsCommand (opt_bucket options) keys)))
    ∧ ∀ key,
        is_Some (objects (world st) !! key) →
        String.prefix (getR2Key options (normalizeDir path)) key = true →
        JsString.truthy key = true →
        key ∈ keys
        ∧ cache st1 !! key = None
        ∧ objects (world st1) !! key = None.
Proof.
  intros Hdel Hfit.
  apply deleteDir_effect in Hdel as (keys & Ho & Hin & _ & Hkeys & Hlog).
  specialize (Hkeys eq_refl). specialize (Hlog eq_refl).
  exists keys. split.
  - intros Hne. rewrite Hlog by done. by rewrite last_app.
  - intros key Hobj Hp Ht.
    assert (Hel : key ∈ keys).
    { rewrite Hkeys. by apply elem_of_listedKeys. }
    repeat split; [done | by apply Hin |].
    rewrite Ho. by apply lookup_foldr_delete_elem.
Qed.

(** *** A directory with a known content *)
Lemma classify_child prefix rest :
  classify prefix (Some "/") (prefix +:+ rest)
  = match String.index 0 "/" rest with
    | Some i =>
        Some (EntryPrefix (prefix +:+ String.substring 0 (i + 1) rest))
    | None => Some (EntryObject (prefix +:+ rest))
    end.
Proof.
  unfold classify. rewrite prefix_append, slice_append. reflexivity.
Qed.

Lemma inNamespace_under (a key : string) :
  JsString.startsWith a "/" = false →
  String.prefix (getR2Key options a) key = true →
  inNamespace options key = true.
Proof.
  intros Hrel. rewrite getR2Key_relative by done. unfold inNamespace.
  destruct (JsString.truthy (opt_prefix options)); [| done].
  rewrite <- append_assoc. apply prefix_append_l.
Qed.

Lemma classify_prefix prefix delimiter key e :
  classify prefix delimiter key = Some e → String.prefix prefix key = true.
Proof. unfold classify. by destruct (String.prefix prefix key). Qed.

(** The listing of ["d/"] when the namespace holds exactly [d/a.txt],
    [d/b.json] and [d/sub/c.md], up to the order of its entries. *)
Lemma listing_example (m : gmap string StoredObject) :
  (∀ key, is_Some (m !! key) ∧ inNamespace options key = true
          ↔ key ∈ [getR2Key options "d/a.txt"; getR2Key options "d/b.json";
                   getR2Key options "d/sub/c.md"]) →
  listing m (getR2Key options "d/") (Some "/")
  ≡ₚ [EntryObject (getR2Key options "d/" +:+ "a.txt");
      EntryObject (getR2Key options "d/" +:+ "b.json");
      EntryPrefix (getR2Key options "d/" +:+ "sub/")].
Proof.
  intros Hns.
  change "d/a.txt" with ("d/" +:+ "a.txt") in Hns.
  change "d/b.json" with ("d/" +:+ "b.json") in Hns.
  change "d/sub/c.md" with ("d/" +:+ "sub/c.md") in Hns.
  rewrite !(getR2Key_append options "d/") in Hns by done.
  set (prefix := getR2Key options "d/") in *.
  apply NoDup_Permutation.
  - apply NoDup_remove_dups.
  - repeat constructor; rewrite ?elem_of_cons, ?elem_of_nil.
    + intros [[= H%append_inj] | [[=] | []]]. done.
    + intros [[=] | []].
    + intros [].
  - intros e. unfold listing. rewrite elem_of_remove_dups, list_elem_of_omap.
    split.
    + intros (key & Hkey & Hcl).
      assert (Hin : key ∈ [prefix +:+ "a.txt"; prefix +:+ "b.json";
                           prefix +:+ "sub/c.md"]).
      { apply Hns. split; [by apply elem_of_sortedKeys |].
        apply (inNamespace_under "d/"); [done |].
        by eapply classify_prefix. }
      rewrite !elem_of_cons, elem_of_nil in Hin.
      destruct Hin as [-> | [-> | [-> | []]]];
        rewrite classify_child in Hcl; cbn in Hcl; simplify_eq;
        rewrite !elem_of_cons; by auto.
    + rewrite !elem_of_cons, elem_of_nil.
      intros [-> | [-> | [-> | []]]].
      * exists (prefix +:+ "a.txt"). split; [| by rewrite classify_child].
        apply elem_of_sortedKeys, Hns. rewrite !elem_of_cons. by auto.
      * exists (prefix +:+ "b.json"). split; [| by rewrite classify_child].
        apply elem_of_sortedKeys, Hns. rewrite !elem_of_cons. by auto.
      * exists (prefix +:+ "sub/c.md"). split; [| by rewrite classify_child].
        apply elem_of_sortedKeys, Hns. rewrite !elem_of_cons. by auto.
Qed.

(** One round of each loop of [readDir], on a child of the directory. *)
Lemma readDir_object_child {W} (dir name : string) (object : S3Object)
    (entries : list string) (st : State W) :
  JsString.startsWith dir "/" = false → JsString.truthy dir = true →
  obj_Key object = Some (getR2Key options dir +:+ name) →
  JsString.truthy name = true → JsString.includesSlash name = false →
  ∃ st', readDir_object options dir (getR2Key options dir) object entries st
         = (Returned (entries ++ [name]), st').
Proof.
  intros Hrel Hdir Hkey Hname Hflat. unfold readDir_object.
  rewrite Hkey. cbn [truthyOpt].
  rewrite truthy_append by (by apply getR2Key_truthy).
  rewrite append_ne_self by done. cbn [negb].
  rewrite <- getR2Key_append by done.
  rewrite decode_encode.
  2: { destruct dir as [|c dir]; [done |]. rewrite append_cons.
       unfold JsString.startsWith in *. rewrite prefix_cons in *.
       by rewrite prefix_nil in *. }
  unfold JsString.substring. rewrite slice_append, Hname, Hflat.
  cbn [andb negb]. unfold bind, cache_set, ret.
  destruct (obj_Size object), (obj_LastModified object); by eexists.
Qed.

Lemma readDir_prefix_child {W} (dir name : string) (commonPrefix : CommonPrefix)
    (entries : list string) (st : State W) :
  JsString.startsWith dir "/" = false → JsString.truthy dir = true →
  cp_Prefix commonPrefix = Some (getR2Key options dir +:+ name) →
  JsString.truthy (JsString.stripTrailingSlash name) = true →
  readDir_prefix options dir commonPrefix entries st
  = (Returned (entries ++ [JsString.stripTrailingSlash name +:+ "/"]), st).
Proof.
  intros Hrel Hdir Hkey Hname. unfold readDir_prefix.
  rewrite Hkey. cbn [truthyOpt].
  rewrite truthy_append by (by apply getR2Key_truthy).
  rewrite <- getR2Key_append by done.
  rewrite decode_encode.
  2: { destruct dir as [|c dir]; [done |]. rewrite append_cons.
       unfold JsString.startsWith in *. rewrite prefix_cons in *.
       by rewrite prefix_nil in *. }
  unfold JsString.substring. by rewrite slice_append, Hname.
Qed.

(** [readDir] on a directory whose listing is known up to order, for any
    store client. *)
Lemma readDir_of_listing {W} (platform : Platform W) (st : State W)
    (response : ListObjectsV2CommandOutput) (w' : W) :
  send platform
    (ListObjectsV2Command (opt_bucket options) (getR2Key options "d/") (Some "/"))
    (world st) = (Returned response, w') →
  listsExample options response →
  ∃ st1, readDir platform options "d" st
         = (Returned ["a.txt"; "b.json"; "sub/"], st1).
Proof.
  intros Hsend (contents & prefixes & Hc & Hperm & Hp & Hcp).
  change "d/a.txt" with ("d/" +:+ "a.txt") in Hperm.
  change "d/b.json" with ("d/" +:+ "b.json") in Hperm.
  change "d/sub/" with ("d/" +:+ "sub/") in Hcp.
  rewrite (getR2Key_append options "d/" "a.txt") in Hperm by done.
  rewrite (getR2Key_append options "d/" "b.json") in Hperm by done.
  rewrite (getR2Key_append options "d/" "sub/") in Hcp by done.
  unfold readDir, try_catch.
  change (normalizeDir "d") with "d/".
  unfold bind at 1. unfold s3Client_send. rewrite Hsend, Hc, Hp.
  destruct prefixes as [|cp [|? ?]]; try done.
  injection Hcp as Hcp.
  symmetry in Hperm. apply Permutation_length_2_inv in Hperm.
  destruct contents as [|o [|o' [|? ?]]]; try (by destruct Hperm).
  cbn [fmap list_fmap] in Hperm. cbn [for_of]. unfold bind, ret.
  destruct Hperm as [[= Ho Ho'] | [= Ho Ho']];
    repeat match goal with
      | |- context [readDir_object options "d/" _ ?x ?acc ?s] =>
          let s' := fresh "st" in
          let E := fresh "E" in
          (destruct (readDir_object_child "d/" "a.txt" x acc s) as [s' E];
           [done | done | done | done | done |])
          || (destruct (readDir_object_child "d/" "b.json" x acc s) as [s' E];
              [done | done | done | done | done |]);
          rewrite E; clear E; cbn beta iota
      end;
    (erewrite (readDir_prefix_child "d/" "sub/");
      [| done | done | eassumption | done]);
    by eexists.
Qed.

(** The reference store answers the listing of ["d/"] as expected when the
    namespace holds exactly [d/a.txt], [d/b.json] and [d/sub/c.md]. *)
Lemma listObjects_example w :
  (∀ key, is_Some (objects w !! key) ∧ inNamespace options key = true
          ↔ key ∈ [getR2Key options "d/a.txt"; getR2Key options "d/b.json";
                   getR2Key options "d/sub/c.md"]) →
  (3 ≤ maxKeys (config w))%nat →
  listsExample options (listObjects w (getR2Key options "d/") (Some "/")).
Proof.
  intros Hns Hpage.
  pose proof (listing_example _ Hns) as Hperm.
  assert (∃ o1 o2,
            objects w !! (getR2Key options "d/" +:+ "a.txt") = Some o1
            ∧ objects w !! (getR2Key options "d/" +:+ "b.json") = Some o2)
    as (o1 & o2 & Ho1 & Ho2).
  { rewrite <- !getR2Key_append by done.
    destruct (proj2 (Hns (getR2Key options "d/a.txt"))) as [[o1 Ho1] _];
      [rewrite !elem_of_cons; by auto |].
    destruct (proj2 (Hns (getR2Key options "d/b.json"))) as [[o2 Ho2] _];
      [rewrite !elem_of_cons; by auto |].
    by exists o1, o2. }
  unfold listsExample, listObjects. cbn [list_Contents list_CommonPrefixes].
  rewrite take_ge by (by rewrite Hperm).
  set (all := listing _ _ _) in *.
  assert (Hcontents : omap (describe (objects w)) all
                      ≡ₚ omap (describe (objects w))
                           [EntryObject (getR2Key options "d/" +:+ "a.txt");
                            EntryObject (getR2Key options "d/" +:+ "b.json");
                            EntryPrefix (getR2Key options "d/" +:+ "sub/")])
    by (by rewrite Hperm).
  assert (Hgroups : omap groupOf all
                    ≡ₚ omap groupOf
                         [EntryObject (getR2Key options "d/" +:+ "a.txt");
                          EntryObject (getR2Key options "d/" +:+ "b.json");
                          EntryPrefix (getR2Key options "d/" +:+ "sub/")])
    by (by rewrite Hperm).
  cbn [omap list_omap describe groupOf] in Hcontents, Hgroups.
  rewrite Ho1, Ho2 in Hcontents. cbn in Hcontents.
  apply Permutation_singleton_r in Hgroups. rewrite Hgroups.
  change "d/a.txt" with ("d/" +:+ "a.txt").
  change "d/b.json" with ("d/" +:+ "b.json").
  change "d/sub/" with ("d/" +:+ "sub/").
  rewrite !(getR2Key_append options "d/") by done.
  symmetry in Hcontents.
  apply Permutation_length_2_inv in Hcontents as [-> | ->];
    eexists _, _; cbn [nonEmpty fmap list_fmap obj_Key cp_Prefix];
    (split; [reflexivity |]); (split; [| by split]).
  - done.
  - apply perm_swap.
Qed.

(** [readDir] against the reference store, on that directory. *)
Lemma readDir_example st :
  (∀ key, is_Some (objects (world st) !! key)
          ∧ inNamespace options key = true
          ↔ key ∈ [getR2Key options "d/a.txt"; getR2Key options "d/b.json";
                   getR2Key options "d/sub/c.md"]) →
  (3 ≤ maxKeys (config (world st)))%nat →
  noFaults 1 (world st) →
  ∃ st1, readDir P options "d" st
         = (Returned ["a.txt"; "b.json"; "sub/"], st1).
Proof.
  intros Hns Hpage Hcalm.
  eapply readDir_of_listing.
  - cbn [send platform]. rewrite (serve_calm _ _ 0 Hcalm). cbn [respond].
    reflexivity.
  - rewrite listObjects_nextFault. by apply listObjects_example.
Qed.

Lemma elem_of_namespaceKeys (m : gmap string StoredObject) key :
  key ∈ namespaceKeys options m
  ↔ is_Some (m !! key) ∧ inNamespace options key = true.
Proof.
  unfold namespaceKeys. rewrite list_elem_of_filter, elem_of_sortedKeys.
  split; intros [? ?]; by split.
Qed.

End OnMemStore.

(** ** The model on concrete inputs *)
Section Examples.

Example getR2Key_leading_slash : getR2Key Sample.opts "/d/a.txt" = "ns/d/a.txt".
Proof. reflexivity. Qed.

Example getR2Key_second_slash_kept : getR2Key Sample.bare "//a" = "/a".
Proof. reflexivity. Qed.

Example getLocalPath_outside_namespace :
  getLocalPath Sample.opts "other/x.txt" = "other/x.txt".
Proof. reflexivity. Qed.

Example getLocalPath_of_the_prefix :
  getLocalPath Sample.opts (getR2Key Sample.opts "ns") = "ns".
Proof. reflexivity. Qed.

Example getContentType_upper_case :
  getContentType "conf/app.JSON" = TypeString "application/json".
Proof. reflexivity. Qed.

Example getContentType_no_extension :
  getContentType "Makefile" = TypeString "application/octet-stream".
Proof. reflexivity. Qed.

Example getContentType_inherited :
  getContentType "a.constructor" = ObjectConstructor
  ∧ getContentType "a.__PROTO__" = ObjectPrototype
  ∧ getContentType "a.tostring" = TypeString "application/octet-stream".
Proof. repeat split; reflexivity. Qed.

Example normalizeDir_adds_slash : normalizeDir "d" = "d/" ∧ normalizeDir "d/" = "d/".
Proof. split; reflexivity. Qed.

Example isNotFoundError_by_status :
  isNotFoundError {| err_name := Some "NotFound"; err_httpStatusCode := Some 404 |}
  = true.
Proof. reflexivity. Qed.

Example isNotFoundError_unknown :
  isNotFoundError {| err_name := None; err_httpStatusCode := None |} = false.
Proof. reflexivity. Qed.

Example encode_accents :
  Utf8.encode Sample.accents = [0xC3; 0xA9; 0xE2; 0x82; 0xAC].
Proof. reflexivity. Qed.

Example encode_smiley :
  Utf8.encode Sample.smiley = [0xF0; 0x9F; 0x98; 0x80; 0x21].
Proof. reflexivity. Qed.

Example byteLength_accents : Utf8.byteLength Sample.accents = 5.
Proof. reflexivity. Qed.

Example lone_surrogate_is_replaced :
  Utf8.wellFormed [0xD83D] = false
  ∧ Utf8.decode (Utf8.encode [0xD83D]) = [0xFFFD].
Proof. split; reflexivity. Qed.

Example decode_resumes_at_offending_byte :
  Utf8.decode [0xE2; 0x82; 0x41] = [0xFFFD; 0x41].
Proof. reflexivity. Qed.

Example bodyStream_chunks :
  MemStore.bodyStream 1 [1; 2; 3; 4; 5]
  = StreamChunk [1; 2] (StreamChunk [3; 4] (StreamChunk [5] StreamEnd)).
Proof. reflexivity. Qed.

Example listing_of_the_tree :
  MemStore.listing (MemStore.objects (world Sample.tree)) "ns/d/" (Some "/")
  = [MemStore.EntryObject "ns/d/a.txt"; MemStore.EntryObject "ns/d/b.json";
     MemStore.EntryPrefix "ns/d/sub/"]
  ∧ MemStore.listing (MemStore.objects (world Sample.tree)) "ns/d/" None
    = [MemStore.EntryObject "ns/d/a.txt"; MemStore.EntryObject "ns/d/b.json";
       MemStore.EntryObject "ns/d/sub/c.md"].
Proof. vm_compute. split; reflexivity. Qed.

Example readFile_of_a_missing_file :
  (readFile Sample.P Sample.opts "nope.txt" Sample.oneFile).1
  = Thrown (FileNotFound "nope.txt").
Proof. vm_compute. reflexivity. Qed.

Example stat_after_write :
  (stat Sample.P Sample.opts "d/sub/c.md" Sample.tree).1
  = Returned {| st_size := 5; st_mtime := 5002; st_ctime := 5002;
                st_atime := 5002; st_mode := 420; st_isFile := true;
                st_isDirectory := false; st_isSymbolicLink := false |}.
Proof. vm_compute. reflexivity. Qed.

Example sort_is_by_code_unit : sort ["b"; "a/"; "B"; "a"] = ["B"; "a"; "a/"; "b"].
Proof. vm_compute. reflexivity. Qed.

End Examples.

(** ** The order [sort] uses *)
#[global] Instance str_le_total : Total str_le.
Proof. intros a b. unfold str_le. apply String.leb_total. Qed.

#[global] Instance str_le_antisymm : AntiSymm (=) str_le.
Proof. intros a b. unfold str_le. apply String.leb_antisym. Qed.

(** ** More about the operations, for any store client *)
Section MoreFacadeFacts.
Context {W : Type}.
Variable platform : Platform W.
Variable options : Options.

(** The statistics [stat] builds from a cache entry. *)
Lemma stat_hit path (st : State W) entry :
  cache st !! getR2Key options path = Some entry →
  stat platform options path st
  = (Returned {| st_size := ce_size entry;
                 st_mtime := ce_lastModified entry;
                 st_ctime := ce_lastModified entry;
                 st_atime := ce_lastModified entry;
                 st_mode := 420;
                 st_isFile := true;
                 st_isDirectory := false;
                 st_isSymbolicLink := false |}, st).
Proof.
  intros Hhit. unfold stat, try_catch, bind, cache_get, ret. by rewrite Hhit.
Qed.

(** A successful [writeFile] caches the byte length and the time of the
    write. *)
Lemma writeFile_entry path content (st st1 : State W) :
  writeFile platform options path content st = (Returned tt, st1) →
  ∃ tag, cache st1 !! getR2Key options path
         = Some {| ce_size := Utf8.byteLength content;
                   ce_lastModified := now platform (ticks st);
                   ce_etag := tag |}.
Proof.
  unfold writeFile, try_catch, bind, newDate, cache_set, throw,
    s3Client_send.
  destruct (send platform _ (world st)) as [[resp|e] w]; intros H;
    simplify_eq.
  cbn [cache ticks]. eexists. by rewrite lookup_insert_eq.
Qed.

(** A successful [stat] leaves the key cached with the size and the
    modification time it returned. *)
Lemma stat_entry path (st st1 : State W) stats :
  stat platform options path st = (Returned stats, st1) →
  ∃ tag, cache st1 !! getR2Key options path
         = Some {| ce_size := st_size stats;
                   ce_lastModified := st_mtime stats;
                   ce_etag := tag |}.
Proof.
  unfold stat, try_catch, bind, cache_get, cache_set, newDate, throw, ret.
  intros Hstat. destruct (cache st !! _) as [[sz lm tag]|] eqn:Hhit.
  - simplify_eq. cbn. by exists tag.
  - destruct (s3Client_send _ _ _) as [[resp|e] st0].
    + repeat case_match; simplify_eq; cbn [cache st_size st_mtime];
        eexists; by rewrite lookup_insert_eq.
    + repeat case_match; simplify_eq.
Qed.

(** A leading slash does not change the key. *)
Lemma getR2Key_leading_slash_ignored (p : string) :
  JsString.startsWith p "/" = false →
  getR2Key options ("/" +:+ p) = getR2Key options p.
Proof.
  intros Hrel. change ("/" +:+ p) with (String "/" p).
  unfold getR2Key at 1. unfold JsString.startsWith.
  rewrite prefix_cons, prefix_nil. cbn [Ascii.eqb Bool.eqb andb JsString.slice].
  by rewrite getR2Key_relative.
Qed.

Lemma try_catch_agree {E E' A} (body : Fs W E A) (h1 h2 : E → Fs W E' A) st :
  (∀ e s, agree (h1 e s) (h2 e s)) →
  agree (try_catch body h1 st) (try_catch body h2 st).
Proof.
  intros Hh. unfold try_catch. destruct (body st) as [[a|e] s]; [done |].
  apply Hh.
Qed.

(** *** The names [readDir] collects *)
Lemma for_of_invariant {E A B} (I : B → Prop) (l : list A)
    (body : A → B → Fs W E B) :
  (∀ x acc st acc' st', body x acc st = (Returned acc', st') → I acc → I acc') →
  ∀ acc st res st1,
    I acc → for_of l body acc st = (Returned res, st1) → I res.
Proof.
  intros Hbody. induction l as [|x l IH]; intros acc st res st1 Hacc;
    cbn [for_of].
  - unfold ret. by intros [= <- _].
  - intros (r0 & st0 & H0 & Hrest)%bind_inv.
    destruct r0 as [acc'|e]; [| by destruct Hrest].
    eapply IH; [| exact Hrest]. by eapply Hbody.
Qed.

Lemma endsWithSlash_append (d : string) :
  JsString.endsWithSlash (d +:+ "/") = true.
Proof.
  induction d as [|c d IH]; [done |].
  rewrite append_cons. cbn [JsString.endsWithSlash].
  destruct (d +:+ "/") eqn:E; [by destruct d | exact IH].
Qed.

Lemma entryName_directory (d : string) :
  JsString.truthy d = true → entryName (d +:+ "/") = true.
Proof.
  intros Hd. unfold entryName.
  by rewrite truthy_append, endsWithSlash_append, orb_true_r.
Qed.

Lemma readDir_object_names normalizedPath prefix object entries
    (st : State W) entries' st' :
  readDir_object options normalizedPath prefix object entries st
  = (Returned entries', st') →
  Forall (λ n, entryName n = true) entries →
  Forall (λ n, entryName n = true) entries'.
Proof.
  unfold readDir_object, bind, cache_set, ret. intros H Hall.
  repeat case_match; simplify_eq; try done.
  all: apply Forall_app; split; [done |]; apply Forall_singleton;
    unfold entryName;
    match goal with
    | Hn : (JsString.truthy ?f && negb (JsString.includesSlash ?f))%bool = true
      |- _ => apply andb_true_iff in Hn as [-> ->]
    end; done.
Qed.

Lemma readDir_prefix_names normalizedPath commonPrefix entries
    (st : State W) entries' st' :
  readDir_prefix options normalizedPath commonPrefix entries st
  = (Returned entries', st') →
  Forall (λ n, entryName n = true) entries →
  Forall (λ n, entryName n = true) entries'.
Proof.
  unfold readDir_prefix, ret. intros H Hall.
  repeat case_match; simplify_eq; try done.
  apply Forall_app; split; [done |]. apply Forall_singleton.
  by apply entryName_directory.
Qed.

(** *** The commands an operation sends *)
Lemma sends_nil (st : State W) : sends [] st st.
Proof. unfold sends. by rewrite app_nil_r. Qed.

Lemma sends_app l1 l2 (st st0 st1 : State W) :
  sends l1 st st0 → sends l2 st0 st1 → sends (l1 ++ l2) st st1.
Proof. unfold sends. intros H1 H2. by rewrite H2, H1, app_assoc. Qed.

Lemma s3Client_send_sends {R} (command : Command R) st r st1 :
  s3Client_send platform command st = (r, st1) →
  sends [existT R command] st st1.
Proof. apply s3Client_send_sent. Qed.

Lemma for_of_sends {E A B} (l : list A) (body : A → B → Fs W E B) :
  (∀ x acc st r st', body x acc st = (r, st') → sends [] st st') →
  ∀ acc st r st1, for_of l body acc st = (r, st1) → sends [] st st1.
Proof.
  intros Hbody. induction l as [|x l IH]; intros acc st r st1; cbn [for_of].
  - unfold ret. intros [= _ <-]. apply sends_nil.
  - intros (r0 & st0 & H0 & Hrest)%bind_inv.
    apply Hbody in H0. destruct r0 as [acc'|e].
    + apply IH in Hrest. apply (sends_app [] [] _ _ _ H0 Hrest).
    + by destruct Hrest as [_ ->].
Qed.

Lemma readFile_sends path st r st1 :
  readFile platform options path st = (r, st1) →
  sends [existT _ (GetObjectCommand (opt_bucket options) (getR2Key options path))]
    st st1.
Proof.
  unfold readFile, try_catch, bind, cache_get, cache_set, throw, ret.
  intros H. destruct (s3Client_send _ _ _) as [r0 st0] eqn:Hs.
  apply s3Client_send_sends in Hs. unfold sends in *.
  destruct r0 as [resp|e].
  - destruct (streamToString _ _) as [c st2] eqn:Hb.
    apply streamToString_state in Hb as ->.
    destruct c; repeat case_match; by simplify_eq.
  - repeat case_match; by simplify_eq.
Qed.

Lemma writeFile_sends path content st r st1 :
  writeFile platform options path content st = (r, st1) →
  sends [existT _ (PutObjectCommand (opt_bucket options)
                     (getR2Key options path) content (getContentType path))]
    st st1.
Proof.
  unfold writeFile, try_catch, bind, newDate, cache_set, throw.
  intros H. destruct (s3Client_send _ _ _) as [r0 st0] eqn:Hs.
  apply s3Client_send_sends in Hs. unfold sends in *.
  destruct r0; by simplify_eq.
Qed.

Lemma exists_sends path st r st1 :
  exists_ platform options path st = (r, st1) →
  sends (if bool_decide (is_Some (cache st !! getR2Key options path)) then []
         else [existT _ (HeadObjectCommand (opt_bucket options)
                           (getR2Key options path))])
    st st1.
Proof.
  unfold exists_, try_catch, bind, cache_has, cache_set, throw, ret.
  intros H. case_bool_decide.
  { simplify_eq. apply sends_nil. }
  destruct (s3Client_send _ _ _) as [r0 st0] eqn:Hs.
  apply s3Client_send_sends in Hs. unfold sends in *.
  destruct r0; repeat case_match; by simplify_eq.
Qed.

Lemma deleteFile_sends path st r st1 :
  deleteFile platform options path st = (r, st1) →
  sends [existT _ (DeleteObjectCommand (opt_bucket options)
                     (getR2Key options path))]
    st st1.
Proof.
  unfold deleteFile, try_catch, bind, cache_delete, throw, ret.
  intros H. destruct (s3Client_send _ _ _) as [r0 st0] eqn:Hs.
  apply s3Client_send_sends in Hs. unfold sends in *.
  destruct r0; repeat case_match; by simplify_eq.
Qed.

Lemma stat_sends path st r st1 :
  stat platform options path st = (r, st1) →
  sends (if bool_decide (is_Some (cache st !! getR2Key options path)) then []
         else [existT _ (HeadObjectCommand (opt_bucket options)
                           (getR2Key options path))])
    st st1.
Proof.
  unfold stat, try_catch, bind, cache_get, cache_set, newDate, throw, ret.
  intros H. destruct (cache st !! _) eqn:Hhit.
  { rewrite bool_decide_eq_true_2 by done. simplify_eq. apply sends_nil. }
  rewrite bool_decide_eq_false_2 by (by intros [? ?]).
  destruct (s3Client_send _ _ _) as [r0 st0] eqn:Hs.
  apply s3Client_send_sends in Hs. unfold sends in *.
  destruct r0; repeat case_match; by simplify_eq.
Qed.

Lemma readDir_sends path st r st1 :
  readDir platform options path st = (r, st1) →
  sends [existT _ (ListObjectsV2Command (opt_bucket options)
                     (getR2Key options (normalizeDir path)) (Some "/"))]
    st st1.
Proof.
  unfold readDir, try_catch, throw. intros H.
  destruct (bind _ _ st) as [r0 st2] eqn:Hbody.
  assert (st2 = st1) as -> by (destruct r0; by simplify_eq). clear H.
  apply bind_inv in Hbody as (r1 & st0 & Hs & Hbody).
  apply s3Client_send_sends in Hs.
  destruct r1 as [response|e]; [| by destruct Hbody as [_ ->]].
  apply bind_inv in Hbody as (r2 & st3 & Hfiles & Hbody).
  assert (H3 : sends [] st0 st3).
  { destruct (list_Contents response).
    - eapply for_of_sends; [| exact Hfiles].
      intros x acc s r' s'. unfold readDir_object, bind, cache_set, ret.
      intros Hstep. unfold sends. rewrite app_nil_r.
      repeat case_match; by simplify_eq.
    - unfold ret in Hfiles. simplify_eq. apply sends_nil. }
  apply (sends_app _ [] _ _ _ Hs) in H3. rewrite app_nil_r in H3.
  destruct r2 as [entries|e]; [| by destruct Hbody as [_ ->]].
  apply bind_inv in Hbody as (r3 & st4 & Hdirs & Hbody).
  assert (H4 : sends [] st3 st4).
  { destruct (list_CommonPrefixes response).
    - eapply for_of_sends; [| exact Hdirs].
      intros x acc s r' s'. unfold readDir_prefix, ret.
      intros Hstep. unfold sends. rewrite app_nil_r.
      repeat case_match; by simplify_eq.
    - unfold ret in Hdirs. simplify_eq. apply sends_nil. }
  apply (sends_app _ [] _ _ _ H3) in H4. rewrite app_nil_r in H4.
  destruct r3; [unfold ret in Hbody; by simplify_eq | by destruct Hbody as [_ ->]].
Qed.

Lemma deleteDir_sends path st r st1 :
  deleteDir platform options path st = (r, st1) →
  ∃ batch,
    sends (existT _ (ListObjectsV2Command (opt_bucket options)
                       (getR2Key options (normalizeDir path)) None) :: batch)
      st st1
    ∧ (batch = []
       ∨ ∃ keys, batch = [existT _ (DeleteObjectsCommand (opt_bucket options) keys)]).
Proof.
  unfold deleteDir, try_catch, throw. intros H.
  destruct (bind _ _ st) as [r0 st2] eqn:Hbody.
  assert (st2 = st1) as -> by (destruct r0; by simplify_eq). clear H.
  apply bind_inv in Hbody as (r1 & st0 & Hs & Hbody).
  apply s3Client_send_sends in Hs.
  destruct r1 as [response|e];
    [| destruct Hbody as [_ ->]; exists []; by auto].
  destruct (list_Contents response) as [[|o contents]|];
    try (unfold ret in Hbody; simplify_eq; exists []; by auto).
  destruct (omap _ _) as [|key keys];
    [unfold ret in Hbody; simplify_eq; exists []; by auto |].
  apply bind_inv in Hbody as (r2 & st3 & Hs2 & Hbody).
  apply s3Client_send_sends in Hs2.
  pose proof (sends_app _ _ _ _ _ Hs Hs2) as H2.
  exists [existT _ (DeleteObjectsCommand (opt_bucket options) (key :: keys))].
  split; [| right; by eexists].
  destruct r2 as [[]|e]; [| destruct Hbody as [_ ->]; exact H2].
  eapply for_of_sends in Hbody.
  - apply (sends_app _ [] _ _ _ H2) in Hbody. rewrite app_nil_r in Hbody.
    exact Hbody.
  - intros x acc s r' s'. unfold cache_delete. intros [= _ <-].
    unfold sends. by rewrite app_nil_r.
Qed.

(** [readDir] never drops a cache entry. *)
Lemma readDir_keeps path (st : State W) r st1 key :
  readDir platform options path st = (r, st1) →
  is_Some (cache st !! key) → is_Some (cache st1 !! key).
Proof.
  unfold readDir, try_catch, throw. intros H0 Hsome.
  destruct (bind _ _ st) as [r2 st2] eqn:Hbody.
  assert (st2 = st1) as -> by (destruct r, r2; by simplify_eq).
  clear H0.
  apply bind_inv in Hbody as (r1 & s0 & Hs & Hbody).
  apply s3Client_send_cache in Hs.
  assert (Hkeep : ∀ (l : list S3Object) np pf acc (s s' : State W) r,
            for_of l (readDir_object options np pf) acc s = (r, s') →
            is_Some (cache s !! key) → is_Some (cache s' !! key)).
  { induction l as [|x l IH]; intros np pf acc s s' r'; cbn [for_of].
    - unfold ret. by intros [= _ <-].
    - intros (r'' & s'' & Hx & Hrest)%bind_inv Hs0.
      assert (is_Some (cache s'' !! key)).
      { revert Hx. unfold readDir_object, bind, cache_set, ret.
        intros Hx. repeat case_match; simplify_eq; try done.
        all: cbn [cache]; rewrite lookup_insert_is_Some'; by right. }
      destruct r''; [by eapply IH | by destruct Hrest as [_ ->]]. }
  destruct r1 as [resp|err].
  2: { destruct Hbody as [_ ->]. by rewrite Hs. }
  apply bind_inv in Hbody as (r3 & s3 & Hloop & Hbody).
  assert (is_Some (cache s3 !! key)) as He3.
  { destruct (list_Contents resp).
    - eapply Hkeep; [exact Hloop |]. by rewrite Hs.
    - unfold ret in Hloop. simplify_eq. by rewrite Hs. }
  destruct r3 as [entries|err]; [| by destruct Hbody as [_ ->]].
  apply bind_inv in Hbody as (r4 & s4 & Hloop2 & Hbody).
  assert (Hpure : ∀ (l : list CommonPrefix) np acc (s s' : State W) r,
            for_of l (readDir_prefix options np) acc s = (r, s') → s' = s).
  { induction l as [|x l IH]; intros np acc s s' r'; cbn [for_of].
    - unfold ret. by intros [= _ <-].
    - unfold bind, readDir_prefix, ret.
      repeat case_match; simplify_eq; by eauto. }
  assert (s4 = s3) as ->.
  { destruct (list_CommonPrefixes resp).
    - by apply Hpure in Hloop2.
    - unfold ret in Hloop2. by simplify_eq. }
  destruct r4; unfold ret in Hbody;
    [by simplify_eq | by destruct Hbody as [_ ->]].
Qed.

(** *** Which operations consult the cache *)
Lemma cacheBlind_ret {E A} (a : A) : cacheBlind (W := W) (E := E) (ret a).
Proof. by intros st st' H. Qed.

Lemma cacheBlind_throw {E A} (e : E) : cacheBlind (W := W) (A := A) (throw e).
Proof. by intros st st' H. Qed.

Lemma cacheBlind_bind {E A B} (m : Fs W E A) (k : A → Fs W E B) :
  cacheBlind m → (∀ a, cacheBlind (k a)) → cacheBlind (bind m k).
Proof.
  intros Hm Hk st st' H. unfold bind.
  destruct (Hm st st' H) as [Hr Hw].
  destruct (m st) as [r s], (m st') as [r' s']. cbn [fst snd] in *. subst r'.
  destruct r as [a|e]; [by apply Hk | done].
Qed.

Lemma cacheBlind_try_catch {E E' A} (body : Fs W E A)
    (handler : E → Fs W E' A) :
  cacheBlind body → (∀ e, cacheBlind (handler e)) →
  cacheBlind (try_catch body handler).
Proof.
  intros Hm Hk st st' H. unfold try_catch.
  destruct (Hm st st' H) as [Hr Hw].
  destruct (body st) as [r s], (body st') as [r' s']. cbn [fst snd] in *.
  subst r'. destruct r as [a|e]; [done | by apply Hk].
Qed.

Lemma cacheBlind_send {R} (command : Command R) :
  cacheBlind (s3Client_send platform command).
Proof.
  intros st st' H. unfold s3Client_send. rewrite H.
  by destruct (send platform command (world st')).
Qed.

Lemma cacheBlind_cache_set {E} key entry :
  cacheBlind (W := W) (E := E) (cache_set key entry).
Proof. by intros st st' H. Qed.

Lemma cacheBlind_cache_delete {E} key :
  cacheBlind (W := W) (E := E) (cache_delete key).
Proof. by intros st st' H. Qed.

Lemma cacheBlind_for_of {E A B} (l : list A) (body : A → B → Fs W E B) :
  (∀ x acc, cacheBlind (body x acc)) → ∀ acc, cacheBlind (for_of l body acc).
Proof.
  intros Hbody. induction l as [|x l IH]; intros acc; cbn [for_of].
  - apply cacheBlind_ret.
  - by apply cacheBlind_bind.
Qed.

Lemma cacheBlind_streamToString body :
  cacheBlind (streamToString (W := W) body).
Proof.
  unfold streamToString. destruct body as [s|]; [| apply cacheBlind_ret].
  destruct (readChunks s []); [apply cacheBlind_ret | apply cacheBlind_throw].
Qed.

Lemma cacheBlind_readFile path : cacheBlind (readFile platform options path).
Proof.
  apply cacheBlind_try_catch.
  - (* the entry looked up first is not used *)
    assert (cacheBlind
              (let* response :=
                 s3Client_send platform
                   (GetObjectCommand (opt_bucket options)
                      (getR2Key options path)) in
               let* content := streamToString (get_Body response) in
               let* _ :=
                 match get_ContentLength response, get_LastModified response
                 with
                 | Some len, Some lm =>
                     cache_set (E := AwsError) (getR2Key options path)
                       {| ce_size := len; ce_lastModified := lm;
                          ce_etag := orEmpty (get_ETag response) |}
                 | _, _ => ret tt
                 end in
               ret content)) as Hrest.
    { apply cacheBlind_bind; [apply cacheBlind_send |]. intros response.
      apply cacheBlind_bind; [apply cacheBlind_streamToString |].
      intros content. apply cacheBlind_bind; [| intros; apply cacheBlind_ret].
      repeat case_match;
        first [apply cacheBlind_cache_set | apply cacheBlind_ret]. }
    intros st st' H. apply (Hrest st st' H).
  - intros e. case_match; apply cacheBlind_throw.
Qed.

Lemma cacheBlind_writeFile path content :
  cacheBlind (writeFile platform options path content).
Proof.
  apply cacheBlind_try_catch; [| intros; apply cacheBlind_throw].
  apply cacheBlind_bind; [apply cacheBlind_send |]. intros response.
  by intros st st' H.
Qed.

Lemma cacheBlind_deleteFile path :
  cacheBlind (deleteFile platform options path).
Proof.
  apply cacheBlind_try_catch.
  - apply cacheBlind_bind; [apply cacheBlind_send |]. intros _.
    apply cacheBlind_cache_delete.
  - intros e. case_match; [apply cacheBlind_throw | apply cacheBlind_ret].
Qed.

Lemma cacheBlind_readDir path : cacheBlind (readDir platform options path).
Proof.
  apply cacheBlind_try_catch; [| intros; apply cacheBlind_throw].
  apply cacheBlind_bind; [apply cacheBlind_send |]. intros response.
  apply cacheBlind_bind.
  - case_match; [| apply cacheBlind_ret].
    apply cacheBlind_for_of. intros object entries.
    unfold readDir_object. repeat case_match; try apply cacheBlind_ret.
    all: apply cacheBlind_bind;
      [first [apply cacheBlind_cache_set | apply cacheBlind_ret]
      | intros; apply cacheBlind_ret].
  - intros entries. apply cacheBlind_bind; [| intros; apply cacheBlind_ret].
    case_match; [| apply cacheBlind_ret].
    apply cacheBlind_for_of. intros commonPrefix acc.
    unfold readDir_prefix. repeat case_match; apply cacheBlind_ret.
Qed.

Lemma cacheBlind_deleteDir path : cacheBlind (deleteDir platform options path).
Proof.
  apply cacheBlind_try_catch; [| intros; apply cacheBlind_throw].
  apply cacheBlind_bind; [apply cacheBlind_send |]. intros response.
  destruct (list_Contents response) as [[|object contents]|];
    try apply cacheBlind_ret.
  cbv zeta.
  destruct (omap _ (object :: contents)) as [|key keys];
    [apply cacheBlind_ret |].
  apply cacheBlind_bind; [apply cacheBlind_send |]. intros _.
  apply cacheBlind_for_of. intros. apply cacheBlind_cache_delete.
Qed.

End MoreFacadeFacts.

(** ** More about the reference store *)
Section MoreOnMemStore.
Import MemStore.
Variable clock : nat → Z.
Variable options : Options.

Local Abbreviation P := (platform clock).

Ltac open_send H :=
  match type of H with
  | context [s3Client_send ?p ?c ?st] =>
      let r := fresh "r" in
      let st0 := fresh "st" in
      let Hs := fresh "Hs" in
      let Hc := fresh "Hc" in
      destruct (s3Client_send p c st) as [r st0] eqn:Hs;
      pose proof (s3Client_send_cache _ _ _ _ _ Hs) as Hc;
      apply s3Client_send_world in Hs; cbn [send platform] in Hs;
      cbn beta iota in H
  end.

Lemma serve_get_exact bucket key w resp w' :
  serve (GetObjectCommand bucket key) w = (Returned resp, w') →
  ∃ o, objects w !! key = Some o
       ∧ get_Body resp = Some (bodyStream (chunkSize (config w)) (so_body o))
       ∧ get_ContentLength resp = Some (Z.of_nat (length (so_body o)))
       ∧ get_LastModified resp = Some (so_lastModified o).
Proof.
  intros H.
  destruct (serve_cases (GetObjectCommand bucket key) w)
    as [(e & _ & E) | [_ E]]; rewrite E in H; clear E; [done |].
  cbn [respond] in H. rewrite nextFault_objects, nextFault_config in H.
  destruct (objects w !! key) as [o|]; simplify_eq. by exists o.
Qed.

Lemma serve_head_exact bucket key w resp w' :
  serve (HeadObjectCommand bucket key) w = (Returned resp, w') →
  ∃ o, objects w !! key = Some o
       ∧ head_ContentLength resp = Some (Z.of_nat (length (so_body o)))
       ∧ head_LastModified resp = Some (so_lastModified o).
Proof.
  intros H.
  destruct (serve_cases (HeadObjectCommand bucket key) w)
    as [(e & _ & E) | [_ E]]; rewrite E in H; clear E; [done |].
  cbn [respond] in H. rewrite nextFault_objects in H.
  destruct (objects w !! key) as [o|]; simplify_eq. by exists o.
Qed.

Lemma readFile_exact path st r st1 :
  readFile P options path st = (r, st1) →
  probe_exact (getR2Key options path) st st1.
Proof.
  unfold readFile, try_catch, bind, cache_get, cache_set, throw, ret.
  intros H. open_send H. pose proof (serve_get _ _ _ _ _ Hs) as [Ho _].
  destruct r0 as [resp|e].
  - apply serve_get_exact in Hs as (o & Hk & _ & Hlen & Hlm).
    rewrite Hlen, Hlm in H.
    destruct (streamToString _ _) as [c st2] eqn:Hb.
    apply streamToString_state in Hb as ->.
    destruct c as [content|e].
    + simplify_eq. cbn [cache world]. split; [done |]. right.
      rewrite Hc. by eexists _, o.
    + repeat case_match; simplify_eq; split; (done || by left).
  - repeat case_match; simplify_eq; by split; auto.
Qed.

Lemma exists_exact path st r st1 :
  exists_ P options path st = (r, st1) →
  probe_exact (getR2Key options path) st st1.
Proof.
  unfold exists_, try_catch, bind, cache_has, cache_set, throw, ret.
  intros H. case_bool_decide.
  { simplify_eq. by split; auto. }
  open_send H. pose proof (serve_head _ _ _ _ _ Hs) as [Ho _].
  destruct r0 as [resp|e].
  - apply serve_head_exact in Hs as (o & Hk & Hlen & Hlm).
    rewrite Hlen, Hlm in H. simplify_eq. cbn [cache world].
    split; [done |]. right. rewrite Hc. by eexists _, o.
  - repeat case_match; simplify_eq; by split; auto.
Qed.

Lemma stat_exact path st r st1 :
  stat P options path st = (r, st1) →
  probe_exact (getR2Key options path) st st1.
Proof.
  unfold stat, try_catch, bind, cache_get, cache_set, newDate, throw, ret.
  intros H. destruct (cache st !! _) eqn:Hhit.
  { simplify_eq. by split; auto. }
  open_send H. pose proof (serve_head _ _ _ _ _ Hs) as [Ho _].
  destruct r0 as [resp|e].
  - apply serve_head_exact in Hs as (o & Hk & Hlen & Hlm).
    rewrite Hlen, Hlm in H. simplify_eq. cbn [cache world].
    split; [done |]. right. rewrite Hc. by eexists _, o.
  - repeat case_match; simplify_eq; by split; auto.
Qed.

(** A successful [writeFile] stores the encoded content and caches its
    byte length; a failed one changes nothing. *)
Lemma writeFile_exact path content st r st1 :
  writeFile P options path content st = (r, st1) →
  match r with
  | Returned _ =>
      ∃ o entry,
        cache st1 = <[getR2Key options path := entry]> (cache st)
        ∧ objects (world st1)
          = <[getR2Key options path := o]> (objects (world st))
        ∧ so_body o = Utf8.encode content
        ∧ ce_size entry = Z.of_nat (length (so_body o))
  | Thrown _ =>
      cache st1 = cache st ∧ objects (world st1) = objects (world st)
  end.
Proof.
  unfold writeFile, try_catch, bind, newDate, cache_set, throw. intros H.
  open_send H. apply serve_put in Hs.
  destruct r0; simplify_eq; cbn [cache world].
  - destruct Hs as (o & Ho & Hb). eexists o, _. rewrite Hc.
    repeat split; [done | done |]. cbn [ce_size]. by rewrite Hb.
  - done.
Qed.

(** *** Listings, exactly *)
Lemma classify_object prefix delimiter key key' :
  classify prefix delimiter key' = Some (EntryObject key) →
  key' = key ∧ String.prefix prefix key = true.
Proof.
  unfold classify. destruct (String.prefix prefix key') eqn:Hp; [| done].
  intros H. repeat case_match; by simplify_eq.
Qed.

Lemma elem_of_listing_object m prefix delimiter key :
  EntryObject key ∈ listing m prefix delimiter →
  is_Some (m !! key) ∧ String.prefix prefix key = true.
Proof.
  unfold listing. rewrite elem_of_remove_dups, list_elem_of_omap.
  intros (key' & Hin & [-> Hp]%classify_object).
  by apply elem_of_sortedKeys in Hin.
Qed.

Lemma describe_exact m e obj :
  describe m e = Some obj →
  ∃ key o, e = EntryObject key ∧ m !! key = Some o
           ∧ obj_Key obj = Some key
           ∧ obj_Size obj = Some (Z.of_nat (length (so_body o))).
Proof.
  destruct e as [key|p]; cbn [describe]; [| done].
  destruct (m !! key) as [o|] eqn:E; cbn; [| done].
  intros [= <-]. by exists key, o.
Qed.

(** The objects a page of a listing reports are objects of the bucket under
    the prefix, with their byte length. *)
Lemma elem_of_page m prefix delimiter n obj :
  obj ∈ omap (describe m) (take n (listing m prefix delimiter)) →
  ∃ key o, obj_Key obj = Some key ∧ m !! key = Some o
           ∧ obj_Size obj = Some (Z.of_nat (length (so_body o)))
           ∧ String.prefix prefix key = true.
Proof.
  intros (e & Hin & Hd)%list_elem_of_omap.
  apply describe_exact in Hd as (key & o & -> & Ho & Hk & Hs).
  exists key, o. repeat split; try done.
  apply elem_of_take in Hin as (i & Hi & _).
  by apply list_elem_of_lookup_2, elem_of_listing_object in Hi as [_ ?].
Qed.

Lemma elem_of_listedKeys_inv w prefix key :
  key ∈ listedKeys w prefix →
  is_Some (objects w !! key) ∧ String.prefix prefix key = true.
Proof.
  unfold listedKeys. intros (obj & Hin & Hk)%list_elem_of_omap.
  apply truthyOpt_Some in Hk.
  apply elem_of_page in Hin as (key' & o & Hk' & Ho & _ & Hp).
  rewrite Hk in Hk'. by simplify_eq.
Qed.

Lemma readDir_object_exact normalizedPath prefix object entries
    (st : State Bucket) r st1 :
  readDir_object options normalizedPath prefix object entries st = (r, st1) →
  world st1 = world st
  ∧ ∀ k e, cache st1 !! k = Some e →
           cache st !! k = Some e
           ∨ (obj_Key object = Some k ∧ obj_Size object = Some (ce_size e)).
Proof.
  unfold readDir_object, bind, cache_set, ret. intros H.
  destruct (truthyOpt (obj_Key object)) as [key|] eqn:Hkey.
  2: { simplify_eq. by auto. }
  apply truthyOpt_Some in Hkey.
  repeat case_match; simplify_eq; cbn [cache world]; (split; [done |]);
    intros k e Hk; auto.
  destruct (decide (key = k)) as [->|Hne].
  - rewrite lookup_insert_eq in Hk. simplify_eq. by right.
  - rewrite lookup_insert_ne in Hk by done. by left.
Qed.

Lemma for_of_readDir_object_exact normalizedPath prefix contents :
  ∀ entries (st : State Bucket) r st1,
    for_of contents (readDir_object options normalizedPath prefix) entries st
    = (r, st1) →
    world st1 = world st
    ∧ ∀ k e, cache st1 !! k = Some e →
             cache st !! k = Some e
             ∨ ∃ obj, obj ∈ contents ∧ obj_Key obj = Some k
                      ∧ obj_Size obj = Some (ce_size e).
Proof.
  induction contents as [|obj contents IH]; intros entries st r st1;
    cbn [for_of].
  - unfold ret. intros [= _ <-]. by auto.
  - intros (r0 & st0 & H0 & Hrest)%bind_inv.
    apply readDir_object_exact in H0 as [Hw Hk0].
    destruct r0 as [entries'|err].
    + apply IH in Hrest as [Hw' Hk]. split; [congruence |].
      intros k e [Hc | (obj' & Hin & Hkey & Hsize)]%Hk.
      * destruct (Hk0 k e Hc) as [? | [? ?]]; [by left |].
        right. exists obj. split; [by left | done].
      * right. exists obj'. split; [by right | done].
    + destruct Hrest as [_ ->]. split; [done |].
      intros k e [? | [? ?]]%Hk0; [by left |].
      right. exists obj. split; [by left | done].
Qed.

Lemma readDir_exact path st r st1 :
  readDir P options path st = (r, st1) →
  objects (world st1) = objects (world st)
  ∧ ∀ k e, cache st1 !! k = Some e →
           cache st !! k = Some e
           ∨ (String.prefix (getR2Key options (normalizeDir path)) k = true
              ∧ ∃ o, objects (world st) !! k = Some o
                     ∧ ce_size e = Z.of_nat (length (so_body o))).
Proof.
  unfold readDir, try_catch, throw. intros H.
  destruct (bind _ _ st) as [r0 st2] eqn:Hbody.
  assert (st2 = st1) as -> by (destruct r0; by simplify_eq). clear H.
  apply bind_inv in Hbody as (r1 & st0 & Hs & Hbody).
  pose proof (s3Client_send_cache _ _ _ _ _ Hs) as Hc.
  apply s3Client_send_world in Hs. cbn [send platform] in Hs.
  apply serve_list in Hs as [Ho Hresp].
  destruct r1 as [resp|e]; [| destruct Hbody as [_ ->]; rewrite Hc; by auto].
  destruct (Hresp resp eq_refl) as [_ ->]. clear Hresp.
  rewrite listObjects_nextFault in Hbody.
  apply bind_inv in Hbody as (r2 & st3 & Hloop1 & Hbody).
  assert (world st3 = world st0
          ∧ ∀ k e, cache st3 !! k = Some e →
              cache st !! k = Some e
              ∨ (String.prefix (getR2Key options (normalizeDir path)) k = true
                 ∧ ∃ o, objects (world st) !! k = Some o
                        ∧ ce_size e = Z.of_nat (length (so_body o))))
    as [Hw3 Hk3].
  { cbn [list_Contents listObjects] in Hloop1.
    destruct (nonEmpty _) as [contents|] eqn:Hne.
    - apply nonEmpty_Some in Hne as ->.
      apply for_of_readDir_object_exact in Hloop1 as [Hw Hk]. split; [done |].
      intros k e [Hin | (obj & Hin & Hkey & Hsize)]%Hk;
        [left; by rewrite <- Hc |].
      right. apply elem_of_page in Hin as (key & o & Hkey' & Hobj & Hsz & Hp).
      rewrite Hkey in Hkey'. rewrite Hsize in Hsz. simplify_eq.
      split; [done |]. by exists o.
    - unfold ret in Hloop1. simplify_eq. split; [done |].
      intros k e Hk. left. by rewrite <- Hc. }
  destruct r2 as [entries|e];
    [| destruct Hbody as [_ ->]; split; [congruence | done]].
  apply bind_inv in Hbody as (r3 & st4 & Hloop2 & Hbody).
  assert (st4 = st3) as ->.
  { destruct (list_CommonPrefixes _).
    - by apply for_of_readDir_prefix in Hloop2.
    - unfold ret in Hloop2. by simplify_eq. }
  destruct r3; unfold ret in Hbody; [simplify_eq | destruct Hbody as [_ ->]];
    split; (congruence || done).
Qed.

Lemma for_of_cache_delete_exact keys :
  ∀ (st : State Bucket) r st1,
    for_of keys (λ key (_ : unit), cache_delete (E := AwsError) key) tt st
    = (r, st1) →
    ∀ k, cache st1 !! k = if decide (k ∈ keys) then None else cache st !! k.
Proof.
  induction keys as [|key keys IH]; intros st r st1; cbn [for_of].
  - unfold ret. intros [= _ <-] k.
    by rewrite decide_False by (by intros ?%elem_of_nil).
  - unfold bind, cache_delete. intros H k.
    rewrite (IH _ _ _ H k). cbn [cache].
    destruct (decide (k ∈ keys)) as [Hin|Hnin].
    + by rewrite decide_True by (by right).
    + destruct (decide (key = k)) as [->|Hne].
      * rewrite decide_True by (by left). apply lookup_delete_eq.
      * rewrite decide_False
          by (intros [?|?]%elem_of_cons; [congruence | done]).
        by apply lookup_delete_ne.
Qed.

(** What [deleteDir] removes: nothing, or the keys of the first page of the
    flat listing, from the bucket and from the cache alike. *)
Lemma deleteDir_exact path st r st1 :
  deleteDir P options path st = (r, st1) →
  ∃ keys,
    (keys = []
     ∨ keys = listedKeys (world st) (getR2Key options (normalizeDir path)))
    ∧ objects (world st1) = foldr delete (objects (world st)) keys
    ∧ ∀ k, cache st1 !! k = if decide (k ∈ keys) then None else cache st !! k.
Proof.
  unfold deleteDir, try_catch, throw. intros H.
  destruct (bind _ _ st) as [r0 st2] eqn:Hbody.
  assert (st2 = st1) as -> by (destruct r0; by simplify_eq). clear H.
  assert (Hnone : ∀ s : State Bucket,
            cache s = cache st → objects (world s) = objects (world st) →
            ∃ keys,
              (keys = []
               ∨ keys = listedKeys (world st)
                          (getR2Key options (normalizeDir path)))
              ∧ objects (world s) = foldr delete (objects (world st)) keys
              ∧ ∀ k, cache s !! k
                     = if decide (k ∈ keys) then None else cache st !! k).
  { intros s Hcs Hos. exists []. split; [by left |]. split; [done |].
    intros k. rewrite Hcs. by rewrite decide_False by (by intros ?%elem_of_nil). }
  apply bind_inv in Hbody as (r1 & st0 & Hs & Hbody).
  pose proof (s3Client_send_cache _ _ _ _ _ Hs) as Hc.
  apply s3Client_send_world in Hs. cbn [send platform] in Hs.
  apply serve_list in Hs as [Ho Hresp].
  destruct r1 as [resp|e]; [| destruct Hbody as [_ ->]; by apply Hnone].
  destruct (Hresp resp eq_refl) as [_ ->]. clear Hresp.
  rewrite listObjects_nextFault in Hbody.
  cbn [list_Contents listObjects] in Hbody.
  fold (listedKeys (world st) (getR2Key options (normalizeDir path))) in Hbody.
  set (keys := listedKeys (world st) (getR2Key options (normalizeDir path))) in *.
  destruct (nonEmpty _) as [contents|] eqn:Hne;
    [| unfold ret in Hbody; simplify_eq; by apply Hnone].
  apply nonEmpty_Some in Hne.
  assert (Hk : omap (λ obj, truthyOpt (obj_Key obj)) contents = keys)
    by (by subst contents).
  destruct contents as [|o contents];
    [unfold ret in Hbody; simplify_eq; by apply Hnone |].
  rewrite Hk in Hbody. clear Hk Hne.
  destruct keys as [|key keys'] eqn:Ekeys;
    [unfold ret in Hbody; simplify_eq; by apply Hnone |].
  apply bind_inv in Hbody as (r2 & st3 & Hs & Hbody).
  pose proof (s3Client_send_cache _ _ _ _ _ Hs) as Hc3.
  apply s3Client_send_world in Hs. cbn [send platform] in Hs.
  apply serve_deleteObjects in Hs.
  destruct r2 as [[]|e].
  - pose proof (for_of_cache_delete_exact _ _ _ _ Hbody) as Hcache.
    apply for_of_cache_delete in Hbody as (_ & Hw & _).
    exists (key :: keys'). split; [by right |]. rewrite Hw, Hs, Ho.
    split; [done |]. intros k. by rewrite Hcache, Hc3, Hc.
  - destruct Hbody as [_ ->]. apply Hnone; [congruence | by rewrite Hs, Ho].
Qed.

(** *** Keys and the namespace *)
Lemma inNamespace_prefix path key :
  String.prefix (getR2Key options path) key = true →
  inNamespace options key = true.
Proof.
  unfold getR2Key, inNamespace.
  destruct (JsString.truthy (opt_prefix options)); [| done].
  rewrite <- append_assoc. apply prefix_append_l.
Qed.

Lemma prefix_refl (s : string) : String.prefix s s = true.
Proof. rewrite <- (append_nil_r s) at 2. apply prefix_append. Qed.

Lemma inNamespace_getR2Key path :
  inNamespace options (getR2Key options path) = true.
Proof. apply (inNamespace_prefix path), prefix_refl. Qed.

(** *** The cache stays accurate *)
Lemma probe_accurate path st st1 :
  probe_exact (getR2Key options path) st st1 →
  accurate options st → accurate options st1.
Proof.
  intros [Ho [Hc | (entry & o & Hc & Hk & Hsize)]] Hacc k e; rewrite Ho, Hc.
  - apply Hacc.
  - destruct (decide (getR2Key options path = k)) as [<-|Hne].
    + rewrite lookup_insert_eq. intros [= <-].
      split; [apply inNamespace_getR2Key | by exists o].
    + rewrite lookup_insert_ne by done. apply Hacc.
Qed.

Lemma perform_accurate op st :
  accurate options st → accurate options (perform P options op st).2.
Proof.
  intros Hacc.
  destruct (perform P options op st) as [r st1] eqn:H. cbn [snd].
  destruct op; cbn [perform] in H;
    apply bind_inv in H as (r0 & st0 & H0 & H);
    assert (st1 = st0) as ->
      by (destruct r0; [unfold ret in H; by simplify_eq | by destruct H]);
    clear H.
  - eapply probe_accurate; [by eapply readFile_exact | done].
  - apply writeFile_exact in H0. destruct r0.
    + destruct H0 as (o & entry & Hc & Ho & _ & Hsize).
      intros k en. rewrite Hc, Ho.
      destruct (decide (getR2Key options path = k)) as [<-|Hne].
      * rewrite !lookup_insert_eq. intros [= <-].
        split; [apply inNamespace_getR2Key | by exists o].
      * rewrite !lookup_insert_ne by done. apply Hacc.
    + destruct H0 as [Hc Ho]. intros k en. rewrite Hc, Ho. apply Hacc.
  - eapply probe_accurate; [by eapply exists_exact | done].
  - apply deleteFile_effect in H0. destruct r0.
    + destruct H0 as [[Hc Ho] | (Hc & Ho & _)]; intros k en; rewrite Hc, Ho.
      * destruct (decide (getR2Key options path = k)) as [<-|Hne].
        -- by rewrite lookup_delete_eq.
        -- rewrite !lookup_delete_ne by done. apply Hacc.
      * apply Hacc.
    + destruct H0 as [Hc Ho]. intros k en. rewrite Hc, Ho. apply Hacc.
  - apply readDir_exact in H0 as [Ho Hk]. intros k en Hin. rewrite Ho.
    destruct (Hk k en Hin) as [Hold | [Hp Hobj]]; [by apply Hacc |].
    split; [by eapply inNamespace_prefix | done].
  - apply deleteDir_exact in H0 as (keys & _ & Ho & Hc).
    intros k en. rewrite Hc, Ho. destruct (decide (k ∈ keys)) as [|Hnin]; [done |].
    intros [Hns (o & Hobj & Hsize)]%Hacc. split; [done |]. exists o.
    split; [| done].
    destruct (lookup_foldr_delete_is_Some (objects (world st)) keys k)
      as [_ [o' Ho']]; [by eauto |].
    clear Ho. revert Hnin Hobj. clear. revert o.
    induction keys as [|key keys IH]; intros o Hnin Hobj; cbn [foldr]; [done |].
    apply not_elem_of_cons in Hnin as [Hne Hnin].
    rewrite lookup_delete_ne by done. by apply IH.
  - eapply probe_accurate; [by eapply stat_exact | done].
  - unfold ensureDir, ret in H0. by simplify_eq.
  - unfold chmod, ret in H0. by simplify_eq.
Qed.

Lemma session_accurate ops st :
  accurate options st → accurate options (session P options ops st).
Proof.
  revert st. induction ops as [|op ops IH]; intros st Hacc; cbn [session].
  - done.
  - by apply IH, perform_accurate.
Qed.

Lemma fresh_accurate w : accurate options (fresh w).
Proof. intros k e. cbn [fresh cache]. by rewrite lookup_empty. Qed.

Lemma accurate_coherent st : accurate options st → coherent st.
Proof.
  intros Hacc k [e He]. destruct (Hacc k e He) as [_ (o & Ho & _)]. by exists o.
Qed.

(** *** A key the bucket does not have *)
Lemma readFile_absent path st :
  objects (world st) !! getR2Key options path = None →
  noFaults 1 (world st) →
  ∃ st1, readFile P options path st = (Thrown (FileNotFound path), st1).
Proof.
  intros Ho Hcalm.
  unfold readFile, try_catch, bind, cache_get, s3Client_send, ret.
  cbn [send platform]. rewrite (serve_calm _ _ 0 Hcalm).
  cbn [respond]. rewrite nextFault_objects, Ho. cbn. by eexists.
Qed.

Lemma stat_absent path st :
  cache st !! getR2Key options path = None →
  objects (world st) !! getR2Key options path = None →
  noFaults 1 (world st) →
  ∃ st1, stat P options path st = (Thrown (FileNotFound path), st1).
Proof.
  intros Hc Ho Hcalm.
  unfold stat, try_catch, bind, cache_get, s3Client_send, ret.
  rewrite Hc. cbn [send platform]. rewrite (serve_calm _ _ 0 Hcalm).
  cbn [respond]. rewrite nextFault_objects, Ho. cbn. by eexists.
Qed.

Lemma coherent_absent st key :
  coherent st → objects (world st) !! key = None → cache st !! key = None.
Proof.
  intros Hcoh Ho. destruct (cache st !! key) eqn:E; [| done].
  destruct (Hcoh key) as [o Hox]; [by eauto | congruence].
Qed.

(** What [exists] answers, when it answers. *)
Lemma exists_answer path st b st1 :
  coherent st → honest (world st) →
  exists_ P options path st = (Returned b, st1) →
  b = bool_decide (is_Some (objects (world st) !! getR2Key options path)).
Proof.
  intros Hcoh Hhonest.
  unfold exists_, try_catch, bind, cache_has, cache_set, throw, ret,
    s3Client_send.
  case_bool_decide as Hhit.
  { intros [= <- _]. symmetry. apply bool_decide_eq_true_2. by apply Hcoh. }
  cbn [send platform].
  destruct (serve_cases (HeadObjectCommand (opt_bucket options)
                           (getR2Key options path)) (world st))
    as [(e & Hf & E) | [_ E]]; rewrite E; clear E.
  - rewrite (honest_nextFault _ _ Hhonest Hf). by intros.
  - cbn [respond]. rewrite nextFault_objects.
    destruct (objects (world st) !! _) as [o|] eqn:Ho.
    + intros [= <- _]. symmetry.
      first [done | by apply bool_decide_eq_true_2].
    + cbn. intros [= <- _]. symmetry.
      first [done | apply bool_decide_eq_false_2; by intros [? ?]].
Qed.

(** *** What the operations leave alone *)
Lemma lookup_foldr_delete_notin (m : gmap string StoredObject) keys key :
  key ∉ keys → foldr delete m keys !! key = m !! key.
Proof.
  induction keys as [|k keys IH]; [done |].
  intros [Hne Hnin]%not_elem_of_cons. cbn [foldr].
  rewrite lookup_delete_ne by done. by apply IH.
Qed.

(** A single-file operation changes the bucket, if at all, at its key. *)
Lemma perform_footprint op st key :
  (∀ path, op = OpReadDir path ∨ op = OpDeleteDir path →
           String.prefix (getR2Key options (normalizeDir path)) key = false) →
  fileKey options op ≠ Some key →
  objects (world (perform P options op st).2) !! key
  = objects (world st) !! key
  ∧ cache (perform P options op st).2 !! key = cache st !! key.
Proof.
  intros Hdir Hfile.
  destruct (perform P options op st) as [r st1] eqn:H. cbn [snd].
  assert (Hprobe : ∀ path s, fileKey options op = Some (getR2Key options path) →
            probe_exact (getR2Key options path) st s →
            objects (world s) !! key = objects (world st) !! key
            ∧ cache s !! key = cache st !! key).
  { intros path s Hop [Ho [Hc | (entry & o & Hc & _)]]; rewrite Ho, Hc;
      [done |].
    rewrite lookup_insert_ne; [done |]. intros Heq. apply Hfile.
    by rewrite Hop, Heq. }
  destruct op; cbn [perform] in H;
    apply bind_inv in H as (r0 & st0 & H0 & H);
    assert (st1 = st0) as ->
      by (destruct r0; [unfold ret in H; by simplify_eq | by destruct H]);
    clear H.
  - apply (Hprobe path); [done | by eapply readFile_exact].
  - assert (getR2Key options path ≠ key)
      by (intros Heq; apply Hfile; cbn [fileKey]; by rewrite Heq).
    apply writeFile_exact in H0. destruct r0.
    + destruct H0 as (o & entry & Hc & Ho & _). rewrite Hc, Ho.
      by rewrite !lookup_insert_ne.
    + destruct H0 as [-> ->]. done.
  - apply (Hprobe path); [done | by eapply exists_exact].
  - assert (getR2Key options path ≠ key)
      by (intros Heq; apply Hfile; cbn [fileKey]; by rewrite Heq).
    apply deleteFile_effect in H0. destruct r0.
    + destruct H0 as [[Hc Ho] | (Hc & Ho & _)]; rewrite Hc, Ho; [| done].
      by rewrite !lookup_delete_ne.
    + destruct H0 as [-> ->]. done.
  - pose proof (readDir_exact _ _ _ _ H0) as [Ho Hk]. rewrite Ho.
    split; [done |].
    specialize (Hdir path (or_introl eq_refl)).
    destruct (cache st0 !! key) as [e|] eqn:E.
    + destruct (Hk key e E) as [-> | [Hp _]]; [done | congruence].
    + destruct (cache st !! key) as [e|] eqn:E'; [| done].
      exfalso. eapply readDir_keeps in H0 as [? ?]; [| by eauto].
      congruence.
  - apply deleteDir_exact in H0 as (keys & Hkeys & Ho & Hc).
    specialize (Hdir path (or_intror eq_refl)).
    assert (Hnin : key ∉ keys).
    { destruct Hkeys as [-> | ->]; [by intros ?%elem_of_nil |].
      intros [_ Hp]%elem_of_listedKeys_inv. congruence. }
    rewrite Ho, Hc, decide_False by done.
    by rewrite lookup_foldr_delete_notin.
  - apply (Hprobe path); [done | by eapply stat_exact].
  - unfold ensureDir, ret in H0. by simplify_eq.
  - unfold chmod, ret in H0. by simplify_eq.
Qed.

(** Outside the namespace nothing changes. *)
Lemma perform_outside op st key :
  inNamespace options key = false →
  objects (world (perform P options op st).2) !! key
  = objects (world st) !! key
  ∧ cache (perform P options op st).2 !! key = cache st !! key.
Proof.
  intros Hout. apply perform_footprint.
  - intros path _.
    destruct (String.prefix _ key) eqn:E; [| done].
    apply inNamespace_prefix in E. congruence.
  - destruct op; cbn [fileKey]; try done; intros [= <-];
      by rewrite inNamespace_getR2Key in Hout.
Qed.

Lemma session_outside ops st key :
  inNamespace options key = false →
  objects (world (session P options ops st)) !! key
  = objects (world st) !! key.
Proof.
  intros Hout. revert st.
  induction ops as [|op ops IH]; intros st; cbn [session]; [done |].
  rewrite IH. by apply perform_outside.
Qed.

(** *** An empty directory *)
Lemma omap_none {A B} (f : A → option B) (l : list A) :
  (∀ x, x ∈ l → f x = None) → omap f l = [].
Proof.
  intros H. destruct (omap f l) as [|y l'] eqn:E; [done |].
  assert (Hy : y ∈ omap f l) by (rewrite E; apply list_elem_of_here).
  apply list_elem_of_omap in Hy as (x & Hx & Hfx).
  rewrite (H x Hx) in Hfx. done.
Qed.

Lemma listing_nil (m : gmap string StoredObject) prefix delimiter :
  (∀ key, is_Some (m !! key) → String.prefix prefix key = false) →
  listing m prefix delimiter = [].
Proof.
  intros H. unfold listing. rewrite omap_none; [done |].
  intros key Hkey%elem_of_sortedKeys. unfold classify. by rewrite H.
Qed.

Lemma listObjects_nil w prefix delimiter :
  (∀ key, is_Some (objects w !! key) → String.prefix prefix key = false) →
  list_Contents (listObjects w prefix delimiter) = None
  ∧ list_CommonPrefixes (listObjects w prefix delimiter) = None.
Proof.
  intros H. unfold listObjects. cbn [list_Contents list_CommonPrefixes].
  rewrite listing_nil by done. by rewrite take_nil.
Qed.

Lemma readDir_empty path st :
  (∀ key, is_Some (objects (world st) !! key) →
          String.prefix (getR2Key options (normalizeDir path)) key = false) →
  noFaults 1 (world st) →
  ∃ st1, readDir P options path st = (Returned [], st1)
         ∧ cache st1 = cache st.
Proof.
  intros Hnone Hcalm.
  unfold readDir, try_catch, bind, s3Client_send, ret.
  cbn [send platform]. rewrite (serve_calm _ _ 0 Hcalm). cbn [respond].
  destruct (listObjects_nil (nextFault (world st)).2
              (getR2Key options (normalizeDir path)) (Some "/")) as [-> ->].
  { intros key. rewrite nextFault_objects. apply Hnone. }
  by eexists.
Qed.


Lemma truthy_prefix (a b : string) :
  JsString.truthy a = true → String.prefix a b = true →
  JsString.truthy b = true.
Proof. destruct a, b; done. Qed.

(** After a directory was deleted, its listing is empty. *)
Lemma deleteDir_then_empty path st st1 key :
  deleteDir P options path st = (Returned tt, st1) →
  (length (listing (objects (world st))
             (getR2Key options (normalizeDir path)) None)
   ≤ maxKeys (config (world st)))%nat →
  JsString.truthy (getR2Key options (normalizeDir path)) = true →
  is_Some (objects (world st1) !! key) →
  String.prefix (getR2Key options (normalizeDir path)) key = false.
Proof.
  intros Hdel Hfit Ht Hkey.
  destruct (String.prefix _ key) eqn:Hp; [| done]. exfalso.
  destruct (deleteDir_clears clock options _ _ _ Hdel Hfit)
    as (keys & _ & Hgone).
  destruct (deleteDir_exact _ _ _ _ Hdel) as (keys' & _ & Ho & _).
  assert (is_Some (objects (world st) !! key)) as Hbefore.
  { rewrite Ho in Hkey. by apply lookup_foldr_delete_is_Some in Hkey as [? _]. }
  destruct (Hgone key Hbefore Hp (truthy_prefix _ _ Ht Hp)) as (_ & _ & Hnone).
  rewrite Hnone in Hkey. by destruct Hkey.
Qed.

(** What [readFile] returns, and what it leaves in the cache. *)
Lemma readFile_returned path st content st1 :
  readFile P options path st = (Returned content, st1) →
  ∃ o, objects (world st) !! getR2Key options path = Some o
       ∧ content = Utf8.decode (so_body o)
       ∧ cache st1 !! getR2Key options path
         = Some {| ce_size := Z.of_nat (length (so_body o));
                   ce_lastModified := so_lastModified o;
                   ce_etag := so_etag o |}.
Proof.
  unfold readFile, try_catch, bind, cache_get, cache_set, throw, ret.
  intros H. open_send H.
  destruct r as [resp|e]; [| repeat case_match; by simplify_eq].
  destruct (serve_cases (GetObjectCommand (opt_bucket options)
                           (getR2Key options path)) (world st))
    as [(e & _ & E) | [_ E]]; rewrite E in Hs; clear E; [done |].
  cbn [respond] in Hs. rewrite nextFault_objects, nextFault_config in Hs.
  destruct (objects (world st) !! getR2Key options path) as [o|] eqn:Ho;
    [| done].
  injection Hs as <- Hw. cbn [get_Body get_ContentLength get_LastModified
                                get_ETag orEmpty] in H.
  rewrite streamToString_bodyStream in H. injection H as <- <-.
  exists o. cbn [cache]. by rewrite lookup_insert_eq.
Qed.

(** *** A listing longer than a page *)
Lemma elem_of_listedKeys_page w prefix key :
  key ∈ listedKeys w prefix →
  EntryObject key ∈ take (maxKeys (config w)) (listing (objects w) prefix None).
Proof.
  unfold listedKeys.
  intros (obj & (e & Hin & Hd)%list_elem_of_omap & Hkey)%list_elem_of_omap.
  apply describe_exact in Hd as (key' & o & -> & _ & Hk & _).
  rewrite Hk in Hkey. apply truthyOpt_Some in Hkey.
  by injection Hkey as <-.
Qed.

(** [deleteDir] sends one listing and does not ask for the rest of a
    truncated one: what lies beyond the first page stays in the bucket,
    however the call ends. *)
Lemma deleteDir_truncated path st r st1 :
  deleteDir P options path st = (r, st1) →
  (maxKeys (config (world st))
   < length (listing (objects (world st))
               (getR2Key options (normalizeDir path)) None))%nat →
  ∃ key, String.prefix (getR2Key options (normalizeDir path)) key = true
         ∧ is_Some (objects (world st) !! key)
         ∧ objects (world st1) !! key = objects (world st) !! key.
Proof.
  intros Hdel Hlong.
  set (prefix := getR2Key options (normalizeDir path)) in *.
  set (all := listing (objects (world st)) prefix None) in *.
  set (n := maxKeys (config (world st))) in *.
  destruct (lookup_lt_is_Some_2 all n Hlong) as [e He].
  assert (Hall : e ∈ all) by (by eapply list_elem_of_lookup_2).
  assert (∃ key, e = EntryObject key) as [key ->].
  { unfold all, listing in Hall.
    rewrite elem_of_remove_dups, list_elem_of_omap in Hall.
    destruct Hall as (key & _ & Hcl). rewrite classify_flat in Hcl.
    destruct (String.prefix prefix key); [| done].
    injection Hcl as <-. by exists key. }
  apply elem_of_listing_flat in Hall as [Hobj Hp].
  exists key. split; [done |]. split; [done |].
  apply deleteDir_exact in Hdel as (keys & Hkeys & -> & _).
  apply lookup_foldr_delete_notin.
  destruct Hkeys as [-> | ->]; [by intros ?%elem_of_nil |].
  intros Hin%elem_of_listedKeys_page. fold prefix all n in Hin.
  assert (Hnodup : NoDup (take n all ++ drop n all)).
  { rewrite take_drop. apply NoDup_remove_dups. }
  apply NoDup_app in Hnodup as (_ & Hdisjoint & _).
  apply (Hdisjoint _ Hin). apply (list_elem_of_lookup_2 _ 0).
  by rewrite lookup_drop, Nat.add_0_r.
Qed.

(** When the listing fits in one page, the directory goes: after
    [d/x.txt] and [d/y/z.txt] have been written, a successful
    [deleteDir "d"] names both keys, whatever their depth, in its batch
    delete, and leaves neither in the bucket nor in the cache; the two
    existence checks that follow, if the store answers them, both return
    false. *)
Lemma deleteDir_recursive_within_a_page (c1 c2 : list Z)
    (st0 st1 st2 st3 : State Bucket) :
  writeFile P options "d/x.txt" c1 st0 = (Returned tt, st1) →
  writeFile P options "d/y/z.txt" c2 st1 = (Returned tt, st2) →
  (length (listing (objects (world st2)) (getR2Key options "d/") None)
   ≤ maxKeys (config (world st2)))%nat →
  deleteDir P options "d" st2 = (Returned tt, st3) →
  noFaults 2 (world st3) →
  (∃ keys,
     last (sent st3)
     = Some (existT _ (DeleteObjectsCommand (opt_bucket options) keys))
     ∧ getR2Key options "d/x.txt" ∈ keys
     ∧ getR2Key options "d/y/z.txt" ∈ keys)
  ∧ (∀ key, key ∈ [getR2Key options "d/x.txt"; getR2Key options "d/y/z.txt"] →
            cache st3 !! key = None
            ∧ objects (world st3) !! key = None)
  ∧ ∃ st4 st5,
      exists_ P options "d/x.txt" st3 = (Returned false, st4)
      ∧ exists_ P options "d/y/z.txt" st4 = (Returned false, st5).
Proof.
  intros Hw1 Hw2 Hfit Hdel Hcalm.
  apply writeFile_effect in Hw1 as (o1 & e1 & _ & Ho1 & _).
  apply writeFile_effect in Hw2 as (o2 & e2 & _ & Ho2 & _).
  assert (Hx : is_Some (objects (world st2) !! getR2Key options "d/x.txt")).
  { rewrite Ho2, Ho1.
    destruct (decide (getR2Key options "d/y/z.txt" = getR2Key options "d/x.txt"))
      as [->|Hne]; [by rewrite lookup_insert_eq |].
    rewrite lookup_insert_ne by done. by rewrite lookup_insert_eq. }
  assert (Hy : is_Some (objects (world st2) !! getR2Key options "d/y/z.txt")).
  { rewrite Ho2. by rewrite lookup_insert_eq. }
  assert (Hsub : ∀ rest, String.prefix (getR2Key options "d/")
                           (getR2Key options ("d/" +:+ rest)) = true
                         ∧ JsString.truthy (getR2Key options ("d/" +:+ rest)) = true).
  { intros rest. rewrite (getR2Key_append options "d/" rest) by done. split.
    - apply prefix_append.
    - apply truthy_append. by apply getR2Key_truthy. }
  destruct (Hsub "x.txt") as [Hpx Htx]. destruct (Hsub "y/z.txt") as [Hpy Hty].
  destruct (deleteDir_clears clock options "d" st2 st3)
    as (keys & Hlast & Hclear); [done | done |].
  destruct (Hclear (getR2Key options "d/x.txt")) as (Hinx & Hcx & Hox);
    [done | done | done |].
  destruct (Hclear (getR2Key options "d/y/z.txt")) as (Hiny & Hcy & Hoy);
    [done | done | done |].
  split.
  { exists keys. split; [| done].
    apply Hlast. intros ->. by apply elem_of_nil in Hinx. }
  split.
  { intros key [->|[->|[]%elem_of_nil]%elem_of_cons]%elem_of_cons; by split. }
  destruct (exists_absent clock options "d/x.txt" st3)
    as (st4 & Hex & Hc4 & Ho4 & Hf4); [done | done | |].
  { apply (noFaults_le 1 2); [lia | done]. }
  destruct (exists_absent clock options "d/y/z.txt" st4)
    as (st5 & Hey & _); [by rewrite Hc4 | by rewrite Ho4 | |].
  { by apply (noFaults_step 1 (world st3)). }
  by exists st4, st5.
Qed.

End MoreOnMemStore.

(** ** Construction *)
Section ConstructionFacts.
Import JsSearch.

Lemma prefix_app_long (p s t : string) :
  (String.length p ≤ String.length s)%nat →
  String.prefix p (s +:+ t) = String.prefix p s.
Proof.
  revert s. induction p as [|c p IH]; intros s Hlen.
  - by rewrite !prefix_nil.
  - destruct s as [|d s]; [cbn in Hlen; lia |].
    rewrite append_cons, !prefix_cons. cbn [String.length] in Hlen.
    rewrite IH by lia. done.
Qed.

Lemma includes_occurrence (pre p post : string) :
  includes (pre +:+ p +:+ post) p = true.
Proof.
  induction pre as [|c pre IH].
  - rewrite append_nil_l.
    destruct (p +:+ post) eqn:E; cbn [includes]; rewrite <- E;
      by rewrite prefix_append.
  - rewrite append_cons. cbn [includes]. by rewrite IH, orb_true_r.
Qed.

Lemma replace_occurrence (s p : string) :
  String.prefix p s = true → replace s p "" = JsString.slice (String.length p) s.
Proof. intros H. destruct s; cbn [replace]; by rewrite H. Qed.

(** The first occurrence of [b.] is the one that goes. *)
Lemma replace_first (pre b post : string) :
  includes (pre +:+ b) (b +:+ ".") = false →
  replace (pre +:+ (b +:+ ".") +:+ post) (b +:+ ".") "" = pre +:+ post.
Proof.
  induction pre as [|c pre IH]; intros Hfirst.
  - rewrite append_nil_l, replace_occurrence by apply prefix_append.
    by rewrite slice_append.
  - rewrite append_cons in Hfirst. cbn [includes] in Hfirst.
    apply orb_false_iff in Hfirst as [Hhere Hlater].
    rewrite !append_cons. cbn [replace].
    assert (String.prefix (b +:+ ".")
              (String c (pre +:+ (b +:+ ".") +:+ post)) = false) as ->.
    { rewrite <- append_cons.
      trans (String.prefix (b +:+ ".") (String c pre +:+ b));
        [| by rewrite append_cons].
      replace (String c pre +:+ (b +:+ ".") +:+ post)
        with ((String c pre +:+ b) +:+ ("." +:+ post))
        by (by rewrite !append_assoc).
      apply prefix_app_long. rewrite !length_append. cbn [String.length]. lia. }
    by rewrite IH.
Qed.

Lemma endsWith_append (u p : string) : endsWith (u +:+ p) p = true.
Proof.
  induction u as [|c u IH].
  - rewrite append_nil_l. destruct p; cbn [endsWith];
      by rewrite String.eqb_refl.
  - rewrite append_cons. cbn [endsWith]. by rewrite IH, orb_true_r.
Qed.

Lemma substring_append (u p : string) :
  String.substring 0 (String.length u) (u +:+ p) = u.
Proof.
  induction u as [|c u IH]; [by destruct p |].
  rewrite append_cons. cbn [String.length String.substring]. by rewrite IH.
Qed.

Lemma sliceEnd_append (u p : string) :
  sliceEnd (u +:+ p) (String.length p) = u.
Proof.
  unfold sliceEnd. rewrite length_append.
  replace (String.length u + String.length p - String.length p)%nat
    with (String.length u) by lia.
  apply substring_append.
Qed.

Lemma stripTrailingSlash_id (s : string) :
  JsString.endsWithSlash s = false → JsString.stripTrailingSlash s = s.
Proof.
  induction s as [|c s IH]; [done |].
  cbn [JsString.endsWithSlash JsString.stripTrailingSlash].
  destruct s as [|d s]; [by intros -> |].
  intros H. by rewrite IH.
Qed.

Lemma stripTrailingSlash_append (s : string) :
  JsString.stripTrailingSlash (s +:+ "/") = s.
Proof.
  induction s as [|c s IH]; [done |].
  rewrite append_cons. cbn [JsString.stripTrailingSlash].
  destruct (s +:+ "/") eqn:E; [by destruct s |]. by rewrite IH.
Qed.

(** A string ends as its suffix does. *)
Lemma endsWith_endsWithSlash (s p : string) :
  endsWith s p = true → JsString.truthy p = true →
  JsString.endsWithSlash s = JsString.endsWithSlash p.
Proof.
  intros H Hp. induction s as [|c s IH].
  - cbn [endsWith] in H. rewrite orb_false_r in H.
    apply String.eqb_eq in H. by subst p.
  - cbn [endsWith] in H. apply orb_true_iff in H as [H|H].
    + apply String.eqb_eq in H. by subst p.
    + rewrite <- (IH H). destruct s as [|d s]; [| done].
      cbn [endsWith] in H. rewrite orb_false_r in H.
      apply String.eqb_eq in H. by subst p.
Qed.

Lemma orElse_truthy (x : option string) (d : string) :
  JsString.truthy d = true → JsString.truthy (orElse x d) = true.
Proof.
  intros Hd. unfold orElse, truthyOpt.
  destruct x as [s|]; [| done]. by destruct (JsString.truthy s) eqn:E.
Qed.

(** *** The content type *)
Lemma lowerChar_dot (c : ascii) :
  Ascii.eqb (JsString.lowerChar c) "." = Ascii.eqb c ".".
Proof. by destruct c as [[] [] [] [] [] [] [] []]. Qed.

Lemma lastDotSegment_dotFree (acc s : string) :
  dotFree s = true → JsString.lastDotSegment acc s = acc.
Proof.
  revert acc. induction s as [|c s IH]; intros acc; [done |].
  cbn [dotFree JsString.lastDotSegment].
  intros [Hc Hs]%andb_true_iff. apply negb_true_iff in Hc. rewrite Hc.
  by apply IH.
Qed.

Lemma lastDotSegment_append (acc stem ext : string) :
  dotFree ext = true →
  JsString.lastDotSegment acc (stem +:+ "." +:+ ext) = ext.
Proof.
  intros Hext. revert acc. induction stem as [|c stem IH]; intros acc.
  - rewrite append_nil_l. change ("." +:+ ext) with (String "." ext).
    cbn [JsString.lastDotSegment Ascii.eqb Bool.eqb].
    by apply lastDotSegment_dotFree.
  - rewrite append_cons. cbn [JsString.lastDotSegment].
    destruct (Ascii.eqb c "."); apply IH.
Qed.

Lemma lowerChar_idem (c : ascii) :
  JsString.lowerChar (JsString.lowerChar c) = JsString.lowerChar c.
Proof. by destruct c as [[] [] [] [] [] [] [] []]. Qed.

Lemma toLowerCase_idem (s : string) :
  JsString.toLowerCase (JsString.toLowerCase s) = JsString.toLowerCase s.
Proof.
  induction s as [|c s IH]; [done |].
  cbn [JsString.toLowerCase]. by rewrite lowerChar_idem, IH.
Qed.

Lemma dotFree_toLowerCase (s : string) :
  dotFree (JsString.toLowerCase s) = dotFree s.
Proof.
  induction s as [|c s IH]; [done |].
  cbn [JsString.toLowerCase dotFree]. by rewrite lowerChar_dot, IH.
Qed.

(** *** What the constructor leaves *)
Lemma constructor_returned (options : CloudflareR2Options) (this : Instance) :
  constructor options = Returned this →
  JsString.truthy (r2_accountId options) = true
  ∧ JsString.truthy (r2_accessKeyId options) = true
  ∧ JsString.truthy (r2_secretAccessKey options) = true
  ∧ JsString.truthy (r2_bucket options) = true
  ∧ this_options this = resolve options
  ∧ s3_endpoint (this_s3Client this) = clientEndpoint (resolve options)
  ∧ s3_region (this_s3Client this) = ro_region (resolve options).
Proof.
  unfold constructor. cbn [resolve ro_accountId ro_accessKeyId
                             ro_secretAccessKey ro_bucket].
  destruct (JsString.truthy (r2_accountId options)); [| done].
  destruct (JsString.truthy (r2_accessKeyId options)); [| done].
  destruct (JsString.truthy (r2_secretAccessKey options)); [| done].
  destruct (JsString.truthy (r2_bucket options)); [| done].
  cbn [negb]. by intros [= <-].
Qed.

End ConstructionFacts.

(** ** The files of a directory *)
Section ListingFacts.
Import MemStore.
Variable clock : nat → Z.
Variable options : Options.
Variable dir : string.
Hypothesis dir_relative : JsString.startsWith dir "/" = false.
Hypothesis dir_named : JsString.truthy dir = true.

Lemma prefix_split (a c : string) :
  String.prefix a c = true → c = a +:+ JsString.slice (String.length a) c.
Proof.
  revert c. induction a as [|x a IH]; intros c; [done |].
  destruct c as [|y c]; [done |].
  rewrite prefix_cons. intros [Hxy Hac]%andb_true_iff.
  apply Ascii.eqb_eq in Hxy as ->.
  rewrite append_cons. cbn [String.length JsString.slice]. f_equal.
  by apply IH.
Qed.

Lemma relative_append (rest : string) :
  JsString.startsWith (dir +:+ rest) "/" = false.
Proof.
  destruct dir as [|c d]; [done |]. rewrite append_cons.
  unfold JsString.startsWith in *. rewrite prefix_cons in *.
  by rewrite prefix_nil in *.
Qed.

(** One round of the loop over the objects, on a key under the prefix of
    the directory. *)
Lemma readDir_object_under {W} (object : S3Object) (rest : string)
    (entries : list string) (st : State W) :
  obj_Key object = Some (getR2Key options dir +:+ rest) →
  readDir_object options dir (getR2Key options dir) object entries st
  = if (JsString.truthy rest && negb (JsString.includesSlash rest))%bool
    then
      (Returned (entries ++ [rest]),
       match obj_Size object, obj_LastModified object with
       | Some sz, Some lm =>
           {| cache := <[getR2Key options dir +:+ rest :=
                           {| ce_size := sz; ce_lastModified := lm;
                              ce_etag := orEmpty (obj_ETag object) |}]>
                         (cache st);
              sent := sent st; world := world st; ticks := ticks st |}
       | _, _ => st
       end)
    else (Returned entries, st).
Proof.
  intros Hkey. unfold readDir_object. rewrite Hkey. cbn [truthyOpt].
  rewrite truthy_append by (by apply getR2Key_truthy).
  destruct rest as [|c rest].
  - by rewrite append_nil_r, String.eqb_refl.
  - rewrite append_ne_self by done. cbn [negb].
    rewrite <- getR2Key_append by done.
    rewrite decode_encode by apply relative_append.
    unfold JsString.substring. rewrite slice_append.
    destruct (_ && _)%bool; [| done].
    unfold bind, cache_set, ret.
    by destruct (obj_Size object), (obj_LastModified object).
Qed.

(** The loop over the objects of a page: the names it adds are those of
    the objects directly under the directory, and each of them is cached
    on the way. *)
Lemma for_of_readDir_object_files {W} (contents : list S3Object) :
  Forall (λ obj, ∃ rest, obj_Key obj = Some (getR2Key options dir +:+ rest)
                         ∧ is_Some (obj_Size obj)
                         ∧ is_Some (obj_LastModified obj)) contents →
  ∀ entries (st : State W) r st1,
    for_of contents (readDir_object options dir (getR2Key options dir))
      entries st = (r, st1) →
    ∃ entries',
      r = Returned entries'
      ∧ (∀ n, n ∈ entries'
              ↔ n ∈ entries
                ∨ (JsString.truthy n = true
                   ∧ JsString.includesSlash n = false
                   ∧ ∃ obj, obj ∈ contents
                            ∧ obj_Key obj
                              = Some (getR2Key options dir +:+ n)))
      ∧ (∀ n, n ∈ entries' →
              n ∈ entries
              ∨ is_Some (cache st1 !! (getR2Key options dir +:+ n)))
      ∧ (∀ k, is_Some (cache st !! k) → is_Some (cache st1 !! k)).
Proof.
  induction 1 as [|obj contents (rest & Hkey & [sz Hsz] & [lm Hlm]) _ IH];
    intros entries st r st1; cbn [for_of].
  - unfold ret. intros [= <- <-]. exists entries. split; [done |].
    split; [| by auto]. intros n. split; [by auto |].
    intros [? | (_ & _ & obj & []%elem_of_nil & _)]. done.
  - unfold bind. rewrite (readDir_object_under obj rest) by done.
    rewrite Hsz, Hlm.
    destruct (_ && _)%bool eqn:Hchild.
    + apply andb_true_iff in Hchild as [Hname Hflat%negb_true_iff].
      intros (entries' & -> & Hnames & Hcached & Hmono)%IH.
      exists entries'. split; [done |]. split; [| split].
      * intros n. rewrite Hnames, elem_of_app, list_elem_of_singleton.
        split.
        -- intros [[? | ->] | (? & ? & obj' & ? & ?)]; [by auto | |].
           ++ right. repeat split; try done. exists obj.
              split; [apply list_elem_of_here | done].
           ++ right. repeat split; try done. exists obj'.
              split; [by apply list_elem_of_further | done].
        -- intros [? | (? & ? & obj' & [-> | ?]%elem_of_cons & Hkey')];
             [by auto | |].
           ++ rewrite Hkey in Hkey'. injection Hkey' as ->%append_inj.
              by auto.
           ++ right. repeat split; try done. by exists obj'.
      * intros n [[? | ->%list_elem_of_singleton]%elem_of_app | ?]%Hcached;
          [by auto | | by auto].
        right. apply Hmono. cbn [cache]. rewrite lookup_insert_is_Some'.
        by left.
      * intros k Hk. apply Hmono. cbn [cache].
        rewrite lookup_insert_is_Some'. by right.
    + intros (entries' & -> & Hnames & Hcached & Hmono)%IH.
      exists entries'. split; [done |]. split; [| by split].
      intros n. rewrite Hnames. split.
      * intros [? | (? & ? & obj' & ? & ?)]; [by auto |].
        right. repeat split; try done. exists obj'.
        split; [by apply list_elem_of_further | done].
      * intros [? | (Hn & Hf & obj' & [-> | ?]%elem_of_cons & Hkey')];
          [by auto | |].
        -- rewrite Hkey in Hkey'. injection Hkey' as ->%append_inj.
           by rewrite Hn, Hf in Hchild.
        -- right. repeat split; try done. by exists obj'.
Qed.

(** The loop over the common prefixes adds names that end with a slash. *)
Lemma for_of_readDir_prefix_dirs {W} (prefixes : list CommonPrefix) :
  ∀ entries (st : State W) r st1,
    for_of prefixes (readDir_prefix options dir) entries st = (r, st1) →
    st1 = st
    ∧ ∃ entries', r = Returned entries'
        ∧ (∀ n, n ∈ entries → n ∈ entries')
        ∧ (∀ n, n ∈ entries' →
                n ∈ entries ∨ JsString.endsWithSlash n = true).
Proof.
  induction prefixes as [|cp prefixes IH]; intros entries st r st1;
    cbn [for_of].
  - unfold ret. intros [= <- <-]. split; [done |]. exists entries. by auto.
  - unfold bind.
    assert (∃ added,
              readDir_prefix options dir cp entries st
              = (Returned (entries ++ added), st)
              ∧ Forall (λ n, JsString.endsWithSlash n = true) added)
      as (added & -> & Hadded).
    { unfold readDir_prefix, ret.
      repeat case_match;
        first [ exists []; by rewrite app_nil_r
              | eexists [_]; split; [done |];
                apply Forall_singleton, endsWithSlash_append ]. }
    intros [-> (entries' & -> & Hkeep & Hnew)]%IH. split; [done |].
    exists entries'. split; [done |]. split.
    + intros n Hn. apply Hkeep, elem_of_app. by left.
    + intros n [[? | Hn]%elem_of_app | ?]%Hnew; [by auto | | by auto].
      right. by eapply (proj1 (Forall_forall _ _) Hadded).
Qed.

Lemma index_flat (n : string) :
  JsString.includesSlash n = false → String.index 0 "/" n = None.
Proof.
  induction n as [|c n IH]; [done |].
  cbn [JsString.includesSlash]. intros [Hc Hn]%orb_false_iff.
  cbn [String.index]. rewrite prefix_cons, Ascii.eqb_sym, Hc. cbn [andb].
  by rewrite IH.
Qed.

(** What a page reports about an object. *)
Lemma page_shape (m : gmap string StoredObject) delimiter k obj :
  obj ∈ omap (describe m)
          (take k (listing m (getR2Key options dir) delimiter)) →
  ∃ rest, obj_Key obj = Some (getR2Key options dir +:+ rest)
          ∧ is_Some (obj_Size obj)
          ∧ is_Some (obj_LastModified obj)
          ∧ is_Some (m !! (getR2Key options dir +:+ rest)).
Proof.
  intros (e & Hin & Hd)%list_elem_of_omap.
  destruct e as [key|]; cbn [describe] in Hd; [| done].
  destruct (m !! key) as [o|] eqn:Ho; cbn in Hd; [| done].
  injection Hd as <-. cbn [obj_Key obj_Size obj_LastModified].
  apply elem_of_take in Hin as (i & Hi & _).
  apply list_elem_of_lookup_2, elem_of_listing_object in Hi as [_ Hp].
  apply prefix_split in Hp.
  exists (JsString.slice (String.length (getR2Key options dir)) key).
  rewrite <- Hp, Ho. by eauto.
Qed.

Lemma page_child (m : gmap string StoredObject) k n :
  JsString.includesSlash n = false →
  is_Some (m !! (getR2Key options dir +:+ n)) →
  (length (listing m (getR2Key options dir) (Some "/")) ≤ k)%nat →
  ∃ obj, obj ∈ omap (describe m)
                 (take k (listing m (getR2Key options dir) (Some "/")))
         ∧ obj_Key obj = Some (getR2Key options dir +:+ n).
Proof.
  intros Hflat [o Ho] Hfit. rewrite take_ge by done.
  eexists. split.
  - apply list_elem_of_omap. exists (EntryObject (getR2Key options dir +:+ n)).
    split.
    + unfold listing. rewrite elem_of_remove_dups, list_elem_of_omap.
      exists (getR2Key options dir +:+ n).
      split; [by apply elem_of_sortedKeys |].
      by rewrite classify_child, index_flat.
    + cbn [describe]. rewrite Ho. reflexivity.
  - done.
Qed.

(** *** Subdirectories *)
Lemma index_first (rest : string) (i : nat) :
  String.index 0 "/" rest = Some i →
  ∃ d tail, rest = d +:+ "/" +:+ tail
            ∧ JsString.includesSlash d = false
            ∧ String.substring 0 (i + 1) rest = d +:+ "/".
Proof.
  revert i. induction rest as [|c rest IH]; intros i; [done |].
  cbn [String.index]. rewrite prefix_cons, prefix_nil, andb_true_r.
  destruct (Ascii.eqb "/" c) eqn:Hc.
  - intros [= <-]. apply Ascii.eqb_eq in Hc as <-.
    exists "", rest. repeat split. cbn [Nat.add String.substring].
    by destruct rest.
  - destruct (String.index 0 "/" rest) as [j|]; [| done].
    intros [= <-]. destruct (IH j eq_refl) as (d & tail & -> & Hflat & Hsub).
    exists (String c d), tail.
    split; [reflexivity |]. split.
    + cbn [JsString.includesSlash]. by rewrite Ascii.eqb_sym, Hc, Hflat.
    + cbn [Nat.add String.substring]. rewrite Hsub. reflexivity.
Qed.

Lemma index_at (d tail : string) :
  JsString.includesSlash d = false →
  String.index 0 "/" (d +:+ "/" +:+ tail) = Some (String.length d).
Proof.
  induction d as [|c d IH].
  - intros _. rewrite append_nil_l.
    change ("/" +:+ tail) with (String "/" tail). cbn [String.index].
    by rewrite prefix_cons, prefix_nil.
  - cbn [JsString.includesSlash]. intros [Hc Hd]%orb_false_iff.
    rewrite append_cons. cbn [String.index].
    rewrite prefix_cons, Ascii.eqb_sym, Hc. cbn [andb].
    by rewrite IH.
Qed.

Lemma classify_subdirectory (prefix d tail : string) :
  JsString.includesSlash d = false →
  classify prefix (Some "/") (prefix +:+ d +:+ "/" +:+ tail)
  = Some (EntryPrefix (prefix +:+ d +:+ "/")).
Proof.
  intros Hflat. rewrite classify_child, index_at by done.
  replace (String.length d + 1)%nat with (String.length (d +:+ "/"))
    by (rewrite length_append; reflexivity).
  rewrite <- (append_assoc d "/" tail). by rewrite substring_append.
Qed.

(** One round of the loop over the common prefixes, on a prefix under the
    directory. *)
Lemma readDir_prefix_under {W} (commonPrefix : CommonPrefix) (d : string)
    (entries : list string) (st : State W) :
  cp_Prefix commonPrefix = Some (getR2Key options dir +:+ d +:+ "/") →
  readDir_prefix options dir commonPrefix entries st
  = (Returned (if JsString.truthy d then entries ++ [d +:+ "/"] else entries),
     st).
Proof.
  intros Hkey. unfold readDir_prefix. rewrite Hkey. cbn [truthyOpt].
  rewrite truthy_append by (by apply getR2Key_truthy).
  rewrite <- getR2Key_append by done.
  rewrite decode_encode by apply relative_append.
  unfold JsString.substring.
  rewrite slice_append, stripTrailingSlash_append.
  by destruct (JsString.truthy d).
Qed.

Lemma for_of_readDir_prefix_exact {W} (prefixes : list CommonPrefix) :
  Forall (λ cp, ∃ d, cp_Prefix cp
                     = Some (getR2Key options dir +:+ d +:+ "/")) prefixes →
  ∀ entries (st : State W) r st1,
    for_of prefixes (readDir_prefix options dir) entries st = (r, st1) →
    st1 = st
    ∧ ∃ entries',
        r = Returned entries'
        ∧ ∀ n, n ∈ entries'
               ↔ n ∈ entries
                 ∨ ∃ d, n = d +:+ "/" ∧ JsString.truthy d = true
                        ∧ ∃ cp, cp ∈ prefixes
                                ∧ cp_Prefix cp
                                  = Some (getR2Key options dir +:+ d +:+ "/").
Proof.
  induction 1 as [|cp prefixes [d Hkey] _ IH]; intros entries st r st1;
    cbn [for_of].
  - unfold ret. intros [= <- <-]. split; [done |]. exists entries.
    split; [done |]. intros n. split; [by auto |].
    intros [? | (? & _ & _ & cp & []%elem_of_nil & _)]. done.
  - unfold bind. rewrite (readDir_prefix_under cp d) by done.
    intros [-> (entries' & -> & Hnames)]%IH. split; [done |].
    exists entries'. split; [done |]. intros n. rewrite Hnames.
    assert (Hsame : ∀ d', cp_Prefix cp
                          = Some (getR2Key options dir +:+ d' +:+ "/") →
                          d' = d).
    { intros d' Hkey'. rewrite Hkey in Hkey'.
      injection Hkey' as Heq%append_inj.
      apply (f_equal JsString.stripTrailingSlash) in Heq.
      by rewrite !stripTrailingSlash_append in Heq. }
    destruct (JsString.truthy d) eqn:Hd.
    + rewrite elem_of_app, list_elem_of_singleton. split.
      * intros [[? | ->] | (d' & ? & ? & cp' & ? & ?)]; [by auto | |].
        -- right. exists d. repeat split; try done. exists cp.
           split; [apply list_elem_of_here | done].
        -- right. exists d'. repeat split; try done. exists cp'.
           split; [by apply list_elem_of_further | done].
      * intros [? | (d' & -> & ? & cp' & [-> | ?]%elem_of_cons & Hkey')];
          [by auto | |].
        -- rewrite (Hsame d' Hkey'). by auto.
        -- right. exists d'. repeat split; try done. by exists cp'.
    + split.
      * intros [? | (d' & ? & ? & cp' & ? & ?)]; [by auto |].
        right. exists d'. repeat split; try done. exists cp'.
        split; [by apply list_elem_of_further | done].
      * intros [? | (d' & -> & Hd' & cp' & [-> | ?]%elem_of_cons & Hkey')];
          [by auto | |].
        -- rewrite (Hsame d' Hkey') in Hd'. congruence.
        -- right. exists d'. repeat split; try done. by exists cp'.
Qed.

(** What a page reports about a group. *)
Lemma group_shape (m : gmap string StoredObject) k cp :
  cp ∈ omap groupOf (take k (listing m (getR2Key options dir) (Some "/"))) →
  ∃ d tail, cp_Prefix cp = Some (getR2Key options dir +:+ d +:+ "/")
            ∧ JsString.includesSlash d = false
            ∧ is_Some (m !! (getR2Key options dir +:+ d +:+ "/" +:+ tail)).
Proof.
  intros (e & Hin & Hg)%list_elem_of_omap.
  destruct e as [|p]; cbn [groupOf] in Hg; [done |]. injection Hg as <-.
  apply elem_of_take in Hin as (i & Hi & _).
  apply list_elem_of_lookup_2 in Hi. unfold listing in Hi.
  rewrite elem_of_remove_dups, list_elem_of_omap in Hi.
  destruct Hi as (key & Hkey%elem_of_sortedKeys & Hcl).
  pose proof (classify_prefix _ _ _ _ Hcl) as Hp%prefix_split.
  rewrite Hp, classify_child in Hcl.
  destruct (String.index 0 "/" _) as [j|] eqn:Hj; [| done].
  injection Hcl as <-.
  apply index_first in Hj as (d & tail & Hrest & Hflat & ->).
  exists d, tail. split; [done |]. split; [done |].
  by rewrite <- Hrest, <- Hp.
Qed.

Lemma group_child (m : gmap string StoredObject) k d tail :
  JsString.includesSlash d = false →
  is_Some (m !! (getR2Key options dir +:+ d +:+ "/" +:+ tail)) →
  (length (listing m (getR2Key options dir) (Some "/")) ≤ k)%nat →
  ∃ cp, cp ∈ omap groupOf
               (take k (listing m (getR2Key options dir) (Some "/")))
        ∧ cp_Prefix cp = Some (getR2Key options dir +:+ d +:+ "/").
Proof.
  intros Hflat Hobj Hfit. rewrite take_ge by done.
  eexists. split.
  - apply list_elem_of_omap.
    exists (EntryPrefix (getR2Key options dir +:+ d +:+ "/")).
    split; [| reflexivity].
    unfold listing. rewrite elem_of_remove_dups, list_elem_of_omap.
    exists (getR2Key options dir +:+ d +:+ "/" +:+ tail).
    split; [by apply elem_of_sortedKeys |].
    by apply classify_subdirectory.
  - done.
Qed.

(** *** The names [readDir] returns, from the page the store answers
    with *)
Lemma readDir_names path st names st1 :
  normalizeDir path = dir →
  readDir (platform clock) options path st = (Returned names, st1) →
  let page := take (maxKeys (config (world st)))
                (listing (objects (world st)) (getR2Key options dir)
                   (Some "/")) in
  (∀ n, n ∈ names
        ↔ (JsString.truthy n = true
           ∧ JsString.includesSlash n = false
           ∧ ∃ obj, obj ∈ omap (describe (objects (world st))) page
                    ∧ obj_Key obj = Some (getR2Key options dir +:+ n))
          ∨ (∃ d, n = d +:+ "/" ∧ JsString.truthy d = true
                  ∧ ∃ cp, cp ∈ omap groupOf page
                          ∧ cp_Prefix cp
                            = Some (getR2Key options dir +:+ d +:+ "/")))
  ∧ (∀ n, n ∈ names → JsString.includesSlash n = false →
          is_Some (cache st1 !! (getR2Key options dir +:+ n))).
Proof.
  intros Hdir H page. unfold readDir, try_catch, throw in H.
  rewrite Hdir in H.
  destruct (bind _ _ st) as [r0 st2] eqn:Hbody.
  destruct r0 as [names'|e]; [| done]. injection H as -> ->.
  apply bind_inv in Hbody as (r1 & st0 & Hs & Hbody).
  apply s3Client_send_world in Hs. cbn [send platform] in Hs.
  apply serve_list in Hs as [_ Hresp].
  destruct r1 as [resp|e]; [| by destruct Hbody].
  destruct (Hresp resp eq_refl) as [_ ->]. clear Hresp.
  rewrite listObjects_nextFault in Hbody.
  apply bind_inv in Hbody as (r2 & st3 & Hloop1 & Hbody).
  set (m := objects (world st)) in *.
  set (contents := omap (describe m) page).
  set (groups := omap groupOf page).
  assert (∃ entries,
            r2 = Returned entries
            ∧ (∀ n, n ∈ entries
                    ↔ JsString.truthy n = true
                      ∧ JsString.includesSlash n = false
                      ∧ ∃ obj, obj ∈ contents
                               ∧ obj_Key obj
                                 = Some (getR2Key options dir +:+ n))
            ∧ (∀ n, n ∈ entries →
                    is_Some (cache st3 !! (getR2Key options dir +:+ n))))
    as (entries & -> & Hentries & Hcached).
  { cbn [list_Contents listObjects] in Hloop1.
    fold m page contents in Hloop1.
    destruct (nonEmpty contents) as [contents'|] eqn:Hne.
    - apply nonEmpty_Some in Hne as ->.
      apply for_of_readDir_object_files in Hloop1
        as (entries & -> & Hnames & Hcached & _).
      + exists entries. split; [done |]. split.
        * intros n. rewrite Hnames. split; [| by auto].
          by intros [[]%elem_of_nil | ?].
        * intros n [[]%elem_of_nil | ?]%Hcached. done.
      + apply Forall_forall. intros obj Hobj.
        apply page_shape in Hobj as (rest & ? & ? & ? & _). by exists rest.
    - unfold ret in Hloop1. injection Hloop1 as <- <-.
      exists []. split; [done |]. split; [| by intros n []%elem_of_nil].
      intros n. split; [by intros []%elem_of_nil |].
      intros (_ & _ & obj & Hobj & _). destruct contents; [| done].
      by apply elem_of_nil in Hobj. }
  apply bind_inv in Hbody as (r3 & st4 & Hloop2 & Hbody).
  assert (st4 = st3
          ∧ ∃ entries',
              r3 = Returned entries'
              ∧ ∀ n, n ∈ entries'
                     ↔ n ∈ entries
                       ∨ ∃ d, n = d +:+ "/" ∧ JsString.truthy d = true
                              ∧ ∃ cp, cp ∈ groups
                                      ∧ cp_Prefix cp
                                        = Some (getR2Key options dir
                                                +:+ d +:+ "/"))
    as (-> & entries' & -> & Hentries').
  { cbn [list_CommonPrefixes listObjects] in Hloop2.
    fold m page groups in Hloop2.
    destruct (nonEmpty groups) as [groups'|] eqn:Hne.
    - apply nonEmpty_Some in Hne as ->.
      apply for_of_readDir_prefix_exact in Hloop2; [done |].
      apply Forall_forall. intros cp Hcp.
      apply group_shape in Hcp as (d & _ & ? & _). by exists d.
    - unfold ret in Hloop2. injection Hloop2 as <- <-.
      split; [done |]. exists entries. split; [done |].
      intros n. split; [by auto |].
      intros [? | (d & _ & _ & cp & Hcp & _)]; [done |].
      destruct groups; [| done]. by apply elem_of_nil in Hcp. }
  unfold ret in Hbody. injection Hbody as <- <-.
  split.
  - intros n. unfold sort. rewrite merge_sort_Permutation, Hentries'.
    by rewrite Hentries.
  - intros n Hn Hflat. unfold sort in Hn.
    rewrite merge_sort_Permutation in Hn.
    apply Hentries' in Hn as [Hn | (d & -> & _)]; [by apply Hcached |].
    exfalso. clear -Hflat. induction d as [|c d IH]; [done |].
    rewrite append_cons in Hflat. cbn [JsString.includesSlash] in Hflat.
    apply orb_false_iff in Hflat as [_ Hflat]. by apply IH.
Qed.

Lemma includesSlash_endsWithSlash (n : string) :
  JsString.includesSlash n = false → JsString.endsWithSlash n = false.
Proof.
  induction n as [|c n IH]; [done |].
  cbn [JsString.includesSlash JsString.endsWithSlash].
  intros [Hc Hn]%orb_false_iff. destruct n; [done | by apply IH].
Qed.

(** The names without a slash that [readDir] returns are the names of the
    objects directly under the directory, and their keys are cached. *)
Lemma readDir_files path st names st1 :
  normalizeDir path = dir →
  readDir (platform clock) options path st = (Returned names, st1) →
  (∀ n, n ∈ names → JsString.endsWithSlash n = false →
        JsString.truthy n = true
        ∧ JsString.includesSlash n = false
        ∧ is_Some (objects (world st) !! (getR2Key options dir +:+ n))
        ∧ is_Some (cache st1 !! (getR2Key options dir +:+ n)))
  ∧ ((length (listing (objects (world st)) (getR2Key options dir) (Some "/"))
      ≤ maxKeys (config (world st)))%nat →
     ∀ n, JsString.truthy n = true → JsString.includesSlash n = false →
          is_Some (objects (world st) !! (getR2Key options dir +:+ n)) →
          n ∈ names).
Proof.
  intros Hdir Hread.
  destruct (readDir_names _ _ _ _ Hdir Hread) as [Hnames Hcached].
  split.
  - intros n Hn Hfile.
    pose proof (proj1 (Hnames n) Hn) as [(Hname & Hflat & obj & Hobj & Hkey)
                                        | (d & -> & _)].
    + repeat split; try done; [| by apply Hcached].
      apply page_shape in Hobj as (rest & Hkey' & _ & _ & Hm).
      rewrite Hkey in Hkey'. injection Hkey' as ->%append_inj. done.
    + by rewrite endsWithSlash_append in Hfile.
  - intros Hfit n Hname Hflat Hobj. apply Hnames. left.
    repeat split; try done. by apply page_child.
Qed.

(** The names with a slash are the subdirectories: the first segments of
    the keys that lie deeper. *)
Lemma readDir_dirs path st names st1 :
  normalizeDir path = dir →
  readDir (platform clock) options path st = (Returned names, st1) →
  (∀ n, n ∈ names → JsString.endsWithSlash n = true →
        ∃ d tail, n = d +:+ "/"
                  ∧ JsString.truthy d = true
                  ∧ JsString.includesSlash d = false
                  ∧ is_Some (objects (world st)
                               !! (getR2Key options dir
                                   +:+ d +:+ "/" +:+ tail)))
  ∧ ((length (listing (objects (world st)) (getR2Key options dir) (Some "/"))
      ≤ maxKeys (config (world st)))%nat →
     ∀ d tail, JsString.truthy d = true → JsString.includesSlash d = false →
               is_Some (objects (world st)
                          !! (getR2Key options dir +:+ d +:+ "/" +:+ tail)) →
               d +:+ "/" ∈ names).
Proof.
  intros Hdir Hread.
  destruct (readDir_names _ _ _ _ Hdir Hread) as [Hnames _].
  split.
  - intros n Hn Hslash.
    pose proof (proj1 (Hnames n) Hn) as [(_ & Hflat & _)
                                        | (d & -> & Hd & cp & Hcp & Hkey)].
    + apply includesSlash_endsWithSlash in Hflat. congruence.
    + apply group_shape in Hcp as (d' & tail & Hkey' & Hflat & Hobj).
      rewrite Hkey in Hkey'. injection Hkey' as Heq%append_inj.
      apply (f_equal JsString.stripTrailingSlash) in Heq.
      rewrite !stripTrailingSlash_append in Heq. subst d'.
      by exists d, tail.
  - intros Hfit d tail Hd Hflat Hobj. apply Hnames. right.
    exists d. repeat split; try done. by eapply group_child.
Qed.

End ListingFacts.

(** ** Listing a path that starts with a slash, or the root *)
Section LeadingSlashListing.
Import MemStore.
Variable clock : nat → Z.
Variable options : Options.
Variable dir' : string.

Lemma slice_S_append (a b : string) :
  JsString.slice (S (String.length a)) (a +:+ b) = JsString.slice 1 b.
Proof. induction a as [|c a IH]; [done | exact IH]. Qed.

Lemma getLocalPath_slashed (rest : string) :
  getLocalPath options (getR2Key options (String "/" dir') +:+ rest)
  = dir' +:+ rest.
Proof.
  unfold getR2Key, JsString.startsWith.
  rewrite prefix_cons, prefix_nil. cbn [Ascii.eqb Bool.eqb andb JsString.slice].
  destruct (JsString.truthy (opt_prefix options)) eqn:Ht.
  - rewrite !append_assoc. by apply getLocalPath_namespaced.
  - unfold getLocalPath. by rewrite Ht.
Qed.

(** One round of the loop over the objects: the name is cut one character
    too far. *)
Lemma readDir_object_slashed {W} (object : S3Object) (rest : string)
    (entries : list string) (st : State W) r st1 :
  obj_Key object = Some (getR2Key options (String "/" dir') +:+ rest) →
  readDir_object options (String "/" dir') (getR2Key options (String "/" dir'))
    object entries st = (r, st1) →
  r = Returned entries
  ∨ ∃ c n, rest = String c n
           ∧ JsString.truthy n = true
           ∧ JsString.includesSlash n = false
           ∧ r = Returned (entries ++ [n]).
Proof.
  intros Hkey. unfold readDir_object. rewrite Hkey.
  destruct (truthyOpt _) as [key|] eqn:Hk;
    [| unfold ret; intros [= <- _]; by left].
  apply truthyOpt_Some in Hk. injection Hk as <-.
  destruct (negb _); [| unfold ret; intros [= <- _]; by left].
  rewrite getLocalPath_slashed. unfold JsString.substring.
  cbn [String.length]. rewrite slice_S_append.
  destruct rest as [|c n]; [unfold ret; intros [= <- _]; by left |].
  cbn [JsString.slice].
  destruct (JsString.truthy n && negb (JsString.includesSlash n))%bool
    eqn:Hchild; [| unfold ret; intros [= <- _]; by left].
  apply andb_true_iff in Hchild as [Hname Hflat%negb_true_iff].
  unfold bind, cache_set, ret. intros H. right. exists c, n.
  repeat split; try done.
  destruct (obj_Size object), (obj_LastModified object); by simplify_eq.
Qed.

Lemma for_of_readDir_object_slashed {W} (contents : list S3Object) :
  Forall (λ obj, ∃ rest, obj_Key obj
                         = Some (getR2Key options (String "/" dir') +:+ rest))
    contents →
  ∀ entries (st : State W) r st1,
    for_of contents
      (readDir_object options (String "/" dir')
         (getR2Key options (String "/" dir'))) entries st = (r, st1) →
    ∃ entries',
      r = Returned entries'
      ∧ ∀ n, n ∈ entries' →
             n ∈ entries
             ∨ (JsString.truthy n = true
                ∧ JsString.includesSlash n = false
                ∧ ∃ c obj, obj ∈ contents
                           ∧ obj_Key obj
                             = Some (getR2Key options (String "/" dir')
                                     +:+ String c n)).
Proof.
  induction 1 as [|obj contents [rest Hkey] _ IH]; intros entries st r st1;
    cbn [for_of].
  - unfold ret. intros [= <- _]. exists entries. by auto.
  - intros (r0 & st0 & H0 & Hrest)%bind_inv.
    apply (readDir_object_slashed _ rest _ _ _ _ Hkey) in H0
      as [-> | (c & n & -> & Hname & Hflat & ->)].
    + apply IH in Hrest as (entries' & -> & Hnames).
      exists entries'. split; [done |].
      intros n [? | (? & ? & c & obj' & ? & ?)]%Hnames; [by auto |].
      right. repeat split; try done. exists c, obj'.
      split; [by apply list_elem_of_further | done].
    + apply IH in Hrest as (entries' & -> & Hnames).
      exists entries'. split; [done |].
      intros n' [[? | ->%list_elem_of_singleton]%elem_of_app
                | (? & ? & c' & obj' & ? & ?)]%Hnames; [by auto | |].
      * right. repeat split; try done. exists c, obj.
        split; [apply list_elem_of_here | done].
      * right. repeat split; try done. exists c', obj'.
        split; [by apply list_elem_of_further | done].
Qed.

(** Every file name [readDir] returns for such a path is the name of an
    object without its first character. *)
Lemma readDir_slashed path st names st1 :
  normalizeDir path = String "/" dir' →
  readDir (platform clock) options path st = (Returned names, st1) →
  ∀ n, n ∈ names → JsString.endsWithSlash n = false →
       JsString.truthy n = true
       ∧ JsString.includesSlash n = false
       ∧ ∃ c, is_Some (objects (world st)
                         !! (getR2Key options (String "/" dir')
                             +:+ String c n)).
Proof.
  intros Hdir H. unfold readDir, try_catch, throw in H. rewrite Hdir in H.
  destruct (bind _ _ st) as [r0 st2] eqn:Hbody.
  destruct r0 as [names'|e]; [| done]. injection H as -> ->.
  apply bind_inv in Hbody as (r1 & st0 & Hs & Hbody).
  apply s3Client_send_world in Hs. cbn [send platform] in Hs.
  apply serve_list in Hs as [_ Hresp].
  destruct r1 as [resp|e]; [| by destruct Hbody].
  destruct (Hresp resp eq_refl) as [_ ->]. clear Hresp.
  rewrite listObjects_nextFault in Hbody.
  apply bind_inv in Hbody as (r2 & st3 & Hloop1 & Hbody).
  set (m := objects (world st)) in *.
  set (contents := omap (describe m)
                     (take (maxKeys (config (world st)))
                        (listing m (getR2Key options (String "/" dir'))
                           (Some "/")))) in *.
  assert (∃ entries,
            r2 = Returned entries
            ∧ ∀ n, n ∈ entries →
                   JsString.truthy n = true
                   ∧ JsString.includesSlash n = false
                   ∧ ∃ c obj, obj ∈ contents
                              ∧ obj_Key obj
                                = Some (getR2Key options (String "/" dir')
                                        +:+ String c n))
    as (entries & -> & Hentries).
  { cbn [list_Contents listObjects] in Hloop1. fold m contents in Hloop1.
    destruct (nonEmpty contents) as [contents'|] eqn:Hne.
    - apply nonEmpty_Some in Hne as ->.
      apply for_of_readDir_object_slashed in Hloop1
        as (entries & -> & Hnames).
      + exists entries. split; [done |].
        by intros n [[]%elem_of_nil | ?]%Hnames.
      + apply Forall_forall. intros obj Hobj.
        apply page_shape in Hobj as (rest & ? & _). by exists rest.
    - unfold ret in Hloop1. injection Hloop1 as <- <-.
      exists []. split; [done |]. by intros n []%elem_of_nil. }
  apply bind_inv in Hbody as (r3 & st4 & Hloop2 & Hbody).
  assert (∃ entries', r3 = Returned entries'
            ∧ ∀ n, n ∈ entries' →
                   n ∈ entries ∨ JsString.endsWithSlash n = true)
    as (entries' & -> & Hnew).
  { destruct (list_CommonPrefixes _).
    - apply for_of_readDir_prefix_dirs in Hloop2
        as (_ & entries' & -> & _ & Hnew).
      by exists entries'.
    - unfold ret in Hloop2. injection Hloop2 as <- <-.
      exists entries. by auto. }
  unfold ret in Hbody. injection Hbody as <- <-.
  intros n Hn Hfile. unfold sort in Hn. rewrite merge_sort_Permutation in Hn.
  apply Hnew in Hn as [Hn | Hn]; [| congruence].
  apply Hentries in Hn as (Hname & Hflat & c & obj & Hobj & Hkey).
  repeat split; try done. exists c.
  apply page_shape in Hobj as (rest & Hkey' & _ & _ & Hm).
  rewrite Hkey in Hkey'. injection Hkey' as <-%append_inj. done.
Qed.

End LeadingSlashListing.

(** * The properties of the specification *)

(** C1. Against the reference store, for every path [p] and every
    well-formed string [c]: when [writeFile p c] has succeeded and the
    store answers the next call, [readFile p] issued right after it returns
    exactly [c]. *)
Theorem C1_write_then_read (clock : nat → Z) (options : Options) (p : string)
    (c : list Z) (st st1 : State MemStore.Bucket) :
  Utf8.wellFormed c = true →
  writeFile (MemStore.platform clock) options p c st = (Returned tt, st1) →
  MemStore.noFaults 1 (world st1) →
  ∃ st2, readFile (MemStore.platform clock) options p st1 = (Returned c, st2).
Proof.
  intros Hwf Hwrite Hcalm.
  apply writeFile_effect in Hwrite as (o & e & _ & Ho & Hbody).
  destruct (readFile_present clock options p st1 o) as [st2 Hread];
    [by rewrite Ho, lookup_insert_eq | done |].
  exists st2. by rewrite Hread, Hbody, utf8_roundtrip.
Qed.

Lemma C1_write_then_read_witness :
  ∃ st2, readFile Sample.P Sample.opts "notes/smile.txt"
           (writeFile Sample.P Sample.opts "notes/smile.txt" Sample.smiley
              Sample.oneFile).2
         = (Returned Sample.smiley, st2).
Proof.
  apply (C1_write_then_read _ Sample.opts "notes/smile.txt" Sample.smiley
           Sample.oneFile).
  - reflexivity.
  - vm_compute. reflexivity.
  - vm_compute. constructor.
Defined.

(** C2, as stated, fails: when the store rejects the delete with an error
    that is not a "not found", [deleteFile] throws and the cache entry for
    the key is still there. *)
Lemma C2_counterexample :
  (deleteFile Sample.P Sample.opts "a.txt" Sample.oneFileThenOutage).1
  = Thrown (FailedToDeleteFile "a.txt" Sample.serverError)
  ∧ cache (deleteFile Sample.P Sample.opts "a.txt" Sample.oneFileThenOutage).2
      !! getR2Key Sample.opts "a.txt"
    = Some {| ce_size := 2; ce_lastModified := 5000; ce_etag := "etag" |}.
Proof. vm_compute. split; reflexivity. Qed.

(** C2, amended. [deleteFile p] removes the cache entry for the encoded key
    of [p] when the store's delete succeeds; when the store fails with an
    error that is not a "not found", [deleteFile] fails with the delete
    failure wrapping that error and the cache is left exactly as it was. *)
Theorem C2_deleteFile_cache {W} (platform : Platform W) (options : Options)
    (p : string) (st : State W) (r : Outcome AwsError unit) (w' : W) :
  send platform (DeleteObjectCommand (opt_bucket options) (getR2Key options p))
    (world st) = (r, w') →
  match r with
  | Returned _ =>
      ∃ st', deleteFile platform options p st = (Returned tt, st')
             ∧ cache st' = delete (getR2Key options p) (cache st)
  | Thrown error =>
      isNotFoundError error = false →
      ∃ st', deleteFile platform options p st
             = (Thrown (FailedToDeleteFile p error), st')
             ∧ cache st' = cache st
  end.
Proof.
  intros Hsend.
  unfold deleteFile, try_catch, bind, s3Client_send, cache_delete, throw, ret.
  rewrite Hsend. destruct r as [[]|error].
  - by eexists.
  - intros ->. by eexists.
Qed.

Lemma C2_deleteFile_cache_witness :
  (∃ st', deleteFile Sample.P Sample.opts "a.txt" Sample.oneFile
          = (Returned tt, st')
          ∧ cache st' = delete (getR2Key Sample.opts "a.txt") (cache Sample.oneFile))
  ∧ (∃ st', deleteFile Sample.P Sample.opts "a.txt" Sample.oneFileThenOutage
            = (Thrown (FailedToDeleteFile "a.txt" Sample.serverError), st')
            ∧ cache st' = cache Sample.oneFileThenOutage).
Proof.
  split.
  - eapply (C2_deleteFile_cache Sample.P Sample.opts "a.txt" Sample.oneFile
              (Returned tt)).
    vm_compute. reflexivity.
  - refine (C2_deleteFile_cache Sample.P Sample.opts "a.txt"
              Sample.oneFileThenOutage (Thrown Sample.serverError) _ _ _).
    + vm_compute. reflexivity.
    + reflexivity.
Defined.

(** C3. With nothing else touching the store: right after a successful
    [writeFile p c], [exists p] returns true (for any store client); and in
    any session of a fresh instance against the reference store, right after
    a successful [deleteFile p], [exists p] returns false, provided the
    store answers that probe and its rejections do not pose as "not
    found". *)
Theorem C3_existence_consistency (clock : nat → Z) (options : Options)
    (p : string) :
  (∀ W (platform : Platform W) (c : list Z) (st st1 : State W),
     writeFile platform options p c st = (Returned tt, st1) →
     exists_ platform options p st1 = (Returned true, st1))
  ∧ (∀ (w : MemStore.Bucket) (ops : list Operation) (st1 : State MemStore.Bucket),
       let st := session (MemStore.platform clock) options ops (fresh w) in
       MemStore.honest (world st) →
       deleteFile (MemStore.platform clock) options p st = (Returned tt, st1) →
       MemStore.noFaults 1 (world st1) →
       ∃ st2, exists_ (MemStore.platform clock) options p st1
              = (Returned false, st2)).
Proof.
  split.
  - intros W platform c st st1 Hwrite.
    apply exists_cached. by eapply writeFile_cached.
  - intros w ops st1 st Hhonest Hdelete Hcalm.
    assert (Hcoh : coherent st) by apply session_coherent, fresh_coherent.
    apply deleteFile_effect in Hdelete as [[Hc Ho] | (Hc & Ho & Habsent)].
    + destruct (exists_absent clock options p st1) as (st2 & H & _);
        [by rewrite Hc, lookup_delete_eq | by rewrite Ho, lookup_delete_eq
        | done |].
      by exists st2.
    + specialize (Habsent Hhonest).
      destruct (exists_absent clock options p st1) as (st2 & H & _);
        [| by rewrite Ho | done | by exists st2].
      rewrite Hc. destruct (cache st !! _) eqn:E; [| done].
      destruct (Hcoh (getR2Key options p)) as [o Hox]; [by eauto |].
      congruence.
Qed.

Lemma C3_existence_consistency_witness :
  exists_ Sample.P Sample.opts "a.txt" Sample.oneFile
  = (Returned true, Sample.oneFile)
  ∧ ∃ st2, exists_ Sample.P Sample.opts "a.txt"
             (deleteFile Sample.P Sample.opts "a.txt" Sample.oneFile).2
           = (Returned false, st2).
Proof.
  destruct (C3_existence_consistency (λ n, 5000 + Z.of_nat n) Sample.opts "a.txt")
    as [Hwrite Hdelete].
  split.
  - apply (Hwrite _ Sample.P Sample.hi (fresh Sample.emptyBucket)).
    vm_compute. reflexivity.
  - apply (Hdelete Sample.emptyBucket [OpWriteFile "a.txt" Sample.hi]).
    + vm_compute. constructor.
    + vm_compute. reflexivity.
    + vm_compute. constructor.
Defined.

(** C4, at a failing input.  With the directory of the listing example in
    the store, [readDir "d"] names the entries, but [readDir "/d"] returns
    each name without its first character: the names are cut out of the
    local path at the length of the path as given, leading slash included,
    while the local path has none. *)
Theorem C4_leading_slash_shifts_names :
  (readDir Sample.P Sample.opts "d" Sample.treeUnseen).1
  = Returned ["a.txt"; "b.json"; "sub/"]
  ∧ (readDir Sample.P Sample.opts "/d" Sample.treeUnseen).1
    = Returned [".json"; ".txt"; "ub/"].
Proof. vm_compute. split; reflexivity. Qed.

(** C5. If the namespace of the instance holds exactly the objects
    [d/a.txt], [d/b.json] and [d/sub/c.md], [readDir "d"] returns exactly
    ["a.txt"; "b.json"; "sub/"], sorted, with the subdirectory marked by its
    trailing slash: against the reference store, when it answers the call
    and a page holds at least three entries; and for any store client that
    answers the delimiter listing of the prefix with the two objects and the
    common prefix, in whatever order it lists the objects. *)
Theorem C5_listing_shape (clock : nat → Z) (options : Options) :
  (∀ st : State MemStore.Bucket,
     namespaceKeys options (MemStore.objects (world st))
     ≡ₚ [getR2Key options "d/a.txt"; getR2Key options "d/b.json";
         getR2Key options "d/sub/c.md"] →
     (3 ≤ MemStore.maxKeys (MemStore.config (world st)))%nat →
     MemStore.noFaults 1 (world st) →
     ∃ st1, readDir (MemStore.platform clock) options "d" st
            = (Returned ["a.txt"; "b.json"; "sub/"], st1))
  ∧ (∀ W (platform : Platform W) (st : State W)
       (response : ListObjectsV2CommandOutput) (w' : W),
       send platform
         (ListObjectsV2Command (opt_bucket options) (getR2Key options "d/")
            (Some "/"))
         (world st) = (Returned response, w') →
       listsExample options response →
       ∃ st1, readDir platform options "d" st
              = (Returned ["a.txt"; "b.json"; "sub/"], st1)).
Proof.
  split.
  - intros st Hkeys Hpage Hcalm. apply readDir_example; [| done | done].
    intros key. by rewrite <- elem_of_namespaceKeys, Hkeys.
  - intros W platform st response w'. apply readDir_of_listing.
Qed.

Lemma C5_listing_shape_witness :
  (∃ st1, readDir Sample.P Sample.opts "d" Sample.treeUnseen
          = (Returned ["a.txt"; "b.json"; "sub/"], st1))
  ∧ (∃ st1, readDir Sample.descending Sample.bare "d" (fresh tt)
            = (Returned ["a.txt"; "b.json"; "sub/"], st1)).
Proof.
  destruct (C5_listing_shape (λ n, 5000 + Z.of_nat n) Sample.opts) as [Hmem _].
  destruct (C5_listing_shape (λ n, 0) Sample.bare) as [_ Hany].
  split.
  - apply Hmem.
    + vm_compute. reflexivity.
    + apply Nat.leb_le. vm_compute. reflexivity.
    + vm_compute. constructor.
  - eapply (Hany _ Sample.descending (fresh tt)).
    + reflexivity.
    + eexists _, _. split; [reflexivity |].
      split; [vm_compute; apply perm_swap |].
      split; reflexivity.
Defined.

(** C6, at a failing input.  The directory [d] already holds the objects
    [d/000] to [d/999] when [d/x.txt] and [d/y/z.txt] are written into it.
    [deleteDir "d"] returns normally, but its one listing is cut after a
    thousand keys and it does not ask for the rest: the thousand numbered
    objects are deleted, and both files are still in the bucket.  [exists]
    returns true for both, on this instance and on a fresh one. *)
Theorem C6_truncated_listing_leaves_files :
  let st := Sample.crowded in
  let r := deleteDir Sample.P Sample.opts "d" st in
  (size (MemStore.objects (world st)),
   list_IsTruncated
     (MemStore.listObjects (world st) (getR2Key Sample.opts "d/") None),
   r.1,
   (length (sent r.2) - length (sent st))%nat,
   MemStore.sortedKeys (MemStore.objects (world r.2)),
   (exists_ Sample.P Sample.opts "d/x.txt" r.2).1,
   (exists_ Sample.P Sample.opts "d/y/z.txt" r.2).1,
   (exists_ Sample.P Sample.opts "d/x.txt" (fresh (world r.2))).1,
   (exists_ Sample.P Sample.opts "d/y/z.txt" (fresh (world r.2))).1)
  = (1002, true, Returned tt, 2, ["ns/d/x.txt"; "ns/d/y/z.txt"],
     Returned true, Returned true, Returned true, Returned true)%nat.
Proof. vm_compute. reflexivity. Qed.

(** C7. If the cache holds an entry for the encoded key of [p], [stat p]
    returns statistics built from that entry alone (size, the three
    timestamps equal to the cached [lastModified], tagged as a file) and
    leaves the whole state as it was: nothing is added to the log of
    commands sent and the store is not consulted, whatever the client. *)
Theorem C7_stat_cached {W} (platform : Platform W) (options : Options)
    (p : string) (st : State W) (entry : R2CacheEntry) :
  cache st !! getR2Key options p = Some entry →
  stat platform options p st
  = (Returned {| st_size := ce_size entry;
                 st_mtime := ce_lastModified entry;
                 st_ctime := ce_lastModified entry;
                 st_atime := ce_lastModified entry;
                 st_mode := 420;
                 st_isFile := true;
                 st_isDirectory := false;
                 st_isSymbolicLink := false |}, st).
Proof.
  intros Hhit. unfold stat, try_catch, bind, cache_get, ret.
  by rewrite Hhit.
Qed.

Lemma C7_stat_cached_witness :
  stat Sample.P Sample.opts "a.txt" Sample.oneFileThenOutage
  = (Returned {| st_size := 2; st_mtime := 5000; st_ctime := 5000;
                 st_atime := 5000; st_mode := 420; st_isFile := true;
                 st_isDirectory := false; st_isSymbolicLink := false |},
     Sample.oneFileThenOutage).
Proof.
  apply (C7_stat_cached Sample.P Sample.opts "a.txt" Sample.oneFileThenOutage
           {| ce_size := 2; ce_lastModified := 5000; ce_etag := "etag" |}).
  vm_compute. reflexivity.
Defined.

(** C8. For every logical path [p] that does not start with ["/"] and is not
    equal to the configured prefix, [getLocalPath (getR2Key p) = p], for any
    configured namespace prefix, the empty one included. *)
Theorem C8_decode_encode_inverse (options : Options) (p : string) :
  JsString.startsWith p "/" = false →
  p ≠ opt_prefix options →
  getLocalPath options (getR2Key options p) = p.
Proof. intros Hrel _. by apply decode_encode. Qed.

Lemma C8_decode_encode_inverse_witness :
  getLocalPath {| opt_bucket := "b"; opt_prefix := "ns" |}
    (getR2Key {| opt_bucket := "b"; opt_prefix := "ns" |} "d/a.txt") = "d/a.txt".
Proof.
  apply (C8_decode_encode_inverse {| opt_bucket := "b"; opt_prefix := "ns" |} "d/a.txt").
  - reflexivity.
  - by vm_compute.
Defined.

(** C9. A public operation that ends by throwing leaves the metadata cache
    exactly as it was before the call, for every operation of the class and
    every behaviour of the store client. *)
Theorem C9_throw_preserves_cache {W} (platform : Platform W) (options : Options)
    (op : Operation) (st st' : State W) (e : FsError) :
  perform platform options op st = (Thrown e, st') →
  cache st' = cache st.
Proof. apply perform_thrown. Qed.

Lemma C9_throw_preserves_cache_witness :
  cache (perform Sample.P Sample.opts (OpDeleteFile "a.txt")
           Sample.oneFileThenOutage).2
  = cache Sample.oneFileThenOutage.
Proof.
  apply (C9_throw_preserves_cache Sample.P Sample.opts (OpDeleteFile "a.txt")
           Sample.oneFileThenOutage _
           (FailedToDeleteFile "a.txt" Sample.serverError)).
  vm_compute. reflexivity.
Defined.

(** C10. If the store answers the [get] for the key successfully but the
    response carries no body, [readFile] returns the empty string. *)
Theorem C10_missing_body_reads_empty {W} (platform : Platform W)
    (options : Options) (p : string) (st : State W)
    (response : GetObjectCommandOutput) (w' : W) :
  send platform (GetObjectCommand (opt_bucket options) (getR2Key options p))
    (world st) = (Returned response, w') →
  get_Body response = None →
  ∃ st', readFile platform options p st = (Returned [], st').
Proof.
  intros Hsend Hbody.
  unfold readFile, try_catch, bind, cache_get, s3Client_send, ret.
  rewrite Hsend, Hbody. cbn [streamToString ret].
  destruct (get_ContentLength response), (get_LastModified response);
    cbn [cache_set ret]; by eexists.
Qed.

Lemma C10_missing_body_reads_empty_witness :
  ∃ st', readFile Sample.bodiless Sample.opts "a.txt" (fresh tt)
         = (Returned [], st').
Proof.
  eapply (C10_missing_body_reads_empty Sample.bodiless Sample.opts "a.txt"
            (fresh tt)).
  - reflexivity.
  - reflexivity.
Defined.

(** * Further properties of the code *)

(** X1. When every call to the store fails with an error that is not a
    "not found", each operation that needs the store throws its own
    failure, carrying the path as given and the store's error: [readFile],
    [writeFile], [deleteFile], [readDir], [deleteDir] always, [exists] and
    [stat] when the key is not cached. *)
Theorem X1_store_failure_is_wrapped {W} (platform : Platform W)
    (options : Options) (error : AwsError) (p : string) (st : State W) :
  (∀ R (c : Command R) w, (send platform c w).1 = Thrown error) →
  isNotFoundError error = false →
  (readFile platform options p st).1 = Thrown (FailedToReadFile p error)
  ∧ (∀ c, (writeFile platform options p c st).1
          = Thrown (FailedToWriteFile p error))
  ∧ (deleteFile platform options p st).1 = Thrown (FailedToDeleteFile p error)
  ∧ (readDir platform options p st).1 = Thrown (FailedToReadDirectory p error)
  ∧ (deleteDir platform options p st).1
    = Thrown (FailedToDeleteDirectory p error)
  ∧ (cache st !! getR2Key options p = None →
     (exists_ platform options p st).1 = Thrown (FailedToCheckExistence p error)
     ∧ (stat platform options p st).1 = Thrown (FailedToGetStats p error)).
Proof.
  intros Hdown Hnf.
  assert (Hsend : ∀ R (c : Command R) s,
            (s3Client_send platform c s).1 = Thrown error).
  { intros R c s. unfold s3Client_send. specialize (Hdown R c (world s)).
    by destruct (send platform c (world s)). }
  repeat split; try intros c.
  - unfold readFile, try_catch, bind, cache_get, throw.
    specialize (Hsend _ (GetObjectCommand (opt_bucket options) (getR2Key options p)) st).
    destruct (s3Client_send _ _ _) as [r s]. cbn in Hsend. subst r.
    by rewrite Hnf.
  - unfold writeFile, try_catch, bind, throw.
    specialize (Hsend _ (PutObjectCommand (opt_bucket options)
                           (getR2Key options p) c (getContentType p)) st).
    destruct (s3Client_send _ _ _) as [r s]. cbn in Hsend. by subst r.
  - unfold deleteFile, try_catch, bind, throw.
    specialize (Hsend _ (DeleteObjectCommand (opt_bucket options)
                           (getR2Key options p)) st).
    destruct (s3Client_send _ _ _) as [r s]. cbn in Hsend. subst r.
    by rewrite Hnf.
  - unfold readDir, try_catch. unfold bind at 1. unfold throw.
    specialize (Hsend _ (ListObjectsV2Command (opt_bucket options)
                           (getR2Key options (normalizeDir p)) (Some "/")) st).
    destruct (s3Client_send _ _ _) as [r s]. cbn in Hsend. by subst r.
  - unfold deleteDir, try_catch. unfold bind at 1. unfold throw.
    specialize (Hsend _ (ListObjectsV2Command (opt_bucket options)
                           (getR2Key options (normalizeDir p)) None) st).
    destruct (s3Client_send _ _ _) as [r s]. cbn in Hsend. by subst r.
  - unfold exists_, try_catch, bind, cache_has, throw. rewrite H.
    rewrite bool_decide_eq_false_2 by (by intros [? ?]).
    specialize (Hsend _ (HeadObjectCommand (opt_bucket options)
                           (getR2Key options p)) st).
    destruct (s3Client_send _ _ _) as [r s]. cbn in Hsend. subst r.
    by rewrite Hnf.
  - unfold stat, try_catch, bind, cache_get, throw, ret. rewrite H.
    specialize (Hsend _ (HeadObjectCommand (opt_bucket options)
                           (getR2Key options p)) st).
    destruct (s3Client_send _ _ _) as [r s]. cbn in Hsend. subst r.
    by rewrite Hnf.
Qed.

Lemma X1_store_failure_is_wrapped_witness :
  (readDir (Outage.unreachable Outage.timeout) Sample.opts "d" (fresh tt)).1
  = Thrown (FailedToReadDirectory "d" Outage.timeout).
Proof.
  apply (X1_store_failure_is_wrapped (Outage.unreachable Outage.timeout)
           Sample.opts Outage.timeout "d" (fresh tt)).
  - intros R c w. reflexivity.
  - reflexivity.
Defined.

(** X2. When every call to the store fails with a "not found" (the name
    [NoSuchKey] or an HTTP status 404), [readFile] and [stat] throw "file
    not found" with the path, [exists] returns false and [deleteFile]
    returns normally; [writeFile], [readDir] and [deleteDir] make no
    exception for it and throw their usual failure. *)
Theorem X2_not_found_handling {W} (platform : Platform W)
    (options : Options) (error : AwsError) (p : string) (st : State W) :
  (∀ R (c : Command R) w, (send platform c w).1 = Thrown error) →
  isNotFoundError error = true →
  (readFile platform options p st).1 = Thrown (FileNotFound p)
  ∧ (deleteFile platform options p st).1 = Returned tt
  ∧ (∀ c, (writeFile platform options p c st).1
          = Thrown (FailedToWriteFile p error))
  ∧ (readDir platform options p st).1 = Thrown (FailedToReadDirectory p error)
  ∧ (deleteDir platform options p st).1
    = Thrown (FailedToDeleteDirectory p error)
  ∧ (cache st !! getR2Key options p = None →
     (exists_ platform options p st).1 = Returned false
     ∧ (stat platform options p st).1 = Thrown (FileNotFound p)).
Proof.
  intros Hdown Hnf.
  assert (Hsend : ∀ R (c : Command R) s,
            (s3Client_send platform c s).1 = Thrown error).
  { intros R c s. unfold s3Client_send. specialize (Hdown R c (world s)).
    by destruct (send platform c (world s)). }
  repeat split; try intros c.
  - unfold readFile, try_catch, bind, cache_get, throw.
    specialize (Hsend _ (GetObjectCommand (opt_bucket options) (getR2Key options p)) st).
    destruct (s3Client_send _ _ _) as [r s]. cbn in Hsend. subst r.
    by rewrite Hnf.
  - unfold deleteFile, try_catch, bind, throw.
    specialize (Hsend _ (DeleteObjectCommand (opt_bucket options)
                           (getR2Key options p)) st).
    destruct (s3Client_send _ _ _) as [r s]. cbn in Hsend. subst r.
    by rewrite Hnf.
  - unfold writeFile, try_catch, bind, throw.
    specialize (Hsend _ (PutObjectCommand (opt_bucket options)
                           (getR2Key options p) c (getContentType p)) st).
    destruct (s3Client_send _ _ _) as [r s]. cbn in Hsend. by subst r.
  - unfold readDir, try_catch. unfold bind at 1. unfold throw.
    specialize (Hsend _ (ListObjectsV2Command (opt_bucket options)
                           (getR2Key options (normalizeDir p)) (Some "/")) st).
    destruct (s3Client_send _ _ _) as [r s]. cbn in Hsend. by subst r.
  - unfold deleteDir, try_catch. unfold bind at 1. unfold throw.
    specialize (Hsend _ (ListObjectsV2Command (opt_bucket options)
                           (getR2Key options (normalizeDir p)) None) st).
    destruct (s3Client_send _ _ _) as [r s]. cbn in Hsend. by subst r.
  - unfold exists_, try_catch, bind, cache_has, throw. rewrite H.
    rewrite bool_decide_eq_false_2 by (by intros [? ?]).
    specialize (Hsend _ (HeadObjectCommand (opt_bucket options)
                           (getR2Key options p)) st).
    destruct (s3Client_send _ _ _) as [r s]. cbn in Hsend. subst r.
    by rewrite Hnf.
  - unfold stat, try_catch, bind, cache_get, throw, ret. rewrite H.
    specialize (Hsend _ (HeadObjectCommand (opt_bucket options)
                           (getR2Key options p)) st).
    destruct (s3Client_send _ _ _) as [r s]. cbn in Hsend. subst r.
    by rewrite Hnf.
Qed.

Lemma X2_not_found_handling_witness :
  (deleteDir (Outage.unreachable Outage.noSuchBucket) Sample.opts "d" (fresh tt)).1
  = Thrown (FailedToDeleteDirectory "d" Outage.noSuchBucket)
  ∧ (exists_ (Outage.unreachable Outage.noSuchBucket) Sample.opts "a.txt"
       (fresh tt)).1 = Returned false.
Proof.
  destruct (X2_not_found_handling (Outage.unreachable Outage.noSuchBucket)
              Sample.opts Outage.noSuchBucket "d" (fresh tt))
    as (_ & _ & _ & _ & Hdir & _); [by intros | reflexivity |].
  destruct (X2_not_found_handling (Outage.unreachable Outage.noSuchBucket)
              Sample.opts Outage.noSuchBucket "a.txt" (fresh tt))
    as (_ & _ & _ & _ & _ & Hfile); [by intros | reflexivity |].
  split; [exact Hdir | by apply Hfile].
Defined.

(** X3. After a successful [writeFile p c], whatever the store client,
    [stat p] is answered from the cache without any store call: it reports
    the byte length of [c] in UTF-8 as the size and the time of the write
    for all three timestamps. *)
Theorem X3_stat_after_write {W} (platform : Platform W) (options : Options)
    (p : string) (c : list Z) (st st1 : State W) :
  writeFile platform options p c st = (Returned tt, st1) →
  stat platform options p st1
  = (Returned {| st_size := Utf8.byteLength c;
                 st_mtime := now platform (ticks st);
                 st_ctime := now platform (ticks st);
                 st_atime := now platform (ticks st);
                 st_mode := 420;
                 st_isFile := true;
                 st_isDirectory := false;
                 st_isSymbolicLink := false |}, st1).
Proof.
  intros [tag Hentry]%writeFile_entry.
  by rewrite (stat_hit platform options p st1 _ Hentry).
Qed.

Lemma X3_stat_after_write_witness :
  stat Sample.P Sample.opts "e.txt"
    (writeFile Sample.P Sample.opts "e.txt" Sample.accents
       Sample.oneFile).2
  = (Returned {| st_size := 5; st_mtime := 5001; st_ctime := 5001;
                 st_atime := 5001; st_mode := 420; st_isFile := true;
                 st_isDirectory := false; st_isSymbolicLink := false |},
     (writeFile Sample.P Sample.opts "e.txt" Sample.accents
        Sample.oneFile).2).
Proof.
  apply (X3_stat_after_write Sample.P Sample.opts "e.txt" Sample.accents
           Sample.oneFile).
  vm_compute. reflexivity.
Defined.

(** X4. After a successful [stat p], whatever the store client, a second
    [stat p] makes no store call and returns the same size and the same
    modification time; its creation and access times are that modification
    time too. *)
Theorem X4_stat_twice {W} (platform : Platform W) (options : Options)
    (p : string) (st st1 : State W) (stats : FileStats) :
  stat platform options p st = (Returned stats, st1) →
  stat platform options p st1
  = (Returned {| st_size := st_size stats;
                 st_mtime := st_mtime stats;
                 st_ctime := st_mtime stats;
                 st_atime := st_mtime stats;
                 st_mode := 420;
                 st_isFile := true;
                 st_isDirectory := false;
                 st_isSymbolicLink := false |}, st1).
Proof.
  intros [tag Hentry]%stat_entry.
  by rewrite (stat_hit platform options p st1 _ Hentry).
Qed.

Lemma X4_stat_twice_witness :
  stat Sample.P Sample.opts "d/b.json"
    (stat Sample.P Sample.opts "d/b.json" Sample.treeUnseen).2
  = (Returned {| st_size := 5; st_mtime := 1001; st_ctime := 1001;
                 st_atime := 1001; st_mode := 420; st_isFile := true;
                 st_isDirectory := false; st_isSymbolicLink := false |},
     (stat Sample.P Sample.opts "d/b.json" Sample.treeUnseen).2).
Proof.
  apply (X4_stat_twice Sample.P Sample.opts "d/b.json" Sample.treeUnseen _
           {| st_size := 5; st_mtime := 1001; st_ctime := 1001;
              st_atime := 1001; st_mode := 420; st_isFile := true;
              st_isDirectory := false; st_isSymbolicLink := false |}).
  vm_compute. reflexivity.
Defined.

(** X5. For a path [p] that does not start with a slash, whatever the
    store client, [readFile], [exists], [deleteFile] and [stat] behave on
    ["/" + p] as on [p]: they leave the same state (cache, commands sent,
    store) and return the same value; only the path quoted in a thrown
    error differs. *)
Theorem X5_leading_slash_ignored_by_file_operations {W} (platform : Platform W)
    (options : Options) (p : string) (st : State W) :
  JsString.startsWith p "/" = false →
  agree (readFile platform options ("/" +:+ p) st) (readFile platform options p st)
  ∧ agree (exists_ platform options ("/" +:+ p) st)
      (exists_ platform options p st)
  ∧ agree (deleteFile platform options ("/" +:+ p) st)
      (deleteFile platform options p st)
  ∧ agree (stat platform options ("/" +:+ p) st) (stat platform options p st).
Proof.
  intros Hrel.
  pose proof (getR2Key_leading_slash_ignored options p Hrel) as Hkey.
  unfold readFile, exists_, deleteFile, stat. rewrite Hkey.
  repeat split; try (apply try_catch_agree; intros e s; unfold throw, ret;
    by repeat case_match).
Qed.

Lemma X5_leading_slash_ignored_by_file_operations_witness :
  agree (exists_ Sample.P Sample.opts "/d/a.txt" Sample.treeUnseen)
    (exists_ Sample.P Sample.opts "d/a.txt" Sample.treeUnseen).
Proof.
  apply (X5_leading_slash_ignored_by_file_operations Sample.P Sample.opts
           "d/a.txt" Sample.treeUnseen).
  reflexivity.
Defined.

(** X6. Whatever the store answers, the names a successful [readDir]
    returns are in ascending order, none is empty, and a name contains a
    slash only if it ends with one: files are bare names, subdirectories
    carry the trailing slash. *)
Theorem X6_readDir_names {W} (platform : Platform W) (options : Options)
    (p : string) (st st1 : State W) (names : list string) :
  readDir platform options p st = (Returned names, st1) →
  Sorted str_le names ∧ Forall (λ n, entryName n = true) names.
Proof.
  unfold readDir, try_catch, throw. intros H.
  destruct (bind _ _ st) as [[names0|e] st2] eqn:Hbody; simplify_eq.
  apply bind_inv in Hbody as (r1 & st0 & _ & Hbody).
  destruct r1 as [response|e]; [| by destruct Hbody].
  apply bind_inv in Hbody as (r2 & st3 & Hfiles & Hbody).
  destruct r2 as [entries|e]; [| by destruct Hbody].
  apply bind_inv in Hbody as (r3 & st4 & Hdirs & Hbody).
  destruct r3 as [entries'|e]; [| by destruct Hbody].
  unfold ret in Hbody. simplify_eq. split.
  - apply Sorted_merge_sort. apply _.
  - unfold sort. rewrite merge_sort_Permutation.
    assert (Hentries : Forall (λ n, entryName n = true) entries).
    { destruct (list_Contents response).
      - eapply (for_of_invariant _ _ _); [| | exact Hfiles];
          [intros; by eapply readDir_object_names | constructor].
      - unfold ret in Hfiles. simplify_eq. constructor. }
    destruct (list_CommonPrefixes response).
    + eapply (for_of_invariant _ _ _); [| | exact Hdirs];
        [intros; by eapply readDir_prefix_names | done].
    + unfold ret in Hdirs. by simplify_eq.
Qed.

Lemma X6_readDir_names_witness :
  Sorted str_le ["a.txt"; "b.json"; "sub/"]
  ∧ Forall (λ n, entryName n = true) ["a.txt"; "b.json"; "sub/"].
Proof.
  apply (X6_readDir_names Sample.P Sample.opts "d" Sample.treeUnseen
           (readDir Sample.P Sample.opts "d" Sample.treeUnseen).2).
  vm_compute. reflexivity.
Defined.

(** X7. One call of an operation never repeats a store call: it adds at
    most one command to the log of commands sent ([deleteDir] at most two,
    the listing and the batch delete; [ensureDir] and [chmod] none), and
    every command it sends names the configured bucket.  This holds
    whatever the store answers and whether the operation returns or
    throws. *)
Theorem X7_no_retry {W} (platform : Platform W) (options : Options)
    (op : Operation) (st st1 : State W) (r : Outcome FsError Value) :
  perform platform options op st = (r, st1) →
  ∃ cmds, sent st1 = sent st ++ cmds
          ∧ (length cmds ≤ callBudget op)%nat
          ∧ Forall (λ c, commandBucket c = opt_bucket options) cmds.
Proof.
  intros H.
  destruct op; cbn [perform] in H;
    apply bind_inv in H as (r0 & st0 & H0 & H);
    assert (st1 = st0) as ->
      by (destruct r0; [unfold ret in H; by simplify_eq | by destruct H]);
    clear H.
  - apply readFile_sends in H0. eexists. split; [exact H0 |].
    split; [done | by repeat constructor].
  - apply writeFile_sends in H0. eexists. split; [exact H0 |].
    split; [done | by repeat constructor].
  - apply exists_sends in H0. eexists. split; [exact H0 |].
    case_bool_decide; (split; [cbn; lia | by repeat constructor]).
  - apply deleteFile_sends in H0. eexists. split; [exact H0 |].
    split; [done | by repeat constructor].
  - apply readDir_sends in H0. eexists. split; [exact H0 |].
    split; [done | by repeat constructor].
  - apply deleteDir_sends in H0 as (batch & H0 & Hbatch).
    eexists. split; [exact H0 |].
    destruct Hbatch as [-> | [keys ->]];
      (split; [cbn; lia | by repeat constructor]).
  - apply stat_sends in H0. eexists. split; [exact H0 |].
    case_bool_decide; (split; [cbn; lia | by repeat constructor]).
  - unfold ensureDir, ret in H0. simplify_eq. exists [].
    rewrite app_nil_r. by repeat split.
  - unfold chmod, ret in H0. simplify_eq. exists [].
    rewrite app_nil_r. by repeat split.
Qed.

Lemma X7_no_retry_witness :
  ∃ cmds, sent Sample.afterDeleteDir = sent Sample.twoFiles ++ cmds
          ∧ (length cmds ≤ 2)%nat
          ∧ Forall (λ c, commandBucket c = "bucket") cmds.
Proof.
  apply (X7_no_retry Sample.P Sample.opts (OpDeleteDir "d") Sample.twoFiles
           Sample.afterDeleteDir (Returned VVoid)).
  vm_compute. reflexivity.
Defined.

(** X8. If the store answers the [get] but the body stream fails while it
    is being read, [readFile] throws instead of returning the part already
    read: "file not found" if the stream's error counts as a "not found",
    the read failure wrapping it otherwise; nothing is cached. *)
Theorem X8_failing_body_stream {W} (platform : Platform W) (options : Options)
    (p : string) (st : State W) (response : GetObjectCommandOutput) (w' : W)
    (body : BodyStream) (error : AwsError) :
  send platform (GetObjectCommand (opt_bucket options) (getR2Key options p))
    (world st) = (Returned response, w') →
  get_Body response = Some body →
  readChunks body [] = Thrown error →
  ∃ st1, readFile platform options p st
         = (Thrown (if isNotFoundError error then FileNotFound p
                    else FailedToReadFile p error), st1)
         ∧ cache st1 = cache st.
Proof.
  intros Hsend Hbody Hfail.
  unfold readFile, try_catch, bind, cache_get, s3Client_send, ret.
  rewrite Hsend, Hbody. cbn [streamToString]. rewrite Hfail. unfold throw.
  destruct (isNotFoundError error); by eexists.
Qed.

Lemma X8_failing_body_stream_witness :
  ∃ st1, readFile Outage.brokenStream Sample.opts "a.txt" (fresh tt)
         = (Thrown (FailedToReadFile "a.txt" Outage.timeout), st1)
         ∧ cache st1 = cache (fresh tt).
Proof.
  refine (X8_failing_body_stream Outage.brokenStream Sample.opts "a.txt"
            (fresh tt) _ tt (StreamChunk [104; 105] (StreamFail Outage.timeout))
            Outage.timeout _ _ _).
  - reflexivity.
  - reflexivity.
  - reflexivity.
Defined.

(** X9. In every session of a fresh instance against the reference store,
    whatever the operations and however they end, each cache entry lies in
    the namespace of the instance and names an object of the bucket whose
    length in bytes is the cached size. *)
Theorem X9_cache_is_accurate (clock : nat → Z) (options : Options)
    (w : MemStore.Bucket) (ops : list Operation) (key : string)
    (entry : R2CacheEntry) :
  let st := session (MemStore.platform clock) options ops (fresh w) in
  cache st !! key = Some entry →
  inNamespace options key = true
  ∧ ∃ o, MemStore.objects (world st) !! key = Some o
         ∧ ce_size entry = Z.of_nat (length (MemStore.so_body o)).
Proof.
  intros st. by apply (session_accurate clock options ops), fresh_accurate.
Qed.

Lemma X9_cache_is_accurate_witness :
  ∃ entry, cache Sample.tree !! "ns/d/b.json" = Some entry
  ∧ inNamespace Sample.opts "ns/d/b.json" = true
  ∧ ∃ o, MemStore.objects (world Sample.tree) !! "ns/d/b.json" = Some o
         ∧ ce_size entry = Z.of_nat (length (MemStore.so_body o)).
Proof.
  eexists. split; [vm_compute; reflexivity |].
  apply (X9_cache_is_accurate (λ n, 5000 + Z.of_nat n) Sample.opts
           Sample.emptyBucket
           [OpWriteFile "d/a.txt" Sample.hi; OpWriteFile "d/b.json" Sample.accents;
            OpWriteFile "d/sub/c.md" Sample.smiley]).
  vm_compute. reflexivity.
Defined.

(** X10. In every session of a fresh instance against the reference
    store, when [stat] returns, the size it reports is the length in
    bytes of the object stored under the key, whether the answer came from
    the cache or from the store. *)
Theorem X10_stat_reports_stored_size (clock : nat → Z) (options : Options)
    (w : MemStore.Bucket) (ops : list Operation) (p : string)
    (stats : FileStats) (st1 : State MemStore.Bucket) :
  let st := session (MemStore.platform clock) options ops (fresh w) in
  stat (MemStore.platform clock) options p st = (Returned stats, st1) →
  ∃ o, MemStore.objects (world st) !! getR2Key options p = Some o
       ∧ st_size stats = Z.of_nat (length (MemStore.so_body o)).
Proof.
  intros st Hstat.
  assert (Hacc : accurate options st)
    by apply (session_accurate clock options ops), fresh_accurate.
  pose proof (stat_exact clock options _ _ _ _ Hstat) as Hprobe.
  pose proof (probe_accurate options _ _ _ Hprobe Hacc) as Hacc1.
  destruct (stat_entry _ _ _ _ _ _ Hstat) as [tag Hentry].
  destruct (Hacc1 _ _ Hentry) as (_ & o & Ho & Hsize).
  destruct Hprobe as [Hsame _]. rewrite Hsame in Ho. by exists o.
Qed.

Lemma X10_stat_reports_stored_size_witness :
  ∃ stats st1 o,
    stat Sample.P Sample.opts "d/sub/c.md" Sample.treeUnseen
    = (Returned stats, st1)
    ∧ MemStore.objects (world Sample.treeUnseen) !! "ns/d/sub/c.md" = Some o
    ∧ st_size stats = Z.of_nat (length (MemStore.so_body o)).
Proof.
  do 2 eexists.
  assert (H : stat Sample.P Sample.opts "d/sub/c.md" Sample.treeUnseen
              = (Returned _, _)) by (vm_compute; reflexivity).
  destruct (X10_stat_reports_stored_size (λ n, 5000 + Z.of_nat n)
              Sample.opts (world Sample.tree) [] "d/sub/c.md" _ _ H)
    as (o & Ho & Hsize).
  exists o. split; [exact H | split; [exact Ho | exact Hsize]].
Defined.

(** X11. In every session of a fresh instance against the reference
    store, if rejections of the store never pose as "not found", an
    [exists] that returns tells the truth: it returns true exactly when
    the bucket holds an object under the key. *)
Theorem X11_exists_is_exact (clock : nat → Z) (options : Options)
    (w : MemStore.Bucket) (ops : list Operation) (p : string) (b : bool)
    (st1 : State MemStore.Bucket) :
  let st := session (MemStore.platform clock) options ops (fresh w) in
  MemStore.honest (world st) →
  exists_ (MemStore.platform clock) options p st = (Returned b, st1) →
  b = true ↔ is_Some (MemStore.objects (world st) !! getR2Key options p).
Proof.
  intros st Hhonest Hex.
  assert (Hcoh : coherent st) by apply session_coherent, fresh_coherent.
  rewrite (exists_answer clock options _ _ _ _ Hcoh Hhonest Hex).
  apply bool_decide_eq_true.
Qed.

Lemma X11_exists_is_exact_witness :
  (true = true
   ↔ is_Some (MemStore.objects (world Sample.tree) !! "ns/d/a.txt"))
  ∧ (false = true
     ↔ is_Some (MemStore.objects (world Sample.tree) !! "ns/d"))
  ∧ (false = true
     ↔ is_Some (MemStore.objects (world Sample.afterDeleteDir) !! "ns/d/x.txt")).
Proof.
  split; [| split].
  - apply (X11_exists_is_exact (λ n, 5000 + Z.of_nat n) Sample.opts
             Sample.emptyBucket
             [OpWriteFile "d/a.txt" Sample.hi;
              OpWriteFile "d/b.json" Sample.accents;
              OpWriteFile "d/sub/c.md" Sample.smiley] "d/a.txt" true
             Sample.tree); [vm_compute; constructor | vm_compute; reflexivity].
  - eapply (X11_exists_is_exact (λ n, 5000 + Z.of_nat n) Sample.opts
             Sample.emptyBucket
             [OpWriteFile "d/a.txt" Sample.hi;
              OpWriteFile "d/b.json" Sample.accents;
              OpWriteFile "d/sub/c.md" Sample.smiley] "d" false);
      [vm_compute; constructor | vm_compute; reflexivity].
  - eapply (X11_exists_is_exact (λ n, 5000 + Z.of_nat n) Sample.opts
             Sample.emptyBucket
             [OpWriteFile "d/x.txt" Sample.hi;
              OpWriteFile "d/y/z.txt" Sample.smiley; OpDeleteDir "d"]
             "d/x.txt" false);
      [vm_compute; constructor | vm_compute; reflexivity].
Defined.

(** X12. In every session of a fresh instance against the reference
    store, for a path whose key the bucket does not hold, when the store
    answers the call, [readFile] and [stat] throw "file not found" with
    the path as given and [exists] returns false.  A directory is such a
    path: objects below [d/] do not make [d] a file. *)
Theorem X12_missing_file (clock : nat → Z) (options : Options)
    (w : MemStore.Bucket) (ops : list Operation) (p : string) :
  let st := session (MemStore.platform clock) options ops (fresh w) in
  MemStore.objects (world st) !! getR2Key options p = None →
  MemStore.noFaults 1 (world st) →
  (readFile (MemStore.platform clock) options p st).1
  = Thrown (FileNotFound p)
  ∧ (stat (MemStore.platform clock) options p st).1 = Thrown (FileNotFound p)
  ∧ (exists_ (MemStore.platform clock) options p st).1 = Returned false.
Proof.
  intros st Habsent Hcalm.
  assert (Hcoh : coherent st) by apply session_coherent, fresh_coherent.
  pose proof (coherent_absent _ _ Hcoh Habsent) as Hcache.
  destruct (readFile_absent clock options p st Habsent Hcalm) as [s1 ->].
  destruct (stat_absent clock options p st Hcache Habsent Hcalm) as [s2 ->].
  destruct (exists_absent clock options p st Hcache Habsent Hcalm)
    as (s3 & -> & _).
  done.
Qed.

Lemma X12_missing_file_witness :
  (readFile Sample.P Sample.opts "d" Sample.tree).1 = Thrown (FileNotFound "d")
  ∧ (stat Sample.P Sample.opts "d" Sample.tree).1 = Thrown (FileNotFound "d")
  ∧ (exists_ Sample.P Sample.opts "d" Sample.tree).1 = Returned false.
Proof.
  apply (X12_missing_file (λ n, 5000 + Z.of_nat n) Sample.opts
           Sample.emptyBucket
           [OpWriteFile "d/a.txt" Sample.hi; OpWriteFile "d/b.json" Sample.accents;
            OpWriteFile "d/sub/c.md" Sample.smiley] "d").
  - vm_compute. reflexivity.
  - vm_compute. constructor.
Defined.

(** X13. In every session of a fresh instance against the reference
    store, if rejections of the store never pose as "not found", then
    after a successful [deleteFile p] both [readFile p] and [stat p] throw
    "file not found" when the store answers them. *)
Theorem X13_deleted_file_is_gone (clock : nat → Z) (options : Options)
    (w : MemStore.Bucket) (ops : list Operation) (p : string)
    (st1 : State MemStore.Bucket) :
  let st := session (MemStore.platform clock) options ops (fresh w) in
  MemStore.honest (world st) →
  deleteFile (MemStore.platform clock) options p st = (Returned tt, st1) →
  MemStore.noFaults 1 (world st1) →
  (readFile (MemStore.platform clock) options p st1).1
  = Thrown (FileNotFound p)
  ∧ (stat (MemStore.platform clock) options p st1).1
    = Thrown (FileNotFound p).
Proof.
  intros st Hhonest Hdelete Hcalm.
  assert (Hcoh : coherent st) by apply session_coherent, fresh_coherent.
  assert (MemStore.objects (world st1) !! getR2Key options p = None
          ∧ cache st1 !! getR2Key options p = None) as [Ho Hc].
  { apply deleteFile_effect in Hdelete as [[Hc Ho] | (Hc & Ho & Habsent)].
    - by rewrite Hc, Ho, !lookup_delete_eq.
    - rewrite Hc, Ho. split; [by apply Habsent |].
      apply coherent_absent; [done | by apply Habsent]. }
  destruct (readFile_absent clock options p st1 Ho Hcalm) as [s1 ->].
  destruct (stat_absent clock options p st1 Hc Ho Hcalm) as [s2 ->].
  done.
Qed.

Lemma X13_deleted_file_is_gone_witness :
  let st1 := (deleteFile Sample.P Sample.opts "a.txt" Sample.oneFile).2 in
  (readFile Sample.P Sample.opts "a.txt" st1).1
  = Thrown (FileNotFound "a.txt")
  ∧ (stat Sample.P Sample.opts "a.txt" st1).1 = Thrown (FileNotFound "a.txt").
Proof.
  apply (X13_deleted_file_is_gone (λ n, 5000 + Z.of_nat n) Sample.opts
           Sample.emptyBucket [OpWriteFile "a.txt" Sample.hi] "a.txt").
  - vm_compute. constructor.
  - vm_compute. reflexivity.
  - vm_compute. constructor.
Defined.

(** X14. No session touches the bucket outside the namespace of its
    instance: against the reference store, whatever the operations, their
    arguments and the starting state, a key that does not start with the
    configured prefix and a slash holds after the session what it held
    before. *)
Theorem X14_namespace_isolation (clock : nat → Z) (options : Options)
    (ops : list Operation) (st : State MemStore.Bucket) (key : string) :
  inNamespace options key = false →
  MemStore.objects (world (session (MemStore.platform clock) options ops st))
    !! key
  = MemStore.objects (world st) !! key.
Proof. apply session_outside. Qed.

Lemma X14_namespace_isolation_witness :
  MemStore.objects
    (world (session Sample.P Sample.opts
              [OpDeleteDir ""; OpDeleteFile "/ns2/a.txt"]
              (session Sample.P Sample.bare
                 [OpWriteFile "ns2/a.txt" Sample.hi] Sample.tree)))
    !! "ns2/a.txt"
  = MemStore.objects
      (world (session Sample.P Sample.bare
                [OpWriteFile "ns2/a.txt" Sample.hi] Sample.tree))
      !! "ns2/a.txt".
Proof.
  apply (X14_namespace_isolation (λ n, 5000 + Z.of_nat n) Sample.opts).
  vm_compute. reflexivity.
Defined.

(** X15. Against the reference store, a single-file operation ([readFile],
    [writeFile], [exists], [deleteFile], [stat]) changes the cache and the
    bucket at the key of its path at most: every other key holds after the
    operation what it held before, however the operation ends. *)
Theorem X15_single_file_footprint (clock : nat → Z) (options : Options)
    (op : Operation) (st : State MemStore.Bucket) (own key : string) :
  fileKey options op = Some own →
  key ≠ own →
  let st1 := (perform (MemStore.platform clock) options op st).2 in
  MemStore.objects (world st1) !! key = MemStore.objects (world st) !! key
  ∧ cache st1 !! key = cache st !! key.
Proof.
  intros Hown Hne st1. apply perform_footprint.
  - intros path [-> | ->]; done.
  - rewrite Hown. by intros [= ->].
Qed.

Lemma X15_single_file_footprint_witness :
  let st1 := (perform Sample.P Sample.opts (OpDeleteFile "d/a.txt")
                Sample.tree).2 in
  MemStore.objects (world st1) !! "ns/d/b.json"
  = MemStore.objects (world Sample.tree) !! "ns/d/b.json"
  ∧ cache st1 !! "ns/d/b.json" = cache Sample.tree !! "ns/d/b.json".
Proof.
  apply (X15_single_file_footprint (λ n, 5000 + Z.of_nat n) Sample.opts
           (OpDeleteFile "d/a.txt") Sample.tree "ns/d/a.txt").
  - reflexivity.
  - discriminate.
Defined.

(** X16. Against the reference store, the operations that read
    ([readFile], [exists], [stat], [readDir]) and the two that do nothing
    ([ensureDir], [chmod]) leave every object of the bucket as it was,
    whether they return or throw. *)
Theorem X16_reads_leave_the_bucket (clock : nat → Z) (options : Options)
    (op : Operation) (st : State MemStore.Bucket) :
  readOnly op = true →
  MemStore.objects (world (perform (MemStore.platform clock) options op st).2)
  = MemStore.objects (world st).
Proof.
  intros Hread.
  destruct (perform _ options op st) as [r st1] eqn:H. cbn [snd].
  destruct op; try discriminate Hread; cbn [perform] in H;
    apply bind_inv in H as (r0 & st0 & H0 & H);
    assert (st1 = st0) as ->
      by (destruct r0; [unfold ret in H; by simplify_eq | by destruct H]);
    clear H.
  - by apply readFile_exact in H0 as [? _].
  - by apply exists_exact in H0 as [? _].
  - by apply readDir_exact in H0 as [? _].
  - by apply stat_exact in H0 as [? _].
  - unfold ensureDir, ret in H0. by simplify_eq.
  - unfold chmod, ret in H0. by simplify_eq.
Qed.

Lemma X16_reads_leave_the_bucket_witness :
  MemStore.objects
    (world (perform Sample.P Sample.opts (OpReadDir "d") Sample.treeUnseen).2)
  = MemStore.objects (world Sample.treeUnseen).
Proof.
  apply (X16_reads_leave_the_bucket (λ n, 5000 + Z.of_nat n) Sample.opts
           (OpReadDir "d") Sample.treeUnseen).
  reflexivity.
Defined.



(** X18. Against the reference store, [deleteDir] removes nothing outside
    its directory: a key that does not start with the store prefix of the
    directory holds after the call, in the bucket and in the cache, what
    it held before, however the call ends. *)
Theorem X18_deleteDir_stays_in_directory (clock : nat → Z)
    (options : Options) (path key : string) (st : State MemStore.Bucket) :
  String.prefix (getR2Key options (normalizeDir path)) key = false →
  let st1 := (deleteDir (MemStore.platform clock) options path st).2 in
  MemStore.objects (world st1) !! key = MemStore.objects (world st) !! key
  ∧ cache st1 !! key = cache st !! key.
Proof.
  intros Hout st1. subst st1.
  destruct (deleteDir _ options path st) as [r st1] eqn:H. cbn [snd].
  apply deleteDir_exact in H as (keys & Hkeys & Ho & Hc).
  assert (Hnin : key ∉ keys).
  { destruct Hkeys as [-> | ->]; [by intros ?%elem_of_nil |].
    intros [_ Hp]%elem_of_listedKeys_inv. congruence. }
  rewrite Ho, Hc, decide_False by done.
  by rewrite lookup_foldr_delete_notin.
Qed.

Lemma X18_deleteDir_stays_in_directory_witness :
  let st1 := (deleteDir Sample.P Sample.opts "d/sub" Sample.tree).2 in
  MemStore.objects (world st1) !! "ns/d/a.txt"
  = MemStore.objects (world Sample.tree) !! "ns/d/a.txt"
  ∧ cache st1 !! "ns/d/a.txt" = cache Sample.tree !! "ns/d/a.txt".
Proof.
  apply (X18_deleteDir_stays_in_directory (λ n, 5000 + Z.of_nat n)
           Sample.opts "d/sub" "ns/d/a.txt" Sample.tree).
  reflexivity.
Defined.

(** X19. Against the reference store, after a successful [deleteDir] of
    a directory whose listing fits in one page, [readDir] of the same
    directory returns the empty list when the store answers it.  The store
    prefix of the directory is not empty: a namespace is configured or the
    path is not the root. *)
Theorem X19_deleteDir_then_readDir (clock : nat → Z) (options : Options)
    (path : string) (st st1 : State MemStore.Bucket) :
  deleteDir (MemStore.platform clock) options path st = (Returned tt, st1) →
  (length (MemStore.listing (MemStore.objects (world st))
             (getR2Key options (normalizeDir path)) None)
   ≤ MemStore.maxKeys (MemStore.config (world st)))%nat →
  JsString.truthy (getR2Key options (normalizeDir path)) = true →
  MemStore.noFaults 1 (world st1) →
  ∃ st2, readDir (MemStore.platform clock) options path st1
         = (Returned [], st2).
Proof.
  intros Hdel Hfit Ht Hcalm.
  destruct (readDir_empty clock options path st1) as (st2 & H & _);
    [| done | by exists st2].
  intros key Hkey. by eapply deleteDir_then_empty.
Qed.

Lemma X19_deleteDir_then_readDir_witness :
  ∃ st2, readDir Sample.P Sample.opts "d" Sample.afterDeleteDir
         = (Returned [], st2).
Proof.
  apply (X19_deleteDir_then_readDir (λ n, 5000 + Z.of_nat n) Sample.opts "d"
           Sample.twoFiles).
  - vm_compute. reflexivity.
  - vm_compute. lia.
  - reflexivity.
  - vm_compute. constructor.
Defined.

(** X20. Only [exists] and [stat] consult the cache.  For every other
    operation and any store client, two states with the same store give
    the same outcome and leave the same store, whatever their caches hold:
    [readFile] looks its key up but goes to the store regardless, and no
    listing, write or delete is ever answered from the cache. *)
Theorem X20_only_exists_and_stat_consult_the_cache {W}
    (platform : Platform W) (options : Options) (op : Operation)
    (st st' : State W) :
  consultsCache op = false →
  world st = world st' →
  (perform platform options op st).1 = (perform platform options op st').1
  ∧ world (perform platform options op st).2
    = world (perform platform options op st').2.
Proof.
  intros Hop Hworld.
  assert (cacheBlind (perform platform options op)) as Hblind.
  { destruct op; try discriminate Hop; cbn [perform];
      (apply cacheBlind_bind; [| intros; apply cacheBlind_ret]).
    - apply cacheBlind_readFile.
    - apply cacheBlind_writeFile.
    - apply cacheBlind_deleteFile.
    - apply cacheBlind_readDir.
    - apply cacheBlind_deleteDir.
    - apply cacheBlind_ret.
    - apply cacheBlind_ret. }
  by apply Hblind.
Qed.

Lemma X20_only_exists_and_stat_consult_the_cache_witness :
  (perform Sample.P Sample.opts (OpReadFile "a.txt") Sample.oneFileThenOutage).1
  = (perform Sample.P Sample.opts (OpReadFile "a.txt")
       (fresh (world Sample.oneFileThenOutage))).1
  ∧ world (perform Sample.P Sample.opts (OpReadFile "a.txt")
             Sample.oneFileThenOutage).2
    = world (perform Sample.P Sample.opts (OpReadFile "a.txt")
               (fresh (world Sample.oneFileThenOutage))).2.
Proof.
  apply (X20_only_exists_and_stat_consult_the_cache Sample.P Sample.opts
           (OpReadFile "a.txt")); reflexivity.
Defined.

(** X21. Against the reference store, a [readFile] that returns has read
    an object of the bucket: the text is the decoding of the bytes stored
    under the key, however the body was cut into chunks, and the object's
    size and modification time are cached, so that a [stat] that follows
    is answered with them without a call to the store. *)
Theorem X21_readFile_reads_through (clock : nat → Z) (options : Options)
    (p : string) (content : list Z) (st st1 : State MemStore.Bucket) :
  readFile (MemStore.platform clock) options p st = (Returned content, st1) →
  ∃ o stats,
    MemStore.objects (world st) !! getR2Key options p = Some o
    ∧ content = Utf8.decode (MemStore.so_body o)
    ∧ stat (MemStore.platform clock) options p st1 = (Returned stats, st1)
    ∧ st_size stats = Z.of_nat (length (MemStore.so_body o))
    ∧ st_mtime stats = MemStore.so_lastModified o.
Proof.
  intros Hread.
  apply readFile_returned in Hread as (o & Ho & Hcontent & Hentry).
  exists o. eexists. split; [exact Ho |]. split; [exact Hcontent |].
  split; [by apply stat_hit |]. done.
Qed.

Lemma X21_readFile_reads_through_witness :
  ∃ st1 o stats,
    readFile Sample.P Sample.opts "d/b.json" Sample.treeUnseen
    = (Returned Sample.accents, st1)
    ∧ MemStore.objects (world Sample.treeUnseen) !! "ns/d/b.json" = Some o
    ∧ Sample.accents = Utf8.decode (MemStore.so_body o)
    ∧ stat Sample.P Sample.opts "d/b.json" st1 = (Returned stats, st1)
    ∧ st_size stats = Z.of_nat (length (MemStore.so_body o))
    ∧ st_mtime stats = MemStore.so_lastModified o.
Proof.
  eexists.
  assert (H : readFile Sample.P Sample.opts "d/b.json" Sample.treeUnseen
              = (Returned Sample.accents, _)) by (vm_compute; reflexivity).
  destruct (X21_readFile_reads_through _ _ _ _ _ _ H) as (o & stats & Hrest).
  exists o, stats. split; [exact H | exact Hrest].
Defined.

(** X22. Construction succeeds exactly when the account id, the two
    access keys and the bucket are all non-empty.  The instance then
    reports, through [getBucketInfo], the bucket, the account and the
    endpoint as they were given (the endpoint is not the one the client
    was configured with), a region that is never empty (an empty one
    counts as absent and becomes the default ["auto"], which the client
    gets), and the prefix its operations use. *)
Theorem X22_construction (options : CloudflareR2Options) :
  ((∃ this, createCloudflareR2FileSystem options = Returned this)
   ↔ (JsString.truthy (r2_accountId options)
      && JsString.truthy (r2_accessKeyId options)
      && JsString.truthy (r2_secretAccessKey options)
      && JsString.truthy (r2_bucket options))%bool = true)
  ∧ ∀ this, createCloudflareR2FileSystem options = Returned this →
      bi_bucket (getBucketInfo this) = r2_bucket options
      ∧ bi_accountId (getBucketInfo this) = r2_accountId options
      ∧ bi_endpoint (getBucketInfo this) = r2_endpoint options
      ∧ JsString.truthy (bi_region (getBucketInfo this)) = true
      ∧ s3_region (this_s3Client this) = bi_region (getBucketInfo this)
      ∧ optionsOf this
        = {| opt_bucket := r2_bucket options;
             opt_prefix := bi_prefix (getBucketInfo this) |}
      ∧ (r2_prefix options = None ∨ r2_prefix options = Some "" →
         ∀ key, inNamespace (optionsOf this) key = true)
      ∧ (r2_region options = None ∨ r2_region options = Some "" →
         bi_region (getBucketInfo this) = "auto").
Proof.
  unfold createCloudflareR2FileSystem. split.
  - split.
    + intros [this (Ha & Hk & Hs & Hb & _)%constructor_returned].
      by rewrite Ha, Hk, Hs, Hb.
    + intros (((Ha & Hk)%andb_true_iff & Hs)%andb_true_iff
              & Hb)%andb_true_iff.
      unfold constructor.
      cbn [resolve ro_accountId ro_accessKeyId ro_secretAccessKey ro_bucket].
      rewrite Ha, Hk, Hs, Hb. by eexists.
  - intros this (_ & _ & _ & _ & Ho & _ & Hr)%constructor_returned.
    unfold getBucketInfo, optionsOf. rewrite Hr, Ho.
    cbn [resolve bi_bucket bi_accountId bi_endpoint bi_region bi_prefix
           ro_bucket ro_accountId ro_endpoint ro_region ro_prefix].
    repeat split; try done.
    + by apply orElse_truthy.
    + intros Hprefix key. unfold inNamespace. cbn [opt_prefix].
      by destruct Hprefix as [-> | ->].
    + by intros [-> | ->].
Qed.

Lemma X22_construction_witness :
  ∃ this,
    createCloudflareR2FileSystem SampleConfig.virtualHost = Returned this
    ∧ bi_endpoint (getBucketInfo this)
      = Some "https://my-bucket.ddf6ea2e.r2.cloudflarestorage.com"
    ∧ bi_region (getBucketInfo this) = "auto"
    ∧ s3_region (this_s3Client this) = bi_region (getBucketInfo this).
Proof.
  destruct (X22_construction SampleConfig.virtualHost) as [[_ Hsome] Hinfo].
  destruct (Hsome eq_refl) as [this Hthis].
  destruct (Hinfo this Hthis) as (_ & _ & Hendpoint & _ & Hregion & _).
  exists this. split; [exact Hthis |]. split; [exact Hendpoint |].
  split; [| exact Hregion].
  vm_compute in Hthis. injection Hthis as <-. reflexivity.
Defined.

(** X23. The client is configured with the endpoint from which the first
    occurrence of the bucket name followed by a dot has been cut out,
    wherever it stands: as the leading host label of a bucket-specific
    endpoint, but also inside a label (for a bucket named [storage] and no
    endpoint given, the generated host loses its [storage.]). *)
Theorem X23_bucket_label_is_cut (options : CloudflareR2Options)
    (this : Instance) (pre post : string) :
  createCloudflareR2FileSystem options = Returned this →
  baseEndpoint (resolve options)
  = pre +:+ (r2_bucket options +:+ ".") +:+ post →
  JsSearch.includes (pre +:+ r2_bucket options) (r2_bucket options +:+ ".")
  = false →
  JsSearch.endsWith (pre +:+ post) ("/" +:+ r2_bucket options) = false →
  s3_endpoint (this_s3Client this) = JsString.stripTrailingSlash (pre +:+ post).
Proof.
  intros (_ & _ & _ & _ & _ & -> & _)%constructor_returned Hbase Hfirst Hend.
  unfold clientEndpoint. rewrite Hbase. cbn [resolve ro_bucket].
  by rewrite includes_occurrence, replace_first, Hend.
Qed.

Lemma X23_bucket_label_is_cut_witness :
  (∃ this, createCloudflareR2FileSystem SampleConfig.virtualHost
           = Returned this
           ∧ s3_endpoint (this_s3Client this)
             = "https://ddf6ea2e.r2.cloudflarestorage.com")
  ∧ (∃ this, createCloudflareR2FileSystem SampleConfig.minimal = Returned this
             ∧ s3_endpoint (this_s3Client this)
               = "https://ddf6ea2e.r2.cloudflarecom").
Proof.
  split; eexists; (split; [vm_compute; reflexivity |]).
  - apply (X23_bucket_label_is_cut SampleConfig.virtualHost _ "https://"
             "ddf6ea2e.r2.cloudflarestorage.com"); reflexivity.
  - apply (X23_bucket_label_is_cut SampleConfig.minimal _
             "https://ddf6ea2e.r2.cloudflare" "com"); reflexivity.
Defined.

(** X24. When the bucket name followed by a dot does not occur in the
    endpoint: an endpoint that ends with a slash and the bucket name is
    cut back to what stands before them; but when a slash follows the
    bucket name, only that slash goes and the bucket stays in the
    endpoint of the client, the trailing slash being dropped after the
    bucket was looked for. *)
Theorem X24_bucket_path_segment (options : CloudflareR2Options)
    (this : Instance) (base : string) :
  createCloudflareR2FileSystem options = Returned this →
  JsSearch.includes (baseEndpoint (resolve options)) (r2_bucket options +:+ ".")
  = false →
  JsString.endsWithSlash base = false →
  JsString.endsWithSlash (r2_bucket options) = false →
  (baseEndpoint (resolve options) = base +:+ "/" +:+ r2_bucket options →
   s3_endpoint (this_s3Client this) = base)
  ∧ (baseEndpoint (resolve options)
     = (base +:+ "/" +:+ r2_bucket options) +:+ "/" →
     s3_endpoint (this_s3Client this) = base +:+ "/" +:+ r2_bucket options).
Proof.
  intros (_ & _ & _ & Hb & _ & -> & _)%constructor_returned Hnone Hbase Hbucket.
  unfold clientEndpoint. cbn [resolve ro_bucket] in *. rewrite Hnone.
  split; intros ->.
  - rewrite endsWith_append, sliceEnd_append. by apply stripTrailingSlash_id.
  - destruct (JsSearch.endsWith _ _) eqn:Hends.
    + apply endsWith_endsWithSlash in Hends; [| done].
      rewrite endsWithSlash_append in Hends.
      change ("/" +:+ r2_bucket options) with (String "/" (r2_bucket options))
        in Hends.
      cbn [JsString.endsWithSlash] in Hends.
      destruct (r2_bucket options); [done | congruence].
    + apply stripTrailingSlash_append.
Qed.

Lemma X24_bucket_path_segment_witness :
  (∃ this, createCloudflareR2FileSystem SampleConfig.pathStyle = Returned this
           ∧ s3_endpoint (this_s3Client this)
             = "https://ddf6ea2e.r2.cloudflarestorage.com")
  ∧ (∃ this, createCloudflareR2FileSystem SampleConfig.pathStyleSlash
             = Returned this
             ∧ s3_endpoint (this_s3Client this)
               = "https://ddf6ea2e.r2.cloudflarestorage.com/my-bucket").
Proof.
  split; eexists; (split; [vm_compute; reflexivity |]).
  - apply (X24_bucket_path_segment SampleConfig.pathStyle _
             "https://ddf6ea2e.r2.cloudflarestorage.com"); reflexivity.
  - apply (X24_bucket_path_segment SampleConfig.pathStyleSlash _
             "https://ddf6ea2e.r2.cloudflarestorage.com"); reflexivity.
Defined.

(** X25. The content type depends on the text after the last dot of the
    path only, and not on its case; a path without a dot is its own
    extension. *)
Theorem X25_content_type_by_extension (stem ext : string) :
  JsSearch.dotFree ext = true →
  getContentType (stem +:+ "." +:+ ext)
  = getContentType (JsString.toLowerCase ext)
  ∧ getContentType ext = getContentType (JsString.toLowerCase ext).
Proof.
  intros Hext. unfold getContentType.
  rewrite lastDotSegment_append by done.
  rewrite !lastDotSegment_dotFree by (by rewrite ?dotFree_toLowerCase).
  by rewrite toLowerCase_idem.
Qed.

Lemma X25_content_type_by_extension_witness :
  getContentType "d/report.final.JSON" = TypeString "application/json"
  ∧ getContentType "JSON" = TypeString "application/json".
Proof.
  apply (X25_content_type_by_extension "d/report.final" "JSON"). reflexivity.
Defined.

(** X26. Against the reference store, for a directory path that is not
    empty and does not start with a slash, the names without a trailing
    slash that [readDir] returns are names of files directly in the
    directory: each is non-empty, contains no slash, and the bucket holds
    an object under the key of the directory path followed by the name.
    When the listing fits in one page, every such file is named. *)
Theorem X26_readDir_files (clock : nat → Z) (options : Options)
    (path : string) (names : list string) (st st1 : State MemStore.Bucket) :
  JsString.startsWith path "/" = false →
  JsString.truthy path = true →
  readDir (MemStore.platform clock) options path st = (Returned names, st1) →
  (∀ n, n ∈ names → JsString.endsWithSlash n = false →
        JsString.truthy n = true
        ∧ JsString.includesSlash n = false
        ∧ is_Some (MemStore.objects (world st)
                     !! getR2Key options (normalizeDir path +:+ n)))
  ∧ ((length (MemStore.listing (MemStore.objects (world st))
                (getR2Key options (normalizeDir path)) (Some "/"))
      ≤ MemStore.maxKeys (MemStore.config (world st)))%nat →
     ∀ n, JsString.truthy n = true → JsString.includesSlash n = false →
          is_Some (MemStore.objects (world st)
                     !! getR2Key options (normalizeDir path +:+ n)) →
          n ∈ names).
Proof.
  intros Hrel Hnamed Hread.
  assert (Hdrel : JsString.startsWith (normalizeDir path) "/" = false).
  { unfold normalizeDir. destruct (JsString.endsWithSlash path); [done |].
    by apply relative_append. }
  assert (Hdnamed : JsString.truthy (normalizeDir path) = true).
  { unfold normalizeDir. destruct (JsString.endsWithSlash path); [done |].
    by apply truthy_append. }
  destruct (readDir_files clock options (normalizeDir path) Hdrel Hdnamed
              path st names st1 eq_refl Hread) as [Hsound Hcomplete].
  split.
  - intros n Hn Hfile. rewrite getR2Key_append by done.
    destruct (Hsound n Hn Hfile) as (? & ? & ? & _). done.
  - intros Hfit n Hname Hflat Hobj. rewrite getR2Key_append in Hobj by done.
    by apply Hcomplete.
Qed.

Lemma X26_readDir_files_witness :
  is_Some (MemStore.objects (world Sample.treeUnseen)
             !! getR2Key Sample.opts (normalizeDir "d" +:+ "a.txt"))
  ∧ "b.json" ∈ ["a.txt"; "b.json"; "sub/"].
Proof.
  destruct (X26_readDir_files (λ n, 5000 + Z.of_nat n) Sample.opts "d"
              ["a.txt"; "b.json"; "sub/"] Sample.treeUnseen
              (readDir Sample.P Sample.opts "d" Sample.treeUnseen).2)
    as [Hsound Hcomplete]; [reflexivity | reflexivity | |].
  { vm_compute. reflexivity. }
  split.
  - apply (Hsound "a.txt"); [apply list_elem_of_here | reflexivity].
  - apply Hcomplete; [vm_compute; lia | reflexivity | reflexivity |].
    vm_compute. eexists. reflexivity.
Defined.

(** X27. Against the reference store, a listing fills the cache: after
    [readDir] of a directory path that is not empty and does not start
    with a slash, [exists] and [stat] of each file it named (directory
    path, slash, name) return without a call to the store. *)
Theorem X27_listed_files_are_cached (clock : nat → Z) (options : Options)
    (path : string) (names : list string) (st st1 : State MemStore.Bucket)
    (n : string) :
  JsString.startsWith path "/" = false →
  JsString.truthy path = true →
  readDir (MemStore.platform clock) options path st = (Returned names, st1) →
  n ∈ names →
  JsString.endsWithSlash n = false →
  exists_ (MemStore.platform clock) options (normalizeDir path +:+ n) st1
  = (Returned true, st1)
  ∧ ∃ stats, stat (MemStore.platform clock) options
               (normalizeDir path +:+ n) st1
             = (Returned stats, st1).
Proof.
  intros Hrel Hnamed Hread Hn Hfile.
  assert (Hdrel : JsString.startsWith (normalizeDir path) "/" = false).
  { unfold normalizeDir. destruct (JsString.endsWithSlash path); [done |].
    by apply relative_append. }
  assert (Hdnamed : JsString.truthy (normalizeDir path) = true).
  { unfold normalizeDir. destruct (JsString.endsWithSlash path); [done |].
    by apply truthy_append. }
  destruct (readDir_files clock options (normalizeDir path) Hdrel Hdnamed
              path st names st1 eq_refl Hread) as [Hsound _].
  destruct (Hsound n Hn Hfile) as (_ & _ & _ & Hcached).
  rewrite <- getR2Key_append in Hcached by done.
  split.
  - by apply exists_cached.
  - destruct Hcached as [entry Hentry]. eexists. by apply stat_hit.
Qed.

Lemma X27_listed_files_are_cached_witness :
  let st1 := (readDir Sample.P Sample.opts "d" Sample.treeUnseen).2 in
  exists_ Sample.P Sample.opts ("d/" +:+ "b.json") st1 = (Returned true, st1)
  ∧ ∃ stats, stat Sample.P Sample.opts ("d/" +:+ "b.json") st1
             = (Returned stats, st1).
Proof.
  apply (X27_listed_files_are_cached (λ n, 5000 + Z.of_nat n) Sample.opts "d"
           ["a.txt"; "b.json"; "sub/"] Sample.treeUnseen).
  - reflexivity.
  - reflexivity.
  - vm_compute. reflexivity.
  - apply list_elem_of_further, list_elem_of_here.
  - reflexivity.
Defined.

(** X28. Against the reference store, for a directory path that is not
    empty and does not start with a slash, the names with a trailing slash
    that [readDir] returns are subdirectories: the name is a non-empty
    segment without a slash, followed by the slash, and the bucket holds
    an object whose key continues the key of the directory path with it.
    When the listing fits in one page, every such first segment is
    named. *)
Theorem X28_readDir_subdirectories (clock : nat → Z) (options : Options)
    (path : string) (names : list string) (st st1 : State MemStore.Bucket) :
  JsString.startsWith path "/" = false →
  JsString.truthy path = true →
  readDir (MemStore.platform clock) options path st = (Returned names, st1) →
  (∀ n, n ∈ names → JsString.endsWithSlash n = true →
        ∃ d tail, n = d +:+ "/"
                  ∧ JsString.truthy d = true
                  ∧ JsString.includesSlash d = false
                  ∧ is_Some (MemStore.objects (world st)
                               !! getR2Key options
                                    (normalizeDir path +:+ d +:+ "/" +:+ tail)))
  ∧ ((length (MemStore.listing (MemStore.objects (world st))
                (getR2Key options (normalizeDir path)) (Some "/"))
      ≤ MemStore.maxKeys (MemStore.config (world st)))%nat →
     ∀ d tail, JsString.truthy d = true → JsString.includesSlash d = false →
               is_Some (MemStore.objects (world st)
                          !! getR2Key options
                               (normalizeDir path +:+ d +:+ "/" +:+ tail)) →
               d +:+ "/" ∈ names).
Proof.
  intros Hrel Hnamed Hread.
  assert (Hdrel : JsString.startsWith (normalizeDir path) "/" = false).
  { unfold normalizeDir. destruct (JsString.endsWithSlash path); [done |].
    by apply relative_append. }
  assert (Hdnamed : JsString.truthy (normalizeDir path) = true).
  { unfold normalizeDir. destruct (JsString.endsWithSlash path); [done |].
    by apply truthy_append. }
  destruct (readDir_dirs clock options (normalizeDir path) Hdrel Hdnamed
              path st names st1 eq_refl Hread) as [Hsound Hcomplete].
  split.
  - intros n Hn Hslash.
    destruct (Hsound n Hn Hslash) as (d & tail & ? & ? & ? & ?).
    exists d, tail. by rewrite getR2Key_append.
  - intros Hfit d tail Hd Hflat Hobj.
    rewrite getR2Key_append in Hobj by done. by eapply Hcomplete.
Qed.

Lemma X28_readDir_subdirectories_witness :
  "sub/" ∈ ["a.txt"; "b.json"; "sub/"]
  ∧ ∃ d tail, "sub/" = d +:+ "/"
              ∧ JsString.truthy d = true
              ∧ JsString.includesSlash d = false
              ∧ is_Some (MemStore.objects (world Sample.treeUnseen)
                           !! getR2Key Sample.opts
                                (normalizeDir "d" +:+ d +:+ "/" +:+ tail)).
Proof.
  destruct (X28_readDir_subdirectories (λ n, 5000 + Z.of_nat n) Sample.opts
              "d" ["a.txt"; "b.json"; "sub/"] Sample.treeUnseen
              (readDir Sample.P Sample.opts "d" Sample.treeUnseen).2)
    as [Hsound Hcomplete]; [reflexivity | reflexivity | |].
  { vm_compute. reflexivity. }
  split.
  - apply (Hcomplete ltac:(vm_compute; lia) "sub" "c.md");
      [reflexivity | reflexivity |].
    vm_compute. eexists. reflexivity.
  - apply (Hsound "sub/"); [| reflexivity].
    apply list_elem_of_further, list_elem_of_further, list_elem_of_here.
Defined.

(** X29. Encoding is the inverse of decoding on the namespace: for a key
    of the namespace whose local path does not start with a slash,
    [getR2Key (getLocalPath key)] is the key again. *)
Theorem X29_encode_decode_inverse (options : Options) (key : string) :
  inNamespace options key = true →
  JsString.startsWith (getLocalPath options key) "/" = false →
  getR2Key options (getLocalPath options key) = key.
Proof.
  intros Hns Hrel. rewrite getR2Key_relative by done.
  revert Hns. unfold inNamespace, getLocalPath, JsString.startsWith.
  destruct (JsString.truthy (opt_prefix options)); [| done].
  intros Hp. rewrite Hp. cbn [andb].
  apply prefix_split in Hp. rewrite length_append in Hp.
  by rewrite <- append_assoc.
Qed.

Lemma X29_encode_decode_inverse_witness :
  getR2Key Sample.opts (getLocalPath Sample.opts "ns/d/a.txt") = "ns/d/a.txt".
Proof.
  apply (X29_encode_decode_inverse Sample.opts "ns/d/a.txt"); reflexivity.
Defined.

(** X30. Against the reference store, for a directory path that starts
    with a slash, and for the empty path (the root), every name without a
    trailing slash that [readDir] returns is the name of an object under
    the directory without its first character: the name is cut out of the
    local path at the length of the directory path, slash included, while
    the key was built without that slash. *)
Theorem X30_leading_slash_cuts_names (clock : nat → Z) (options : Options)
    (path : string) (names : list string) (st st1 : State MemStore.Bucket)
    (n : string) :
  JsString.startsWith (normalizeDir path) "/" = true →
  readDir (MemStore.platform clock) options path st = (Returned names, st1) →
  n ∈ names →
  JsString.endsWithSlash n = false →
  JsString.truthy n = true
  ∧ JsString.includesSlash n = false
  ∧ ∃ c, is_Some (MemStore.objects (world st)
                    !! (getR2Key options (normalizeDir path) +:+ String c n)).
Proof.
  intros Hslash Hread Hn Hfile.
  destruct (normalizeDir path) as [|c dir'] eqn:Hdir; [done |].
  unfold JsString.startsWith in Hslash.
  rewrite prefix_cons, prefix_nil, andb_true_r in Hslash.
  apply Ascii.eqb_eq in Hslash as <-.
  by eapply readDir_slashed.
Qed.

Lemma X30_leading_slash_cuts_names_witness :
  JsString.truthy ".txt" = true
  ∧ JsString.includesSlash ".txt" = false
  ∧ ∃ c, is_Some (MemStore.objects (world Sample.treeUnseen)
                    !! (getR2Key Sample.opts (normalizeDir "/d")
                        +:+ String c ".txt")).
Proof.
  apply (X30_leading_slash_cuts_names (λ n, 5000 + Z.of_nat n) Sample.opts
           "/d" [".json"; ".txt"; "ub/"] Sample.treeUnseen
           (readDir Sample.P Sample.opts "/d" Sample.treeUnseen).2).
  - reflexivity.
  - vm_compute. reflexivity.
  - apply list_elem_of_further, list_elem_of_here.
  - reflexivity.
Defined.
